(** * HR automation: the candidate-context conversational core

    A shallow embedding of the parts of the repository that the
    specification talks about:

    - [utils/logger.py]: [sanitize_error_message];
    - [agents/resume_analysis_agent.py]: [get_llm_model],
      [extract_email_from_text], [extract_analysis_manually] and the
      response handling of [analyze_resume];
    - [agents/hr_conversational_agent.py]: [get_llm_model] and the
      [HRConversationalAgent] class ([chat], [_is_email_request],
      [_is_send_request], [_generate_email], [_handle_send_request],
      [_send_email_to_candidate]);
    - [utils/file_extractor.py]: the four readers;
    - [agents/resume_analysis_agent.py]: [analyze_resume_from_files];
    - [agents/email_writing_agent.py], [agents/filtering_agent.py],
      [agents/response_agent.py], [agents/summarization_agent.py]:
      the selection of the backend and the function that asks it;
    - [utils/email_helper.py]: [send_email_with_credentials];
    - [core/email_imap.py]: the choice of the messages that
      [fetch_imap_emails] goes through;
    - [app.py]: the handler of the login form.

    Conventions of the embedding.

    - A Python [str] is a [list ascii]; the development covers texts
      of ASCII characters, on which [str.lower], [str.isalnum],
      [str.strip] and the classes [\s], [\d], [\w] of [re] are the
      ASCII ones written out below.
    - A Python [float] is modelled by the rational number it is read
      from ([FFin q]), by an infinity or by NaN; rounding to binary64
      is not modelled (45, 73, 73.5 and 0 are exact in binary64).
    - What the program obtains from outside (the reply of the language
      model, the outcome of the SMTP dialogue, the JSON decoder of the
      Python library, the environment variables) is an explicit
      argument of the function that consumes it.
    - A Python exception is an explicit result ([Raise]); state is
      passed explicitly. *)

From Stdlib Require Import Ascii String List Bool Arith ZArith QArith Lia.
From stdpp Require Import base option list strings gmap.

Import ListNotations.
Local Open Scope bool_scope.
Local Open Scope list_scope.

(** ** Texts *)

Abbreviation text := (list ascii).

Definition txt (s : string) : text := list_ascii_of_string s.
Arguments txt : simpl never.

(** * Part I: definitions *)

(** ** Python built-ins used by the program *)

Module Py.

Definition code (c : ascii) : nat := nat_of_ascii c.

Definition between (lo hi : nat) (c : ascii) : bool :=
  (lo <=? code c)%nat && (code c <=? hi)%nat.

Definition is_upper (c : ascii) : bool := between 65 90 c.
Definition is_lower (c : ascii) : bool := between 97 122 c.
Definition is_digit (c : ascii) : bool := between 48 57 c.
Definition is_alpha (c : ascii) : bool := is_upper c || is_lower c.

(** [str.isalnum] on one character. *)
Definition isalnum (c : ascii) : bool := is_alpha c || is_digit c.

(** [str.isspace] on one character: TAB, LF, VT, FF, CR, the four
    separators FS, GS, RS, US, and the space. *)
Definition isspace (c : ascii) : bool :=
  between 9 13 c || between 28 31 c || (code c =? 32)%nat.

Definition lower_char (c : ascii) : ascii :=
  if is_upper c then ascii_of_nat (code c + 32) else c.

Definition upper_char (c : ascii) : ascii :=
  if is_lower c then ascii_of_nat (code c - 32) else c.

(** [s.lower()] *)
Definition lower (s : text) : text := map lower_char s.

(** [s.startswith(p)] *)
Fixpoint startswith (p s : text) : bool :=
  match p, s with
  | [], _ => true
  | _ :: _, [] => false
  | a :: p', b :: s' => Ascii.eqb a b && startswith p' s'
  end.

(** [sub in s] *)
Fixpoint contains (sub s : text) : bool :=
  startswith sub s ||
  match s with
  | [] => false
  | _ :: s' => contains sub s'
  end.

(** [c in chars] for a one-character string [c]. *)
Definition char_in (c : ascii) (chars : text) : bool :=
  existsb (Ascii.eqb c) chars.

(** [s.find(sub)]: the least index at which [sub] occurs; [None]
    stands for the result [-1]. *)
Fixpoint find (sub s : text) : option nat :=
  if startswith sub s then Some 0%nat
  else match s with
       | [] => None
       | _ :: s' => option_map S (find sub s')
       end.

(** [s.replace(old, new)] for a non-empty [old]: the occurrences of
    [old] are found from left to right and do not overlap.  [skip]
    counts the characters of an occurrence still to be dropped. *)
Fixpoint replace_go (old new : text) (skip : nat) (s : text) : text :=
  match s with
  | [] => []
  | c :: s' =>
      match skip with
      | S k => replace_go old new k s'
      | O =>
          if startswith old s
          then new ++ replace_go old new (length old - 1) s'
          else c :: replace_go old new 0 s'
      end
  end.

Definition replace (old new s : text) : text := replace_go old new 0 s.

(** [s.lstrip()], [s.rstrip()], [s.strip()] *)
Fixpoint lstrip (s : text) : text :=
  match s with
  | c :: s' => if isspace c then lstrip s' else s
  | [] => []
  end.

Definition rstrip (s : text) : text := rev (lstrip (rev s)).

Definition strip (s : text) : text := rstrip (lstrip s).

(** [s.split(sep)] for a one-character separator. *)
Fixpoint split (sep : ascii) (s : text) : list text :=
  match s with
  | [] => [[]]
  | c :: s' =>
      if Ascii.eqb c sep then [] :: split sep s'
      else match split sep s' with
           | w :: ws => (c :: w) :: ws
           | [] => [[c]]
           end
  end.

(** [s.capitalize()] *)
Definition capitalize (s : text) : text :=
  match s with
  | [] => []
  | c :: s' => upper_char c :: lower s'
  end.

(** [max(l, key=len)]: the first element of greatest length; [None]
    stands for the [ValueError] raised on an empty list. *)
Fixpoint max_by_len (l : list text) : option text :=
  match l with
  | [] => None
  | x :: l' =>
      match max_by_len l' with
      | Some y => if (length x <? length y)%nat then Some y else Some x
      | None => Some x
      end
  end.

(** Truth value of an [Optional[str]]: [None] and the empty string
    are false. *)
Definition truthy (v : option text) : bool :=
  match v with
  | Some (_ :: _) => true
  | _ => false
  end.

(** [a or b] on [Optional[str]] values. *)
Definition or_else (a b : option text) : option text :=
  if truthy a then a else b.

End Py.

(** ** The fragment of Python's [re] used by the program

    A backtracking matcher with the priorities of [re]: alternatives
    are tried from left to right, repetitions and options are greedy.
    Repetition is only ever applied to a character class in the
    program's patterns, and every pattern has at most one capturing
    group. *)

Module Re.

Inductive regex : Type :=
| Eps
| Chr (p : ascii -> bool)               (* one character of a class *)
| Rep (p : ascii -> bool) (lo : nat)    (* [p{lo,}], greedy *)
| Seq (r1 r2 : regex)
| Alt (r1 r2 : regex)                   (* [r1|r2] *)
| Opt (r : regex)                       (* [r?], greedy *)
| Grp (r : regex)                       (* [(r)], group 1 *)
| Bol                                   (* [^] without MULTILINE *)
| Eol                                   (* [$] without MULTILINE *)
| WordB                                 (* [\b] *)
| NotAhead (r : regex).                 (* [(?!r)] *)

(** Character classes *)
Definition one (c : ascii) : ascii -> bool := Ascii.eqb c.
Definition one_of (s : string) : ascii -> bool :=
  fun c => Py.char_in c (txt s).
Definition any_char : ascii -> bool := fun _ => true.
Definition space : ascii -> bool := Py.isspace.              (* [\s] *)
Definition digit : ascii -> bool := Py.is_digit.             (* [\d] *)
Definition word : ascii -> bool :=                           (* [\w] *)
  fun c => Py.isalnum c || Ascii.eqb c "_"%char.
Definition ci (c : ascii) : ascii -> bool :=      (* under IGNORECASE *)
  fun d => Ascii.eqb (Py.lower_char d) (Py.lower_char c).
Definition orc (p q : ascii -> bool) : ascii -> bool :=
  fun c => p c || q c.
Definition notc (p : ascii -> bool) : ascii -> bool :=
  fun c => negb (p c).

(** A literal string, and a literal under IGNORECASE. *)
Fixpoint lit_of (f : ascii -> ascii -> bool) (s : text) : regex :=
  match s with
  | [] => Eps
  | [c] => Chr (f c)
  | c :: s' => Seq (Chr (f c)) (lit_of f s')
  end.
Definition Lit (s : string) : regex := lit_of one (txt s).
Definition LitCI (s : string) : regex := lit_of ci (txt s).

(** A position in the subject: the character before it ([None] at the
    start) and the text from it on. *)
Definition is_word (c : option ascii) : bool :=
  match c with
  | Some c => word c
  | None => false
  end.

Definition at_eol (s : text) : bool :=
  match s with
  | [] => true
  | [c] => Ascii.eqb c "010"%char
  | _ => false
  end.

Section Matcher.
Context {A : Type}.

(** The continuation receives the position after the match and the
    content of group 1. *)
Definition cont : Type := option ascii -> text -> option text -> option A.

Fixpoint rep_greedy (p : ascii -> bool) (lo n : nat)
    (prev : option ascii) (s : text)
    (k : option ascii -> text -> option A) : option A :=
  let stop := if (lo <=? n)%nat then k prev s else None in
  match s with
  | c :: s' =>
      if p c then
        match rep_greedy p lo (S n) (Some c) s' k with
        | Some a => Some a
        | None => stop
        end
      else stop
  | [] => stop
  end.
End Matcher.

Fixpoint m {A : Type} (r : regex) (prev : option ascii) (s : text)
    (cap : option text) (k : @cont A) {struct r} : option A :=
  match r with
  | Eps => k prev s cap
  | Chr p =>
      match s with
      | c :: s' => if p c then k (Some c) s' cap else None
      | [] => None
      end
  | Rep p lo => rep_greedy p lo 0 prev s (fun prev' s' => k prev' s' cap)
  | Seq r1 r2 =>
      m r1 prev s cap (fun prev' s' cap' => m r2 prev' s' cap' k)
  | Alt r1 r2 =>
      match m r1 prev s cap k with
      | Some a => Some a
      | None => m r2 prev s cap k
      end
  | Opt r1 =>
      match m r1 prev s cap k with
      | Some a => Some a
      | None => k prev s cap
      end
  | Grp r1 =>
      m r1 prev s cap
        (fun prev' s' _ => k prev' s' (Some (take (length s - length s') s)))
  | Bol => match prev with None => k prev s cap | Some _ => None end
  | Eol => if at_eol s then k prev s cap else None
  | WordB =>
      if xorb (is_word prev) (is_word (head s)) then k prev s cap else None
  | NotAhead r1 =>
      match m r1 prev s cap (fun _ _ _ => Some tt) with
      | Some _ => None
      | None => k prev s cap
      end
  end.

(** The result of one match attempt at a position: the text after
    the match and group 1 (the empty string when the group took no
    part, as [findall] reports it). *)
Definition match_at (r : regex) (prev : option ascii) (s : text)
    : option (text * text) :=
  m r prev s None (fun _ s' cap => Some (s', default [] cap)).

(** [re.search(r, s)]: the leftmost match; the result is group 1. *)
Fixpoint search_from (r : regex) (prev : option ascii) (s : text)
    : option text :=
  match match_at r prev s with
  | Some (_, g) => Some g
  | None =>
      match s with
      | c :: s' => search_from r (Some c) s'
      | [] => None
      end
  end.

Definition search (r : regex) (s : text) : option text :=
  search_from r None s.

(** [re.search(r, s)] used as a truth value. *)
Definition found (r : regex) (s : text) : bool :=
  match search r s with Some _ => true | None => false end.

(** [re.search(r, s).group(0)]: the matched text itself. *)
Definition search0 (r : regex) (s : text) : option text :=
  search (Grp r) s.

(** [re.findall(r, s)] for a pattern with one group: group 1 of the
    successive matches, which do not overlap.  [skip] counts the
    characters of the last match still to be passed.  None of the
    program's patterns matches the empty string. *)
Fixpoint findall_go (r : regex) (skip : nat) (prev : option ascii)
    (s : text) : list text :=
  match skip with
  | S k =>
      match s with
      | c :: s' => findall_go r k (Some c) s'
      | [] => []
      end
  | O =>
      match match_at r prev s with
      | Some (rest, g) =>
          g :: match s with
               | c :: s' =>
                   findall_go r (length s - length rest - 1) (Some c) s'
               | [] => []
               end
      | None =>
          match s with
          | c :: s' => findall_go r 0 (Some c) s'
          | [] => []
          end
      end
  end.

Definition findall (r : regex) (s : text) : list text :=
  findall_go r 0 None s.

End Re.

(** ** Python values, floats and exceptions *)

Set Warnings "-register-all".

Module PyVal.

(** A Python [float]: the rational it stands for, an infinity
    ([FInf true] is [-inf]) or NaN. *)
Inductive pyfloat : Type :=
| FFin (q : Q)
| FInf (neg : bool)
| FNan.

(** The values that [json.loads] produces. *)
Inductive value : Type :=
| VNone
| VBool (b : bool)
| VInt (z : Z)
| VFloat (f : pyfloat)
| VStr (s : text)
| VList (l : list value)
| VDict (d : list (text * value)).

(** The classes of the exceptions that the program tells apart;
    [JSONDecodeError] is a subclass of [ValueError]. *)
Inductive exn_kind : Type :=
| ValueError | JSONDecodeError | TypeError | OverflowError | IndexError
| OtherError.

(** An exception: its class and [str(e)]. *)
Record exn : Type := Exn { kind : exn_kind; exn_str : text }.

Inductive result (A : Type) : Type :=
| Ok (a : A)
| Raise (e : exn).
Arguments Ok {A} a.
Arguments Raise {A} e.

(** *** [float(s)] on a string

    The argument is stripped of C white space, single underscores
    between digits are removed, and what is left must be a signed
    decimal literal with an optional exponent, or [inf], [infinity]
    or [nan] in any case. *)

Definition is_c_space (c : ascii) : bool :=
  Py.between 9 13 c || (Py.code c =? 32)%nat.

Fixpoint lstrip_c (s : text) : text :=
  match s with
  | c :: s' => if is_c_space c then lstrip_c s' else s
  | [] => []
  end.

Definition strip_c (s : text) : text := rev (lstrip_c (rev (lstrip_c s))).

(** Underscores are allowed only between two digits. *)
Fixpoint drop_underscores (prev : option ascii) (s : text) : option text :=
  match s with
  | [] =>
      if bool_decide (prev = Some "_"%char) then None else Some []
  | c :: s' =>
      if Ascii.eqb c "_"%char then
        match prev with
        | Some d => if Py.is_digit d then drop_underscores (Some c) s' else None
        | None => None
        end
      else if bool_decide (prev = Some "_"%char) && negb (Py.is_digit c)
      then None
      else option_map (cons c) (drop_underscores (Some c) s')
  end.

Definition digit_val (c : ascii) : Z := Z.of_nat (Py.code c - 48).

(** The number written by a run of decimal digits. *)
Definition digits_val (ds : text) : Z :=
  fold_left (fun acc c => 10 * acc + digit_val c)%Z ds 0%Z.

Fixpoint span_digits (s : text) : text * text :=
  match s with
  | c :: s' =>
      if Py.is_digit c
      then let '(ds, r) := span_digits s' in (c :: ds, r)
      else ([], s)
  | [] => ([], [])
  end.

Definition take_sign (s : text) : bool * text :=
  match s with
  | c :: s' =>
      if Ascii.eqb c "-"%char then (true, s')
      else if Ascii.eqb c "+"%char then (false, s')
      else (false, s)
  | [] => (false, [])
  end.

(** [m * 10^e] as a reduced fraction. *)
Definition scale10 (m e : Z) : Q :=
  if (0 <=? e)%Z then inject_Z (m * 10 ^ e)
  else Qred (Qmake m (Z.to_pos (10 ^ (- e)))).

Definition signed (neg : bool) (z : Z) : Z := if neg then (- z)%Z else z.

(** The exponent part: [[eE][+-]?\d+] up to the end. *)
Definition parse_exponent (s : text) : option Z :=
  match s with
  | [] => Some 0%Z
  | c :: s' =>
      if Ascii.eqb (Py.lower_char c) "e"%char then
        let '(neg, s'') := take_sign s' in
        let '(ds, r) := span_digits s'' in
        match ds, r with
        | _ :: _, [] => Some (signed neg (digits_val ds))
        | _, _ => None
        end
      else None
  end.

Definition parse_decimal (neg : bool) (s : text) : option pyfloat :=
  let '(ip, r1) := span_digits s in
  let '(fp, r2) :=
    match r1 with
    | c :: r1' => if Ascii.eqb c "."%char then span_digits r1' else ([], r1)
    | [] => ([], [])
    end in
  match ip ++ fp with
  | [] => None
  | _ :: _ =>
      match parse_exponent r2 with
      | Some e =>
          Some (FFin (scale10 (signed neg (digits_val (ip ++ fp)))
                              (e - Z.of_nat (length fp))))
      | None => None
      end
  end.

Definition float_of_str (s : text) : option pyfloat :=
  match drop_underscores None (strip_c s) with
  | None => None
  | Some s1 =>
      let '(neg, s2) := take_sign s1 in
      let l := Py.lower s2 in
      if bool_decide (l = txt "inf") || bool_decide (l = txt "infinity")
      then Some (FInf neg)
      else if bool_decide (l = txt "nan") then Some FNan
      else parse_decimal neg s2
  end.

(** An [int] of this magnitude or more has no [float]. *)
Definition float_int_bound : Z := (2 ^ 1024 - 2 ^ 970)%Z.

(** [float(v)] *)
Definition float (v : value) : result pyfloat :=
  match v with
  | VBool b => Ok (FFin (if b then 1 else 0))
  | VInt z =>
      if (Z.abs z <? float_int_bound)%Z then Ok (FFin (inject_Z z))
      else Raise (Exn OverflowError (txt "int too large to convert to float"))
  | VFloat f => Ok f
  | VStr s =>
      match float_of_str s with
      | Some f => Ok f
      | None => Raise (Exn ValueError (txt "could not convert string to float"))
      end
  | VNone | VList _ | VDict _ =>
      Raise (Exn TypeError
               (txt "float() argument must be a string or a real number"))
  end.

End PyVal.

Export PyVal.

(** ** Exceptions, logging and calls to the outside

    A computation of the program takes the state of the object it
    works on, appends to the trace of what it logged and what it asked
    of the outside, and returns or raises. *)

Module Eff.

Inductive level : Type := DEBUG | INFO | WARNING | ERROR.

(** What [_send_email_to_candidate] hands to [EmailMessage] and
    [smtplib]. *)
Record SmtpJob : Type := {
  job_server : text;
  job_port : text;
  job_username : text;
  job_password : text;
  job_subject : text;
  job_from : text;
  job_to : text;
  job_content : text
}.

Inductive smtp_step : Type :=
| Compose        (* filling the [EmailMessage] *)
| Connect        (* [smtplib.SMTP(server_addr, int(port))] *)
| StartTLS
| Login
| SendMessage.

Inductive effect : Type :=
| Log (l : level) (msg : text)
| LlmInvoke (prompt : text)
| ChainInvoke (messages : list (text * text)) (input : text)
| SmtpDialogue (step : smtp_step) (job : SmtpJob).

(** Pure code that may raise. *)
Definition rbind {A B : Type} (c : result A) (k : A -> result B) : result B :=
  match c with
  | Ok a => k a
  | Raise e => Raise e
  end.

Definition M (S A : Type) : Type := S -> list effect * S * result A.

Definition ret {S A : Type} (a : A) : M S A := fun s => ([], s, Ok a).

Definition raise {S A : Type} (e : exn) : M S A := fun s => ([], s, Raise e).

Definition bind {S A B : Type} (c : M S A) (k : A -> M S B) : M S B :=
  fun s =>
    let '(t1, s1, r) := c s in
    match r with
    | Ok a => let '(t2, s2, r2) := k a s1 in (t1 ++ t2, s2, r2)
    | Raise e => (t1, s1, Raise e)
    end.

(** [try: c  except Exception as e: h e] *)
Definition try_except {S A : Type} (c : M S A) (h : exn -> M S A) : M S A :=
  fun s =>
    let '(t1, s1, r) := c s in
    match r with
    | Ok a => (t1, s1, Ok a)
    | Raise e => let '(t2, s2, r2) := h e s1 in (t1 ++ t2, s2, r2)
    end.

Definition emit {S : Type} (e : effect) : M S unit := fun s => ([e], s, Ok tt).

Definition log {S : Type} (l : level) (msg : text) : M S unit :=
  emit (Log l msg).

Definition lift {S A : Type} (r : result A) : M S A := fun s => ([], s, r).

Definition get {S : Type} : M S S := fun s => ([], s, Ok s).

Definition put {S : Type} (s : S) : M S unit := fun _ => ([], s, Ok tt).

(** [text[i]] *)
Definition index (s : text) (i : nat) : result ascii :=
  match nth_error s i with
  | Some c => Ok c
  | None => Raise (Exn IndexError (txt "string index out of range"))
  end.

(** [l[-1]] *)
Definition last_item {A : Type} (l : list A) : result A :=
  match last l with
  | Some a => Ok a
  | None => Raise (Exn IndexError (txt "list index out of range"))
  end.

(** [max(l, key=len)] *)
Definition max_len (l : list text) : result text :=
  match Py.max_by_len l with
  | Some m => Ok m
  | None => Raise (Exn ValueError (txt "max() arg is an empty sequence"))
  end.

(** [[x for x in l if p x]] where [p] may raise. *)
Fixpoint filter_r {A : Type} (p : A -> result bool) (l : list A)
    : result (list A) :=
  match l with
  | [] => Ok []
  | x :: l' =>
      rbind (p x) (fun b =>
      rbind (filter_r p l') (fun r =>
      Ok (if b then x :: r else r)))
  end.

End Eff.

Export Eff.

Declare Scope eff_scope.
Delimit Scope eff_scope with eff.
Notation "'let*' x ':=' c 'in' k" := (bind c (fun x => k))
  (at level 10, x name, c at level 100, k at level 200) : eff_scope.
Notation "'do' c 'then' k" := (bind c (fun _ => k))
  (at level 10, c at level 100, k at level 200) : eff_scope.
Notation "'let?' x ':=' c 'in' k" := (rbind c (fun x => k))
  (at level 10, x name, c at level 100, k at level 200) : eff_scope.
Notation "r1 ~> r2" := (Re.Seq r1 r2)
  (at level 56, right associativity) : eff_scope.
Local Open Scope eff_scope.

(** ** [config.py] *)

Module config.
Section Load.
(** The process environment once [load_dotenv()] has run. *)
Variable environ : string -> option text.

Definition DEEPSEEK_API_KEY : option text := environ "DEEPSEEK_API_KEY"%string.
Definition GEMINI_API_KEY : option text := environ "GEMINI_API_KEY"%string.
Definition EMAIL_SERVER : option text := environ "EMAIL_SERVER"%string.
Definition EMAIL_USERNAME : option text := environ "EMAIL_USERNAME"%string.
Definition EMAIL_PASSWORD : option text := environ "EMAIL_PASSWORD"%string.
Definition EMAIL_PORT : option text := environ "EMAIL_PORT"%string.
Definition ADMIN_USERNAME : option text := environ "ADMIN_USERNAME"%string.
Definition ADMIN_PASSWORD : option text := environ "ADMIN_PASSWORD"%string.

(** [os.getenv] after the module has run: a Gemini key is also
    published as [GOOGLE_API_KEY]. *)
Definition getenv (name : string) : option text :=
  if bool_decide (name = "GOOGLE_API_KEY"%string) && Py.truthy GEMINI_API_KEY
  then GEMINI_API_KEY
  else environ name.
End Load.
End config.

(** ** [utils/logger.py] *)

Module logger.

Definition secret_variables : list string :=
  [ "GEMINI_API_KEY"; "GOOGLE_API_KEY"; "DEEPSEEK_API_KEY";
    "OPENAI_API_KEY"; "EMAIL_PASSWORD"; "IMAP_PASSWORD";
    "ADMIN_PASSWORD" ]%string.

(** [key[:4] + "***" + key[-4:] if len(key) > 8 else "***"] *)
Definition masked (key : text) : text :=
  if (8 <? length key)%nat
  then take 4 key ++ txt "***" ++ drop (length key - 4) key
  else txt "***".

Definition mask_key (sanitized key : text) : text :=
  if Py.truthy (Some key) && (4 <? length key)%nat
  then Py.replace key (masked key) sanitized
  else sanitized.

Section Sanitize.
Variable getenv : string -> option text.

(** The values of the secret variables that are set and not empty. *)
Definition env_secrets : list text :=
  omap (fun name =>
          let value := getenv name in
          if Py.truthy value then value else None)
       secret_variables.

Definition sanitize_error_message (error_msg : text)
    (sensitive_keys : option (list text)) : text :=
  let sensitive_keys :=
    match sensitive_keys with
    | None => env_secrets
    | Some keys => keys
    end in
  fold_left mask_key sensitive_keys error_msg.
End Sanitize.

End logger.

(** ** [agents/resume_analysis_agent.py] *)

Module resume_analysis_agent.

(** A constructed client: [ChatGoogleGenerativeAI] or [ChatOpenAI]. *)
Inductive model : Type := Gemini | DeepSeek.

Definition no_provider : exn :=
  Exn ValueError
    (txt "No available LLM API keys found. Please set GEMINI_API_KEY or DEEPSEEK_API_KEY in .env file").

Section Providers.
Variable environ : string -> option text.
(** Whether [langchain_google_genai] could be imported. *)
Variable GEMINI_AVAILABLE : bool.
(** The outcome of constructing each client. *)
Variable new_model : model -> result unit.

Definition try_gemini {S : Type} : M S (option model) :=
  if GEMINI_AVAILABLE && Py.truthy (config.GEMINI_API_KEY environ) then
    try_except
      (do lift (new_model Gemini) then
       do log INFO (txt "Using Gemini model") then
       ret (Some Gemini))
      (fun e =>
         let error_msg :=
           logger.sanitize_error_message (config.getenv environ)
             (exn_str e) None in
         do log WARNING (txt "Failed to initialize Gemini: " ++ error_msg) then
         ret None)
  else ret None.

Definition try_deepseek {S : Type} : M S (option model) :=
  if Py.truthy (config.DEEPSEEK_API_KEY environ) then
    try_except
      (do lift (new_model DeepSeek) then
       do log INFO (txt "Using DeepSeek model (fallback)") then
       ret (Some DeepSeek))
      (fun e =>
         do log WARNING (txt "Failed to initialize DeepSeek: " ++ exn_str e) then
         ret None)
  else ret None.

Definition get_llm_model {S : Type} : M S model :=
  let* first := try_gemini in
  match first with
  | Some m => ret m
  | None =>
      let* second := try_deepseek in
      match second with
      | Some m => ret m
      | None => raise no_provider
      end
  end.
End Providers.

(** *** [extract_email_from_text] *)

Definition dquote : ascii := ascii_of_nat 34.

(** The class of the characters that may stand around an address:
    white space, and [,;:()[]{}'<>] with the double quote. *)
Definition delimiter : ascii -> bool :=
  Re.orc Re.space (Re.orc (Re.one_of ",;:()[]{}'<>") (Re.one dquote)).

(** [[A-Za-z0-9]], [[A-Za-z0-9._%+-]], [[A-Za-z0-9.-]], [[A-Z|a-z]] *)
Definition alnum : ascii -> bool := Py.isalnum.
Definition local_char : ascii -> bool := Re.orc Py.isalnum (Re.one_of "._%+-").
Definition domain_char : ascii -> bool := Re.orc Py.isalnum (Re.one_of ".-").
Definition tld_char : ascii -> bool := Re.orc Py.is_alpha (Re.one "|").

(** [[A-Za-z0-9][A-Za-z0-9._%+-]{2,}@[A-Za-z0-9][A-Za-z0-9.-]{1,}\.[A-Z|a-z]{2,}] *)
Definition address : Re.regex :=
  Re.Chr alnum ~> Re.Rep local_char 2 ~> Re.Chr (Re.one "@") ~>
  Re.Chr alnum ~> Re.Rep domain_char 1 ~> Re.Chr (Re.one ".") ~>
  Re.Rep tld_char 2.

(** [(?:^|[delimiter])(address)(?:[delimiter]|$)] *)
Definition email_pattern : Re.regex :=
  Re.Alt Re.Bol (Re.Chr delimiter) ~> Re.Grp address ~>
  Re.Alt (Re.Chr delimiter) Re.Eol.

(** [\b address \b]; [findall] reports the whole match. *)
Definition email_pattern_simple : Re.regex :=
  Re.Grp (Re.WordB ~> address ~> Re.WordB).

Definition clean (text : list ascii) : list ascii :=
  let text := Py.replace (txt "Email:") [] text in
  let text := Py.replace (txt "email:") [] text in
  let text := Py.replace (txt "E-mail:") [] text in
  let text := Py.replace (txt "Contact:") [] text in
  Py.replace (txt "contact:") [] text.

Definition surrounded (c : ascii) : bool :=
  Py.isalnum c && negb (Py.char_in c (txt "@.")).

(** The body of the loop over [matches_simple]: whether [match] is
    appended to [valid_emails]. *)
Definition is_valid (text match_ : list ascii) : result bool :=
  match Py.split "@" match_ with
  | [local; domain] =>
      if (2 <=? length local)%nat then
        if Py.contains (txt ".") domain then
          let? label := last_item (Py.split "." domain) in
          if (2 <=? length label)%nat then
            match Py.find match_ text with
            | Some email_start =>
                let? char_before :=
                  if (0 <? email_start)%nat
                  then index text (email_start - 1)
                  else Ok " "%char in
                let? char_after :=
                  if (email_start + length match_ <? length text)%nat
                  then index text (email_start + length match_)
                  else Ok " "%char in
                Ok (negb (surrounded char_before) &&
                    negb (surrounded char_after))
            | None => Ok false
            end
          else Ok false
        else Ok false
      else Ok false
  | _ => Ok false
  end.

Definition extract_email_from_text (text : list ascii)
    : result (option (list ascii)) :=
  let text := clean text in
  let matches := Re.findall email_pattern text in
  match matches with
  | _ :: _ =>
      let? longest := max_len matches in
      Ok (Some (Py.strip longest))
  | [] =>
      let matches_simple := Re.findall email_pattern_simple text in
      match matches_simple with
      | _ :: _ =>
          let? valid_emails := filter_r (is_valid text) matches_simple in
          match valid_emails with
          | _ :: _ =>
              let? longest := max_len valid_emails in
              Ok (Some longest)
          | [] => Ok None
          end
      | [] => Ok None
      end
  end.

(** *** [extract_analysis_manually] *)

Abbreviation dict := (gmap string value).

(** [(\d+(?:\.\d+)?)\s*%] *)
Definition percentage : Re.regex :=
  Re.Grp (Re.Rep Re.digit 1 ~> Re.Opt (Re.Chr (Re.one ".") ~> Re.Rep Re.digit 1))
  ~> Re.Rep Re.space 0 ~> Re.Chr (Re.one "%").

Definition mid (tail : string) : Re.regex :=
  Re.Chr (Re.one_of "Mm") ~> Re.Lit "id" ~> Re.Opt (Re.Chr (Re.one_of "- ")) ~>
  Re.Lit tail.

(** The dictionary [level_patterns], in the order it is written. *)
Definition level_patterns : list (string * Re.regex) :=
  [ ("Junior"%string, Re.Chr (Re.one_of "Jj") ~> Re.Lit "unior");
    ("Mid-level"%string, Re.Alt (mid "level") (mid "senior"));
    ("Senior"%string,
       Re.Chr (Re.one_of "Ss") ~> Re.Lit "enior" ~>
       Re.NotAhead (Re.Rep Re.space 1 ~> Re.Lit "level"));
    ("Lead"%string,
       Re.Alt (Re.Chr (Re.one_of "Ll") ~> Re.Lit "ead")
              (Re.Chr (Re.one_of "Ll") ~> Re.Lit "eader"));
    ("Executive"%string, Re.Chr (Re.one_of "Ee") ~> Re.Lit "xecutive") ].

Definition high : Re.regex := Re.Chr (Re.one_of "Hh") ~> Re.Lit "igh".
Definition medium : Re.regex := Re.Chr (Re.one_of "Mm") ~> Re.Lit "edium".
Definition low : Re.regex := Re.Chr (Re.one_of "Ll") ~> Re.Lit "ow".

Definition float_text (s : text) : result pyfloat := float (VStr s).

(** The loop over [level_patterns.items()], left at the first match. *)
Fixpoint set_level (patterns : list (string * Re.regex))
    (response_text : text) (result : dict) : dict :=
  match patterns with
  | [] => result
  | (level, pattern) :: rest =>
      if Re.found pattern response_text
      then <["position_level"%string := VStr (txt level)]> result
      else set_level rest response_text result
  end.

Definition extract_analysis_manually (response_text : text) : result dict :=
  let result : dict :=
    <["match_percentage"%string := VFloat (FFin 0)]>
    (<["position_level"%string := VStr (txt "Unknown")]>
    (<["acceptance_probability"%string := VStr (txt "Unknown")]>
    (<["acceptance_reasoning"%string := VStr []]>
    (<["key_strengths"%string := VList []]>
    (<["key_gaps"%string := VList []]>
    (<["detailed_analysis"%string := VStr response_text]>
    (<["recommendation"%string := VStr []]> ∅))))))) in
  let? result :=
    match Re.search percentage response_text with
    | Some group1 =>
        let? f := float_text group1 in
        Ok (<["match_percentage"%string := VFloat f]> result)
    | None => Ok result
    end in
  let result := set_level level_patterns response_text result in
  let result :=
    if Re.found high response_text then
      <["acceptance_probability"%string := VStr (txt "High")]> result
    else if Re.found medium response_text then
      <["acceptance_probability"%string := VStr (txt "Medium")]> result
    else if Re.found low response_text then
      <["acceptance_probability"%string := VStr (txt "Low")]> result
    else result in
  Ok result.

(** *** [analyze_resume] *)

(** [\{.*\}] under DOTALL *)
Definition json_block : Re.regex :=
  Re.Chr (Re.one "{") ~> Re.Rep Re.any_char 0 ~> Re.Chr (Re.one "}").

Section Analyze.
Variable environ : string -> option text.
Variable GEMINI_AVAILABLE : bool.
Variable new_model : model -> result unit.
(** [model.invoke(prompt)], reduced to the text of the response. *)
Variable invoke : model -> text -> result text.
(** [json.loads] on a text that starts with a brace: the decoded
    object, or the exception it raises, a [JSONDecodeError] for a text
    that is not JSON, another one otherwise (a [ValueError] for an
    integer with more digits than the interpreter converts, a
    [RecursionError] for a nesting too deep). *)
Variable json_loads : text -> result dict.
(** [str] of a list or of a dictionary. *)
Variable repr : value -> text.
(** [prompt_template.format(resume=.., job_description=..)] *)
Variable format_prompt : text -> text -> text.

(** [str(v)] *)
Definition str (v : value) : text :=
  match v with
  | VStr s => s
  | VNone => txt "None"
  | VBool true => txt "True"
  | VBool false => txt "False"
  | _ => repr v
  end.

(** Lines 186-200: from the response to [analysis_result]. *)
Definition parse_response {S : Type} (response_text : text) : M S dict :=
  match Re.search0 json_block response_text with
  | Some json_str =>
      match json_loads json_str with
      | Ok analysis_result => ret analysis_result
      | Raise e =>
          match kind e with
          | JSONDecodeError =>
              do log WARNING (txt "Failed to parse JSON response, extracting manually") then
              lift (extract_analysis_manually response_text)
          | _ => raise e
          end
      end
  | None =>
      do log WARNING (txt "No JSON found in response, extracting manually") then
      lift (extract_analysis_manually response_text)
  end.

(** Lines 207-215: the value stored back under [match_percentage].
    The handler is for [(ValueError, TypeError)], which takes the
    subclasses of [ValueError] with it. *)
Definition to_percentage (v : value) : result pyfloat :=
  match float v with
  | Ok f => Ok f
  | Raise e =>
      match kind e with
      | ValueError | JSONDecodeError | TypeError =>
          match Re.search percentage (str v) with
          | Some group1 => float_text group1
          | None => Ok (FFin 0)
          end
      | _ => Raise e
      end
  end.

(** Lines 205-215. *)
Definition normalize (analysis_result : dict) : result dict :=
  match analysis_result !! "match_percentage"%string with
  | Some v =>
      let? f := to_percentage v in
      Ok (<["match_percentage"%string := VFloat f]> analysis_result)
  | None => Ok analysis_result
  end.

Definition email_value (email : option text) : value :=
  match email with
  | Some e => VStr e
  | None => VNone
  end.

Definition analyze_resume {S : Type} (resume_text job_description_text : text)
    : M S dict :=
  let* email := lift (extract_email_from_text resume_text) in
  let prompt := format_prompt resume_text job_description_text in
  try_except
    (let* model := get_llm_model environ GEMINI_AVAILABLE new_model in
     let* response_text := lift (invoke model prompt) in
     let* analysis_result := parse_response response_text in
     let analysis_result :=
       <["email"%string := email_value email]> analysis_result in
     lift (normalize analysis_result))
    (fun e =>
       let error_msg :=
         logger.sanitize_error_message (config.getenv environ)
           (exn_str e) None in
       do log ERROR (txt "Error during resume analysis: " ++ error_msg) then
       raise (Exn ValueError (txt "Failed to analyze resume: " ++ error_msg))).
End Analyze.

End resume_analysis_agent.

(** ** [agents/hr_conversational_agent.py] *)

Module hr_conversational_agent.

Import resume_analysis_agent (model, Gemini, DeepSeek, dict, no_provider).

Definition nl : text := [ascii_of_nat 10].

(** The messages of a [ChatMessageHistory]. *)
Inductive message : Type :=
| SystemMessage (content : text)
| HumanMessage (content : text)
| AIMessage (content : text).

Definition is_system (msg : message) : bool :=
  match msg with
  | SystemMessage _ => true
  | _ => false
  end.

Definition content_of (msg : message) : text :=
  match msg with
  | SystemMessage c | HumanMessage c | AIMessage c => c
  end.

(** The dictionary kept in [self.generated_email]. *)
Record Draft : Type := {
  subject : text;
  body : text;
  to : text
}.

(** The attributes of an [HRConversationalAgent]; [generated_email]
    is [None] as long as the attribute does not exist. *)
Record Agent : Type := {
  resume_data : dict;
  job_description_text : text;
  candidate_email : text;
  hr_name : text;
  llm : model;
  message_history : list message;
  generated_email : option Draft
}.

Definition set_history (h : list message) (a : Agent) : Agent :=
  {| resume_data := resume_data a;
     job_description_text := job_description_text a;
     candidate_email := candidate_email a;
     hr_name := hr_name a;
     llm := llm a;
     message_history := h;
     generated_email := generated_email a |}.

Definition set_generated_email (d : Draft) (a : Agent) : Agent :=
  {| resume_data := resume_data a;
     job_description_text := job_description_text a;
     candidate_email := candidate_email a;
     hr_name := hr_name a;
     llm := llm a;
     message_history := message_history a;
     generated_email := Some d |}.

(** [self.message_history.add_message(msg)] *)
Definition add_message (msg : message) : M Agent unit :=
  fun a => ([], set_history (message_history a ++ [msg]) a, Ok tt).

(** What a call of the agent meets outside the program. *)
Record World : Type := {
  environ : string -> option text;
  GEMINI_AVAILABLE : bool;
  new_model : model -> result unit;
  (** [self.llm.invoke(prompt)], reduced to the text of the response *)
  llm_invoke : text -> result text;
  (** [(ChatPromptTemplate.from_messages(messages) | self.llm).invoke] *)
  chain_invoke : list (text * text) -> text -> result text;
  (** one step of the SMTP dialogue *)
  smtp : smtp_step -> SmtpJob -> result unit;
  (** the [QUIT] that [SMTP.__exit__] sends when the [with] block is
      left *)
  smtp_quit : SmtpJob -> result unit
}.

Definition first_item {A : Type} (l : list A) : result A :=
  match l with
  | x :: _ => Ok x
  | [] => Raise (Exn IndexError (txt "list index out of range"))
  end.

Section Agent.
Variable w : World.
(** The three texts the class assembles with f-strings and with a
    helper of [utils/formatter.py]; their wording plays no part in
    what follows.  Joining the strengths raises on a value that is
    not a list of strings. *)
Variable system_prompt : dict -> text -> text -> result text.
Variable email_prompt : dict -> text -> text -> result text.
Variable format_email : text -> text -> text -> text -> text.

Definition try_gemini {S : Type} : M S (option model) :=
  if GEMINI_AVAILABLE w && Py.truthy (config.GEMINI_API_KEY (environ w)) then
    try_except
      (do lift (new_model w Gemini) then
       do log INFO (txt "Using Gemini model for HR agent") then
       ret (Some Gemini))
      (fun e =>
         let error_msg :=
           logger.sanitize_error_message (config.getenv (environ w))
             (exn_str e) None in
         do log WARNING (txt "Failed to initialize Gemini: " ++ error_msg) then
         ret None)
  else ret None.

Definition try_deepseek {S : Type} : M S (option model) :=
  if Py.truthy (config.DEEPSEEK_API_KEY (environ w)) then
    try_except
      (do lift (new_model w DeepSeek) then
       do log INFO (txt "Using DeepSeek model for HR agent (fallback)") then
       ret (Some DeepSeek))
      (fun e =>
         do log WARNING (txt "Failed to initialize DeepSeek: " ++ exn_str e) then
         ret None)
  else ret None.

Definition get_llm_model {S : Type} : M S model :=
  let* first := try_gemini in
  match first with
  | Some m => ret m
  | None =>
      let* second := try_deepseek in
      match second with
      | Some m => ret m
      | None => raise no_provider
      end
  end.

Definition _initialize_context : M Agent unit :=
  let* self := get in
  let* prompt :=
    lift (system_prompt (resume_data self) (job_description_text self)
            (candidate_email self)) in
  add_message (SystemMessage prompt).

(** [HRConversationalAgent(resume_data, job_description_text,
    candidate_email, hr_name)] *)
Definition __init__ {S : Type} (resume_data : dict)
    (job_description_text candidate_email hr_name : text) : M S Agent :=
  let* llm := get_llm_model in
  let self :=
    {| resume_data := resume_data;
       job_description_text := job_description_text;
       candidate_email := candidate_email;
       hr_name := hr_name;
       llm := llm;
       message_history := [];
       generated_email := None |} in
  fun s =>
    let '(t, self', r) := _initialize_context self in
    (t, s, match r with Ok _ => Ok self' | Raise e => Raise e end).

Definition email_keywords : list text :=
  map txt [ "prepare email"; "create email"; "write email"; "draft email";
            "generate email"; "compose email"; "make email";
            "email to candidate" ]%string.

Definition send_keywords : list text :=
  map txt [ "send email"; "send it"; "send the email"; "send now";
            "dispatch email"; "email send" ]%string.

Definition _is_email_request (query : text) : bool :=
  let query_lower := Py.lower query in
  existsb (fun keyword => Py.contains keyword query_lower) email_keywords.

Definition _is_send_request (query : text) : bool :=
  let query_lower := Py.lower query in
  existsb (fun keyword => Py.contains keyword query_lower) send_keywords.

Definition _extract_candidate_name : M Agent text :=
  let* self := get in
  if Py.contains (txt "@") (candidate_email self) then
    let* name_part := lift (first_item (Py.split "@" (candidate_email self))) in
    let* first := lift (first_item (Py.split "." name_part)) in
    ret (Py.capitalize first)
  else ret (txt "Candidate").

(** [subject[:\s]+([^\n]+)] under IGNORECASE *)
Definition subject_pattern : Re.regex :=
  Re.LitCI "subject" ~> Re.Rep (Re.orc (Re.one ":") Re.space) 1 ~>
  Re.Grp (Re.Rep (Re.notc (Re.one (ascii_of_nat 10))) 1).

Definition _generate_email (query : text) : M Agent text :=
  let* self := get in
  let subject :=
    match Re.search subject_pattern query with
    | Some group1 => Py.strip group1
    | None => txt "Regarding Your Application"
    end in
  let* prompt :=
    lift (email_prompt (resume_data self) (job_description_text self) query) in
  do emit (LlmInvoke prompt) then
  let* email_body := lift (llm_invoke w prompt) in
  do put (set_generated_email
            {| subject := subject;
               body := Py.strip email_body;
               to := candidate_email self |} self) then
  let* sender_name := _extract_candidate_name in
  let formatted :=
    format_email subject sender_name (Py.strip email_body) (hr_name self) in
  ret (txt "Email generated successfully!" ++ nl ++ nl ++ formatted ++
       nl ++ nl ++
       txt "Say 'send email' or 'send it' to send this email to " ++
       candidate_email self ++ txt ".").

Definition smtp_do (step : smtp_step) (job : SmtpJob) : M Agent unit :=
  do emit (SmtpDialogue step job) then lift (smtp w step job).

(** [with server: body]: the block is left through [__exit__],
    whether [body] returns or raises; an exception of [__exit__]
    takes the place of the outcome of [body]. *)
Definition with_server {A : Type} (job : SmtpJob) (body : M Agent A)
    : M Agent A :=
  fun s =>
    let '(t, s1, r) := body s in
    match smtp_quit w job with
    | Ok _ => (t, s1, r)
    | Raise e => (t, s1, Raise e)
    end.

Definition _send_email_to_candidate (subject body recipient_email : text)
    (smtp_username smtp_password smtp_server smtp_port : option text)
    : M Agent bool :=
  try_except
    (let username := Py.or_else smtp_username (config.EMAIL_USERNAME (environ w)) in
     let password := Py.or_else smtp_password (config.EMAIL_PASSWORD (environ w)) in
     let server_addr := Py.or_else smtp_server (config.EMAIL_SERVER (environ w)) in
     let port := Py.or_else smtp_port (config.EMAIL_PORT (environ w)) in
     if negb (forallb Py.truthy [username; password; server_addr; port]) then
       do log ERROR (txt "Missing email credentials") then
       ret false
     else
       let username := default [] username in
       let password := default [] password in
       let server_addr := default [] server_addr in
       let port := default [] port in
       let* candidate_name := _extract_candidate_name in
       let formatted_content := Py.strip body in
       let job :=
         {| job_server := server_addr; job_port := port;
            job_username := username; job_password := password;
            job_subject := subject; job_from := username;
            job_to := recipient_email; job_content := formatted_content |} in
       do smtp_do Compose job then
       do log DEBUG (txt "Connecting to SMTP server " ++ server_addr ++
                     txt ":" ++ port) then
       do smtp_do Connect job then
       do with_server job
            (do log DEBUG (txt "Starting TLS...") then
             do smtp_do StartTLS job then
             do log DEBUG (txt "Logging in as " ++ username) then
             do smtp_do Login job then
             do log DEBUG (txt "Sending email to " ++ recipient_email) then
             do smtp_do SendMessage job then
             log INFO (txt "Email sent successfully to " ++ recipient_email)) then
       ret true)
    (fun e =>
       do log ERROR (txt "Failed to send email to candidate: " ++ exn_str e) then
       ret false).

Definition nothing_to_send : text :=
  txt "No email has been generated yet. Please generate an email first by saying 'prepare email' or 'create email'.".

Definition _handle_send_request
    (smtp_username smtp_password smtp_server smtp_port : option text)
    : M Agent text :=
  let* self := get in
  match generated_email self with
  | None => ret nothing_to_send
  | Some generated_email =>
      try_except
        (let* success :=
           _send_email_to_candidate (subject generated_email)
             (body generated_email) (candidate_email self)
             smtp_username smtp_password smtp_server smtp_port in
         if success : bool then
           ret (txt "✅ Email sent successfully to " ++
                candidate_email self ++ txt "!")
         else
           ret (txt "❌ Failed to send email to " ++ candidate_email self ++
                txt ". Please check your email configuration."))
        (fun e =>
           do log ERROR (txt "Error sending email: " ++ exn_str e) then
           ret (txt "❌ Error sending email: " ++ exn_str e))
  end.

Definition role_of (msg : message) : option (text * text) :=
  match msg with
  | HumanMessage c => Some (txt "human", c)
  | AIMessage c => Some (txt "ai", c)
  | SystemMessage _ => None
  end.

(** The system entry put at the head of [messages_list]. *)
Definition system_entry (history : list message) : list (text * text) :=
  match filter (fun msg => is_system msg = true) history with
  | msg :: _ => [(txt "system", content_of msg)]
  | [] => []
  end.

(** Lines 168-214 of [chat]: a regular query. *)
Definition regular_query (query : text) : M Agent text :=
  let* self := get in
  let* head :=
    match filter (fun msg => is_system msg = true) (message_history self) with
    | _ :: _ => ret (system_entry (message_history self))
    | [] =>
        do _initialize_context then
        let* self := get in
        ret (system_entry (message_history self))
    end in
  let* self := get in
  let conversation_msgs :=
    filter (fun msg => is_system msg = false) (message_history self) in
  let messages_list :=
    head ++ omap role_of conversation_msgs ++ [(txt "human", txt "{input}")] in
  let user_query := query in
  do emit (ChainInvoke messages_list user_query) then
  let* response_text := lift (chain_invoke w messages_list user_query) in
  do add_message (HumanMessage user_query) then
  do add_message (AIMessage response_text) then
  ret response_text.

Definition chat (query : text)
    (smtp_username smtp_password smtp_server smtp_port : option text)
    : M Agent text :=
  if _is_email_request query then
    _generate_email query
  else if _is_send_request query then
    _handle_send_request smtp_username smtp_password smtp_server smtp_port
  else
    regular_query query.

(** The branch of [chat] a query takes. *)
Inductive intent : Type := GenerateEmail | SendEmail | Query.

Definition classify (query : text) : intent :=
  if _is_email_request query then GenerateEmail
  else if _is_send_request query then SendEmail
  else Query.
End Agent.

End hr_conversational_agent.

(** ** More of Python: [str.join], [dict.get], the end of a match *)

Module PyMore.

(** [sep.join(l)] *)
Fixpoint join (sep : text) (l : list text) : text :=
  match l with
  | [] => []
  | [x] => x
  | x :: l' => x ++ sep ++ join sep l'
  end.

(** [d.get(key, default)] *)
Definition get_or (d : gmap string value) (key : string) (default : value)
    : value :=
  match d !! key with
  | Some v => v
  | None => default
  end.

(** Truth value of an [Optional[dict]]: [None] and the empty
    dictionary are false. *)
Definition dict_truthy (d : option (gmap string value)) : bool :=
  match d with
  | Some d => negb (bool_decide (d = ∅))
  | None => false
  end.

(** [m = re.search(r, s)] with [m.group(1)] and [s[m.end():]]: group
    1 of the leftmost match and the text after this match. *)
Fixpoint search_end_from (r : Re.regex) (prev : option ascii) (s : text)
    : option (text * text) :=
  match Re.match_at r prev s with
  | Some (rest, g) => Some (g, rest)
  | None =>
      match s with
      | c :: s' => search_end_from r (Some c) s'
      | [] => None
      end
  end.

Definition search_end (r : Re.regex) (s : text) : option (text * text) :=
  search_end_from r None s.

(** [l[start:]] for a list and a Python integer. *)
Definition slice_from {A : Type} (start : Z) (l : list A) : list A :=
  let n := Z.of_nat (length l) in
  let start :=
    if (start <? 0)%Z then Z.max (start + n) 0 else Z.min start n in
  drop (Z.to_nat start) l.

End PyMore.

(** ** [utils/file_extractor.py] *)

Module file_extractor.

Inductive encoding : Type := utf_8 | latin_1.

(** What [open(file_path, 'r', encoding=..)] followed by
    [file.read()] comes to: the text of the file, a
    [UnicodeDecodeError], or another exception. *)
Inductive read_outcome : Type :=
| Contents (content : text)
| UnicodeDecodeError (e : exn)
| ReadError (e : exn).

Definition nl : text := [ascii_of_nat 10].

(** The loop over [pdf_reader.pages]: the text so far, then each page
    in turn. *)
Fixpoint pages_text (pages : list (result text)) (text : list ascii)
    : result (list ascii) :=
  match pages with
  | [] => Ok text
  | page :: rest =>
      let? extracted := page in
      pages_text rest (text ++ extracted ++ nl)
  end.

Section Files.
(** Whether [pypdf] and [docx] could be imported. *)
Variable PYPDF_AVAILABLE : bool.
Variable DOCX_AVAILABLE : bool.
(** [PdfReader(file_path)]: the reader, and for each of its pages the
    outcome of reaching it and of [page.extract_text()]. *)
Variable PdfReader : text -> result (list (result text)).
(** [Document(file_path)]: the texts of [doc.paragraphs]. *)
Variable Document : text -> result (list text).
Variable open_read : text -> encoding -> read_outcome.
(** [os.path.exists] and [Path(..).suffix] *)
Variable path_exists : text -> bool.
Variable path_suffix : text -> text.

Definition extract_text_from_pdf (file_path : text) : result text :=
  if negb PYPDF_AVAILABLE then
    Raise (Exn ValueError
             (txt "pypdf is not installed. Please install it using: pip install pypdf"))
  else
    let text : list ascii := [] in
    match (let? pdf_reader := PdfReader file_path in
           pages_text pdf_reader text) with
    | Ok text => Ok (Py.strip text)
    | Raise e =>
        Raise (Exn ValueError (txt "Error reading PDF file: " ++ exn_str e))
    end.

Definition extract_text_from_docx (file_path : text) : result text :=
  if negb DOCX_AVAILABLE then
    Raise (Exn ValueError
             (txt "python-docx is not installed. Please install it using: pip install python-docx"))
  else
    match Document file_path with
    | Ok paragraphs => Ok (Py.strip (PyMore.join nl paragraphs))
    | Raise e =>
        Raise (Exn ValueError (txt "Error reading DOCX file: " ++ exn_str e))
    end.

Definition extract_text_from_txt (file_path : text) : result text :=
  match open_read file_path utf_8 with
  | Contents text => Ok (Py.strip text)
  | UnicodeDecodeError _ =>
      match open_read file_path latin_1 with
      | Contents text => Ok (Py.strip text)
      | UnicodeDecodeError e | ReadError e =>
          Raise (Exn ValueError (txt "Error reading TXT file: " ++ exn_str e))
      end
  | ReadError e =>
      Raise (Exn ValueError (txt "Error reading TXT file: " ++ exn_str e))
  end.

Definition extract_text_from_file (file_path : text) : result text :=
  if negb (path_exists file_path) then
    Raise (Exn ValueError (txt "File not found: " ++ file_path))
  else
    let file_extension := Py.lower (path_suffix file_path) in
    if bool_decide (file_extension = txt ".pdf") then
      extract_text_from_pdf file_path
    else if existsb (fun x => bool_decide (file_extension = x))
              [txt ".docx"; txt ".doc"] then
      extract_text_from_docx file_path
    else if bool_decide (file_extension = txt ".txt") then
      extract_text_from_txt file_path
    else
      Raise (Exn ValueError
               (txt "Unsupported file type: " ++ file_extension ++
                txt ". Supported types: .pdf, .docx, .txt")).
End Files.

End file_extractor.

(** ** [agents/resume_analysis_agent.py]: [analyze_resume_from_files] *)

Module resume_files.

Import resume_analysis_agent.

Section FromFiles.
Variable PYPDF_AVAILABLE : bool.
Variable DOCX_AVAILABLE : bool.
Variable PdfReader : text -> result (list (result text)).
Variable Document : text -> result (list text).
Variable open_read : text -> file_extractor.encoding -> file_extractor.read_outcome.
Variable path_exists : text -> bool.
Variable path_suffix : text -> text.
Variable environ : string -> option text.
Variable GEMINI_AVAILABLE : bool.
Variable new_model : model -> result unit.
Variable invoke : model -> text -> result text.
Variable json_loads : text -> result dict.
Variable repr : value -> text.
Variable format_prompt : text -> text -> text.

Definition extract_text_from_file : text -> result text :=
  file_extractor.extract_text_from_file PYPDF_AVAILABLE DOCX_AVAILABLE
    PdfReader Document open_read path_exists path_suffix.

Definition analyze_resume_from_files {S : Type}
    (resume_file_path job_description_file_path : text) : M S dict :=
  let* resume_text := lift (extract_text_from_file resume_file_path) in
  let* job_description_text :=
    lift (extract_text_from_file job_description_file_path) in
  analyze_resume environ GEMINI_AVAILABLE new_model invoke json_loads repr
    format_prompt resume_text job_description_text.
End FromFiles.

End resume_files.

(** ** [agents/email_writing_agent.py] *)

Module email_writing_agent.

Import resume_analysis_agent (model, Gemini, DeepSeek, dict, json_block).
Import hr_conversational_agent (subject_pattern).

Definition no_provider : exn :=
  Exn ValueError (txt "No available LLM API keys found").

Section Writer.
Variable environ : string -> option text.
Variable GEMINI_AVAILABLE : bool.
Variable new_model : model -> result unit.
Variable invoke : model -> text -> result text.
(** [json.loads]: the decoded object or the exception raised. *)
Variable json_loads : text -> result dict.
(** The two prompts, assembled with f-strings; the one with the
    candidate joins the strengths, which raises on a value that is not
    a list of strings. *)
Variable candidate_prompt : dict -> text -> text -> result text.
Variable generic_prompt : text -> text.

Definition try_gemini {S : Type} : M S (option model) :=
  if GEMINI_AVAILABLE && Py.truthy (config.GEMINI_API_KEY environ) then
    try_except
      (do lift (new_model Gemini) then
       ret (Some Gemini))
      (fun e =>
         do log WARNING (txt "Failed to initialize Gemini: " ++ exn_str e) then
         ret None)
  else ret None.

Definition try_deepseek {S : Type} : M S (option model) :=
  if Py.truthy (config.DEEPSEEK_API_KEY environ) then
    try_except
      (do lift (new_model DeepSeek) then
       ret (Some DeepSeek))
      (fun e =>
         do log WARNING (txt "Failed to initialize DeepSeek: " ++ exn_str e) then
         ret None)
  else ret None.

Definition get_llm_model {S : Type} : M S model :=
  let* first := try_gemini in
  match first with
  | Some m => ret m
  | None =>
      let* second := try_deepseek in
      match second with
      | Some m => ret m
      | None => raise no_provider
      end
  end.

(** The fallback of [generate_email_with_ai]: the subject line and
    what follows it. *)
Definition extract_manually (response_text : text) : dict :=
  let subject_match := PyMore.search_end subject_pattern response_text in
  let subject :=
    match subject_match with
    | Some (group1, _) => Py.strip group1
    | None => txt "No Subject"
    end in
  let body :=
    match subject_match with
    | Some (_, after) => Py.strip after
    | None => response_text
    end in
  <["subject"%string := VStr subject]> (<["body"%string := VStr body]> ∅).

(** From the reply to the result: the JSON object of the reply if it
    has one that decodes, the fallback if it has none or the decoder
    raises [JSONDecodeError]; another exception of the decoder is not
    caught here. *)
Definition read_response (response_text : text) : result dict :=
  match Re.search0 json_block response_text with
  | Some json_str =>
      match json_loads json_str with
      | Ok result =>
          Ok (<["subject"%string :=
                 PyMore.get_or result "subject" (VStr (txt "No Subject"))]>
              (<["body"%string := PyMore.get_or result "body" (VStr [])]> ∅))
      | Raise e =>
          match kind e with
          | JSONDecodeError => Ok (extract_manually response_text)
          | _ => Raise e
          end
      end
  | None => Ok (extract_manually response_text)
  end.

Definition generate_email_with_ai {S : Type} (user_prompt : text)
    (use_candidate_context : bool) (candidate_data : option dict)
    (job_description : option text) : M S dict :=
  try_except
    (let* model := get_llm_model in
     let* prompt :=
       if use_candidate_context && PyMore.dict_truthy candidate_data &&
          Py.truthy job_description
       then lift (candidate_prompt (default ∅ candidate_data)
                    (default [] job_description) user_prompt)
       else ret (generic_prompt user_prompt) in
     do emit (LlmInvoke prompt) then
     let* response_text := lift (invoke model prompt) in
     lift (read_response response_text))
    (fun e =>
       do log ERROR (txt "Error generating email: " ++ exn_str e) then
       raise (Exn ValueError (txt "Failed to generate email: " ++ exn_str e))).
End Writer.

End email_writing_agent.

(** ** [agents/filtering_agent.py] *)

Module filtering_agent.

Import resume_analysis_agent (model, Gemini, DeepSeek, dict, no_provider).

Section Filter.
Variable environ : string -> option text.
Variable GEMINI_AVAILABLE : bool.
Variable new_model : model -> result unit.
(** [str(model.invoke(prompt))] *)
Variable invoke_str : model -> text -> result text.
(** [clean_text] of [utils/formatter.py] *)
Variable clean_text : text -> text.
(** [prompt_template.format(subject=.., content=..)] *)
Variable format_prompt : value -> value -> text.

Definition try_gemini {S : Type} : M S (option model) :=
  if GEMINI_AVAILABLE && Py.truthy (config.GEMINI_API_KEY environ) then
    try_except
      (do lift (new_model Gemini) then
       do log DEBUG (txt "Using Gemini model for email filtering") then
       ret (Some Gemini))
      (fun e =>
         let error_msg :=
           logger.sanitize_error_message (config.getenv environ)
             (exn_str e) None in
         do log WARNING (txt "Failed to initialize Gemini: " ++ error_msg) then
         ret None)
  else ret None.

Definition try_deepseek {S : Type} (chosen : option model)
    : M S (option model) :=
  match chosen with
  | Some m => ret (Some m)
  | None =>
      if Py.truthy (config.DEEPSEEK_API_KEY environ) then
        try_except
          (do lift (new_model DeepSeek) then
           do log DEBUG (txt "Using DeepSeek model for email filtering (fallback)") then
           ret (Some DeepSeek))
          (fun e =>
             do log WARNING (txt "Failed to initialize DeepSeek: " ++ exn_str e) then
             ret None)
      else ret None
  end.

(** The tests made on the cleaned reply, in their order. *)
Definition classification (classification_text : text) : text :=
  if Py.contains (txt "'needs review'") classification_text ||
     Py.contains (txt "needs review") classification_text
  then txt "needs_review"
  else if Py.contains (txt "urgent") classification_text
  then txt "urgent"
  else if Py.contains (txt "spam") classification_text
  then txt "spam"
  else txt "informational".

Definition filter_email {S : Type} (email : dict) : M S text :=
  let prompt :=
    format_prompt (PyMore.get_or email "subject" (VStr []))
      (PyMore.get_or email "body" (VStr [])) in
  let* model := try_gemini in
  let* model := try_deepseek model in
  match model with
  | None => raise no_provider
  | Some model =>
      do emit (LlmInvoke prompt) then
      let* classification_result := lift (invoke_str model prompt) in
      let classification_text := clean_text classification_result in
      do log DEBUG (txt "Raw model output: " ++ classification_text) then
      ret (classification classification_text)
  end.
End Filter.

End filtering_agent.

(** ** [core/email_imap.py] *)

Module email_imap.

(** Lines 47-60 of [fetch_imap_emails]: the identifiers that the loop
    goes through, in the order in which it takes them. *)
Definition ids_to_fetch {A : Type} (email_ids : list A) (max_emails : Z)
    : list A :=
  let total_emails := Z.of_nat (length email_ids) in
  let email_ids :=
    if (max_emails <? total_emails)%Z
    then PyMore.slice_from (- max_emails) email_ids
    else email_ids in
  rev email_ids.

End email_imap.

(** ** [app.py]: the login *)

Module app.

(** The entries of [st.session_state] that the login reads or writes;
    a credential is a string or [None]. *)
Record Session : Type := {
  authenticated : bool;
  hr_name : text;
  is_admin : bool;
  require_email_credentials : bool;
  email_credentials : gmap string (option text)
}.

(** [st.success], [st.warning], [st.error] *)
Inductive notice : Type :=
| success (msg : string)
| warning (msg : string)
| error (msg : string).

Section Login.
Variable environ : string -> option text.

(** [ADMIN_EMAIL] of [config.py] *)
Definition ADMIN_EMAIL : option text := environ "EMAIL_USERNAME"%string.

(** What [login_page] does when the button is pressed, with the
    contents of the two input fields. *)
Definition login (username password : text) (state : Session)
    : list notice * Session :=
  if Py.truthy (Some username) && Py.truthy (Some password) then
    if Py.truthy (config.ADMIN_USERNAME environ) &&
       Py.truthy (config.ADMIN_PASSWORD environ) &&
       bool_decide (Some username = config.ADMIN_USERNAME environ) &&
       bool_decide (Some password = config.ADMIN_PASSWORD environ)
    then
      let account := Py.or_else ADMIN_EMAIL (config.EMAIL_USERNAME environ) in
      ([success "✅ Admin access granted. Using admin email credentials."],
       {| authenticated := true;
          hr_name := username;
          is_admin := true;
          require_email_credentials := require_email_credentials state;
          email_credentials :=
            <["imap_password"%string := config.EMAIL_PASSWORD environ]>
            (<["imap_username"%string := account]>
            (<["password"%string := config.EMAIL_PASSWORD environ]>
            (<["username"%string := account]>
            (email_credentials state)))) |})
    else
      ([warning "⚠️ Your password doesn't match admin password. Change email and password in the sidebar to access email features (fetch, summarize, send email)."],
       {| authenticated := true;
          hr_name := username;
          is_admin := false;
          require_email_credentials := true;
          email_credentials :=
            <["imap_password"%string := Some []]>
            (<["imap_username"%string := Some []]>
            (<["password"%string := Some []]>
            (<["username"%string := Some []]>
            (email_credentials state)))) |})
  else ([error "Please enter username and password"], state).
End Login.

End app.

(** ** [agents/response_agent.py] *)

Module response_agent.

Import resume_analysis_agent (model, Gemini, DeepSeek, dict, no_provider).

Section Response.
Variable environ : string -> option text.
Variable GEMINI_AVAILABLE : bool.
Variable new_model : model -> result unit.
Variable invoke : model -> text -> result text.
(** Building the [PromptTemplate] and formatting it with the sender,
    the subject, the content, the summary and the user name. *)
Variable format_prompt : text -> value -> value -> text -> text -> result text.
(** [format_email] of [utils/formatter.py] *)
Variable format_email : value -> text -> text -> text -> text.

Definition try_gemini {S : Type} : M S (option model) :=
  if GEMINI_AVAILABLE && Py.truthy (config.GEMINI_API_KEY environ) then
    try_except
      (do lift (new_model Gemini) then
       do log DEBUG (txt "Using Gemini model for email response generation") then
       ret (Some Gemini))
      (fun e =>
         let error_msg :=
           logger.sanitize_error_message (config.getenv environ)
             (exn_str e) None in
         do log WARNING (txt "Failed to initialize Gemini: " ++ error_msg) then
         ret None)
  else ret None.

Definition try_deepseek {S : Type} (chosen : option model)
    : M S (option model) :=
  match chosen with
  | Some m => ret (Some m)
  | None =>
      if Py.truthy (config.DEEPSEEK_API_KEY environ) then
        try_except
          (do lift (new_model DeepSeek) then
           do log DEBUG (txt "Using DeepSeek model for email response generation (fallback)") then
           ret (Some DeepSeek))
          (fun e =>
             do log WARNING (txt "Failed to initialize DeepSeek: " ++ exn_str e) then
             ret None)
      else ret None
  end.

Definition generate_response {S : Type} (email : dict)
    (summary recipient_name your_name : text) : M S text :=
  let* prompt :=
    lift (format_prompt recipient_name
            (PyMore.get_or email "subject" (VStr []))
            (PyMore.get_or email "body" (VStr [])) summary your_name) in
  let* model := try_gemini in
  let* model := try_deepseek model in
  match model with
  | None => raise no_provider
  | Some model =>
      do emit (LlmInvoke prompt) then
      let* response_text := lift (invoke model prompt) in
      let formatted_response :=
        format_email (PyMore.get_or email "subject" (VStr [])) recipient_name
          response_text your_name in
      ret (Py.strip formatted_response)
  end.
End Response.

End response_agent.

(** ** [agents/summarization_agent.py] *)

Module summarization_agent.

Import resume_analysis_agent (model, Gemini, DeepSeek, dict, no_provider).

Section Summary.
Variable environ : string -> option text.
Variable GEMINI_AVAILABLE : bool.
Variable new_model : model -> result unit.
Variable invoke : model -> text -> result text.
(** Building the [PromptTemplate] and formatting it with the content. *)
Variable format_prompt : value -> result text.
(** [clean_text] of [utils/formatter.py] *)
Variable clean_text : text -> text.

Definition try_gemini {S : Type} : M S (option model) :=
  if GEMINI_AVAILABLE && Py.truthy (config.GEMINI_API_KEY environ) then
    try_except
      (do lift (new_model Gemini) then
       do log DEBUG (txt "Using Gemini model for email summarization") then
       ret (Some Gemini))
      (fun e =>
         do log WARNING (txt "Failed to initialize Gemini: " ++ exn_str e) then
         ret None)
  else ret None.

Definition try_deepseek {S : Type} (chosen : option model)
    : M S (option model) :=
  match chosen with
  | Some m => ret (Some m)
  | None =>
      if Py.truthy (config.DEEPSEEK_API_KEY environ) then
        try_except
          (do lift (new_model DeepSeek) then
           do log DEBUG (txt "Using DeepSeek model for email summarization (fallback)") then
           ret (Some DeepSeek))
          (fun e =>
             do log WARNING (txt "Failed to initialize DeepSeek: " ++ exn_str e) then
             ret None)
      else ret None
  end.

Definition summarize_email {S : Type} (email : dict) : M S text :=
  let* prompt := lift (format_prompt (PyMore.get_or email "body" (VStr []))) in
  let* model := try_gemini in
  let* model := try_deepseek model in
  match model with
  | None => raise no_provider
  | Some model =>
      do emit (LlmInvoke prompt) then
      let* summary_text := lift (invoke model prompt) in
      ret (clean_text summary_text)
  end.
End Summary.

End summarization_agent.

(** ** [utils/email_helper.py] *)

Module email_helper.

Section Helper.
Variable smtp : smtp_step -> SmtpJob -> result unit.
(** The [QUIT] that [SMTP.__exit__] sends when the [with] block is
    left. *)
Variable smtp_quit : SmtpJob -> result unit.

Definition smtp_do {S : Type} (step : smtp_step) (job : SmtpJob) : M S unit :=
  do emit (SmtpDialogue step job) then lift (smtp step job).

(** [with server: body]: the block is left through [__exit__],
    whether [body] returns or raises; an exception of [__exit__]
    takes the place of the outcome of [body]. *)
Definition with_server {S A : Type} (job : SmtpJob) (body : M S A) : M S A :=
  fun s =>
    let '(t, s1, r) := body s in
    match smtp_quit job with
    | Ok _ => (t, s1, r)
    | Raise e => (t, s1, Raise e)
    end.

Definition send_email_with_credentials {S : Type}
    (recipient_email subject body sender_name hr_name
     smtp_username smtp_password smtp_server smtp_port : text) : M S bool :=
  try_except
    (let formatted_content := Py.strip body in
     let job :=
       {| job_server := smtp_server; job_port := smtp_port;
          job_username := smtp_username; job_password := smtp_password;
          job_subject := subject; job_from := smtp_username;
          job_to := recipient_email; job_content := formatted_content |} in
     do smtp_do Compose job then
     do log DEBUG (txt "Connecting to SMTP server " ++ smtp_server ++
                   txt ":" ++ smtp_port) then
     do smtp_do Connect job then
     do with_server job
          (do log DEBUG (txt "Starting TLS...") then
           do smtp_do StartTLS job then
           do log DEBUG (txt "Logging in as " ++ smtp_username) then
           do smtp_do Login job then
           do log DEBUG (txt "Sending email to " ++ recipient_email) then
           do smtp_do SendMessage job then
           log INFO (txt "Email sent successfully to " ++ recipient_email)) then
     ret true)
    (fun e =>
       do log ERROR (txt "Failed to send email: " ++ exn_str e) then
       ret false).
End Helper.

End email_helper.

(** * Part II: properties *)

Import resume_analysis_agent hr_conversational_agent.

(** ** Texts and substrings *)

(** [sub] occurs in [s]. *)
Definition occurs (sub s : text) : Prop := exists a b, s = a ++ sub ++ b.

Lemma startswith_spec (p s : text) :
  Py.startswith p s = true <-> exists r, s = p ++ r.
Proof.
  revert s; induction p as [|a p IH]; intros [|b s]; simpl.
  - split; [exists []; reflexivity | reflexivity].
  - split; [eexists; reflexivity | reflexivity].
  - split; [discriminate | intros [r Hr]; discriminate].
  - rewrite andb_true_iff, Ascii.eqb_eq, IH. split.
    + intros [-> [r ->]]. exists r; reflexivity.
    + intros [r Hr]. injection Hr as -> ->. split; [reflexivity | exists r; reflexivity].
Qed.

Lemma contains_spec (sub s : text) :
  Py.contains sub s = true <-> occurs sub s.
Proof.
  unfold occurs. induction s as [|c s IH]; simpl.
  - rewrite orb_false_r, startswith_spec. split.
    + intros [r Hr]. exists [], r. exact Hr.
    + intros (a & b & H). destruct a as [|x a]; [|discriminate].
      exists b. exact H.
  - rewrite orb_true_iff, startswith_spec, IH. split.
    + intros [[r Hr] | (a & b & H)].
      * exists [], r. exact Hr.
      * exists (c :: a), b. simpl. rewrite H. reflexivity.
    + intros (a & b & H). destruct a as [|x a]; simpl in H.
      * left. exists b. exact H.
      * right. injection H as _ H. exists a, b. exact H.
Qed.

Lemma contains_false (sub s : text) :
  Py.contains sub s = false <-> ~ occurs sub s.
Proof.
  rewrite <- contains_spec. destruct (Py.contains sub s); split; intros H;
    try reflexivity; try discriminate; try (intros H'; discriminate).
  exfalso. apply H. reflexivity.
Qed.

Lemma existsb_contains (ks : list text) (s : text) :
  existsb (fun k => Py.contains k s) ks = true <->
  exists k, In k ks /\ occurs k s.
Proof.
  rewrite existsb_exists. split; intros (k & Hin & H); exists k;
    (split; [exact Hin | apply contains_spec; exact H]).
Qed.

(** ** Intent classification *)

(** Some keyword of the list occurs in the query once it is put in
    lower case. *)
Definition mentions (keywords : list text) (query : text) : Prop :=
  exists k, In k keywords /\ occurs k (Py.lower query).

Lemma is_email_request_spec (query : text) :
  _is_email_request query = true <-> mentions email_keywords query.
Proof. apply existsb_contains. Qed.

Lemma is_send_request_spec (query : text) :
  _is_send_request query = true <-> mentions send_keywords query.
Proof. apply existsb_contains. Qed.

Lemma lower_idempotent (s : text) : Py.lower (Py.lower s) = Py.lower s.
Proof.
  unfold Py.lower. rewrite map_map. apply map_ext. intros c.
  destruct c as [[] [] [] [] [] [] [] []]; reflexivity.
Qed.

(** C1. The generate-email keywords are looked for first, then the
    send-email keywords, each as a substring of the query in lower
    case; a query with a keyword of both sets is a generate-email
    request, one with neither is a plain query; [chat] takes the branch
    of the intent; the letter case of the query plays no part; and the
    four utterances of the specification are classified as it says. *)
Theorem C1_intent_classification :
  (forall query,
     (mentions email_keywords query -> classify query = GenerateEmail) /\
     (~ mentions email_keywords query -> mentions send_keywords query ->
      classify query = SendEmail) /\
     (~ mentions email_keywords query -> ~ mentions send_keywords query ->
      classify query = Query)) /\
  (forall w sp ep fe query u p s o,
     chat w sp ep fe query u p s o =
     match classify query with
     | GenerateEmail => _generate_email w ep fe query
     | SendEmail => _handle_send_request w u p s o
     | Query => regular_query w sp query
     end) /\
  (forall query query',
     Py.lower query = Py.lower query' -> classify query = classify query') /\
  classify (txt "Please draft email for candidate") = GenerateEmail /\
  classify (txt "send the email now") = SendEmail /\
  classify (txt "draft email then send email") = GenerateEmail /\
  classify (txt "What is the candidate's experience?") = Query.
Proof.
  split; [|split; [|split; [|repeat split; vm_compute; reflexivity]]].
  - intros query. unfold classify.
    pose proof (is_email_request_spec query) as He.
    pose proof (is_send_request_spec query) as Hs.
    destruct (_is_email_request query), (_is_send_request query);
      repeat split; intros; try reflexivity;
      exfalso; intuition congruence.
  - intros. unfold chat, classify.
    destruct (_is_email_request query); [reflexivity|].
    destruct (_is_send_request query); reflexivity.
  - intros query query' H. unfold classify, _is_email_request, _is_send_request.
    rewrite H. reflexivity.
Qed.

(** The premises of C1 met by a query that has a keyword of each set. *)
Lemma C1_intent_classification_witness :
  mentions email_keywords (txt "Draft Email then Send Email") /\
  classify (txt "Draft Email then Send Email") = GenerateEmail.
Proof.
  split.
  - apply is_email_request_spec. vm_compute. reflexivity.
  - apply (proj1 C1_intent_classification (txt "Draft Email then Send Email")).
    apply is_email_request_spec. vm_compute. reflexivity.
Defined.

(** ** The provider resolver *)

Definition is_ok {A : Type} (r : result A) : bool :=
  match r with
  | Ok _ => true
  | Raise _ => false
  end.

(** The outcome of a computation. *)
Definition outcome {S A : Type} (x : list effect * S * result A) : result A :=
  snd x.
Definition final {S A : Type} (x : list effect * S * result A) : S :=
  snd (fst x).
Definition trace {S A : Type} (x : list effect * S * result A) : list effect :=
  fst (fst x).

Section Resolver.
Variable environ : string -> option text.
Variable GEMINI_AVAILABLE : bool.
Variable new_model : model -> result unit.

(** The primary backend can be used: the import succeeded, the
    credential is set and the client could be built. *)
Definition primary_usable : bool :=
  GEMINI_AVAILABLE && Py.truthy (config.GEMINI_API_KEY environ) &&
  is_ok (new_model Gemini).

Definition secondary_usable : bool :=
  Py.truthy (config.DEEPSEEK_API_KEY environ) && is_ok (new_model DeepSeek).

Definition resolved : result model :=
  if primary_usable then Ok Gemini
  else if secondary_usable then Ok DeepSeek
  else Raise no_provider.

Lemma resume_get_llm_model_outcome (S : Type) (s : S) :
  outcome (resume_analysis_agent.get_llm_model environ GEMINI_AVAILABLE
             new_model s) = resolved /\
  final (resume_analysis_agent.get_llm_model environ GEMINI_AVAILABLE
           new_model s) = s.
Proof.
  unfold resolved, primary_usable, secondary_usable,
    resume_analysis_agent.get_llm_model, resume_analysis_agent.try_gemini,
    resume_analysis_agent.try_deepseek.
  destruct GEMINI_AVAILABLE, (Py.truthy (config.GEMINI_API_KEY environ)),
    (Py.truthy (config.DEEPSEEK_API_KEY environ)),
    (new_model Gemini) as [[]|e1], (new_model DeepSeek) as [[]|e2];
    split; reflexivity.
Qed.
End Resolver.

Lemma hr_get_llm_model_outcome (w : World) (S : Type) (s : S) :
  outcome (hr_conversational_agent.get_llm_model w s) =
    resolved (environ w) (GEMINI_AVAILABLE w) (new_model w) /\
  final (hr_conversational_agent.get_llm_model w s) = s.
Proof.
  unfold resolved, primary_usable, secondary_usable,
    hr_conversational_agent.get_llm_model, hr_conversational_agent.try_gemini,
    hr_conversational_agent.try_deepseek.
  destruct (GEMINI_AVAILABLE w), (Py.truthy (config.GEMINI_API_KEY (environ w))),
    (Py.truthy (config.DEEPSEEK_API_KEY (environ w))),
    (new_model w Gemini) as [[]|e1], (new_model w DeepSeek) as [[]|e2];
    split; reflexivity.
Qed.

(** C7. Both copies of the resolver try the primary backend first and
    the secondary second.  With the primary credential absent and the
    secondary one present, the secondary client is built and, once
    built, selected without an exception; a usable primary wins over
    the secondary; and when no attempt yields a client (no credential,
    or every construction raises) the resolver raises the
    no-provider error, and only then. *)
Theorem C7_provider_fallback (w : World) (S : Type) (s : S) :
  let resume_resolver :=
    outcome (resume_analysis_agent.get_llm_model (environ w)
               (GEMINI_AVAILABLE w) (new_model w) s) in
  let hr_resolver := outcome (hr_conversational_agent.get_llm_model w s) in
  let primary := primary_usable (environ w) (GEMINI_AVAILABLE w) (new_model w) in
  let secondary := secondary_usable (environ w) (new_model w) in
  hr_resolver = resume_resolver /\
  (Py.truthy (config.GEMINI_API_KEY (environ w)) = false ->
   Py.truthy (config.DEEPSEEK_API_KEY (environ w)) = true ->
   new_model w DeepSeek = Ok tt ->
   resume_resolver = Ok DeepSeek) /\
  (primary = true -> resume_resolver = Ok Gemini) /\
  (primary = false -> secondary = true -> resume_resolver = Ok DeepSeek) /\
  (resume_resolver = Raise no_provider <-> primary = false /\ secondary = false).
Proof.
  cbv zeta.
  destruct (resume_get_llm_model_outcome (environ w) (GEMINI_AVAILABLE w)
              (new_model w) S s) as [-> _].
  destruct (hr_get_llm_model_outcome w S s) as [-> _].
  unfold resolved, primary_usable, secondary_usable.
  split; [reflexivity|].
  split.
  { intros -> -> ->. rewrite andb_false_r. reflexivity. }
  destruct (GEMINI_AVAILABLE w && Py.truthy (config.GEMINI_API_KEY (environ w)) &&
            is_ok (new_model w Gemini)),
    (Py.truthy (config.DEEPSEEK_API_KEY (environ w)) && is_ok (new_model w DeepSeek));
    repeat split; intros; try reflexivity; try discriminate;
    try (destruct H; discriminate).
Qed.

(** A process with only the secondary credential set. *)
Definition only_deepseek : World :=
  {| environ := fun name =>
       if bool_decide (name = "DEEPSEEK_API_KEY"%string)
       then Some (txt "sk-0123456789") else None;
     GEMINI_AVAILABLE := true;
     new_model := fun _ => Ok tt;
     llm_invoke := fun _ => Ok (txt "Dear candidate");
     chain_invoke := fun _ _ => Ok (txt "Five years.");
     smtp := fun _ _ => Ok tt;
     smtp_quit := fun _ => Ok tt |}.

Lemma C7_provider_fallback_witness :
  outcome (resume_analysis_agent.get_llm_model (environ only_deepseek)
             (GEMINI_AVAILABLE only_deepseek) (new_model only_deepseek) tt)
  = Ok DeepSeek.
Proof.
  apply (proj1 (proj2 (C7_provider_fallback only_deepseek unit tt)));
    reflexivity.
Defined.

(** ** Laws of the computations *)

Section Laws.
Context {S A B : Type}.

Lemma bind_ret (x : A) (k : A -> M S B) (s : S) : bind (ret x) k s = k x s.
Proof. unfold bind, ret. destruct (k x s) as [[t s'] r]. reflexivity. Qed.

Lemma bind_lift_ok (x : A) (k : A -> M S B) (s : S) :
  bind (lift (Ok x)) k s = k x s.
Proof. unfold bind, lift. destruct (k x s) as [[t s'] r]. reflexivity. Qed.

Lemma bind_lift_raise (e : exn) (k : A -> M S B) (s : S) :
  bind (lift (Raise e)) k s = ([], s, Raise e).
Proof. reflexivity. Qed.

Lemma bind_get (k : S -> M S B) (s : S) : bind get k s = k s s.
Proof. unfold bind, get. destruct (k s s) as [[t s'] r]. reflexivity. Qed.

Lemma bind_put (s' : S) (k : unit -> M S B) (s : S) :
  bind (put s') k s = k tt s'.
Proof. unfold bind, put. destruct (k tt s') as [[t s''] r]. reflexivity. Qed.

Lemma bind_emit (e : effect) (k : unit -> M S B) (s : S) :
  bind (emit e) k s = let '(t, s', r) := k tt s in (e :: t, s', r).
Proof. reflexivity. Qed.

Lemma bind_raise (e : exn) (k : A -> M S B) (s : S) :
  bind (raise e) k s = ([], s, Raise e).
Proof. reflexivity. Qed.
End Laws.

Lemma bind_assoc {S A B C : Type} (c : M S A) (k1 : A -> M S B)
    (k2 : B -> M S C) (s : S) :
  bind (bind c k1) k2 s = bind c (fun x => bind (k1 x) k2) s.
Proof.
  unfold bind. destruct (c s) as [[t1 s1] [a|e]]; [|reflexivity].
  destruct (k1 a s1) as [[t2 s2] [b|e]]; [|reflexivity].
  destruct (k2 b s2) as [[t3 s3] r]. rewrite app_assoc. reflexivity.
Qed.

(** ** The dispatch of a draft *)

Lemma split_nonempty (sep : ascii) (s : text) :
  exists x xs, Py.split sep s = x :: xs.
Proof.
  induction s as [|c s (x & xs & IH)]; simpl.
  - eexists _, _; reflexivity.
  - destruct (Ascii.eqb c sep); [eexists _, _; reflexivity|].
    rewrite IH. eexists _, _; reflexivity.
Qed.

Lemma extract_candidate_name_total (a : Agent) :
  exists name, _extract_candidate_name a = ([], a, Ok name).
Proof.
  unfold _extract_candidate_name, bind, get, lift, ret.
  destruct (Py.contains (txt "@") (candidate_email a)); [|eexists; reflexivity].
  destruct (split_nonempty "@" (candidate_email a)) as (x & xs & ->).
  cbn [first_item].
  destruct (split_nonempty "." x) as (y & ys & ->).
  simpl. eexists; reflexivity.
Qed.

(** The four transport parameters once each has fallen back to the
    configuration: account, secret, host, port. *)
Definition resolved_credentials (w : World) (u p s o : option text)
    : list (option text) :=
  [ Py.or_else u (config.EMAIL_USERNAME (environ w));
    Py.or_else p (config.EMAIL_PASSWORD (environ w));
    Py.or_else s (config.EMAIL_SERVER (environ w));
    Py.or_else o (config.EMAIL_PORT (environ w)) ].

Definition credentials_complete (w : World) (u p s o : option text) : bool :=
  forallb Py.truthy (resolved_credentials w u p s o).

(** The message and the connection data that the dispatch works with. *)
Definition job_of (w : World) (subject body recipient_email : text)
    (u p s o : option text) : SmtpJob :=
  let username := default [] (Py.or_else u (config.EMAIL_USERNAME (environ w))) in
  {| job_server := default [] (Py.or_else s (config.EMAIL_SERVER (environ w)));
     job_port := default [] (Py.or_else o (config.EMAIL_PORT (environ w)));
     job_username := username;
     job_password := default [] (Py.or_else p (config.EMAIL_PASSWORD (environ w)));
     job_subject := subject; job_from := username;
     job_to := recipient_email; job_content := Py.strip body |}.

Definition smtp_steps : list smtp_step :=
  [Compose; Connect; StartTLS; Login; SendMessage].

(** The exception of the first step of the dialogue that raises. *)
Fixpoint first_failure (w : World) (job : SmtpJob) (steps : list smtp_step)
    : option exn :=
  match steps with
  | [] => None
  | step :: rest =>
      match smtp w step job with
      | Raise e => Some e
      | Ok _ => first_failure w job rest
      end
  end.

(** The exception that reaches the handler of the dispatch.  The
    message is filled and the connection opened before the [with]
    block is entered; once it is entered, an exception of the [QUIT]
    sent on leaving it takes the place of whatever the block raised. *)
Definition dispatch_failure (w : World) (job : SmtpJob) : option exn :=
  match first_failure w job [Compose; Connect] with
  | Some e => Some e
  | None =>
      match smtp_quit w job with
      | Raise e => Some e
      | Ok _ => first_failure w job [StartTLS; Login; SendMessage]
      end
  end.

Definition is_smtp (e : effect) : bool :=
  match e with
  | SmtpDialogue _ _ => true
  | _ => false
  end.

(** The steps of the SMTP dialogue in a trace, in the order they were
    taken. *)
Definition dialogue (t : list effect) : list smtp_step :=
  omap (fun e => match e with
                 | SmtpDialogue step _ => Some step
                 | _ => None
                 end) t.

(** The steps up to the first one that raises, this one included. *)
Fixpoint attempted (w : World) (job : SmtpJob) (steps : list smtp_step)
    : list smtp_step :=
  match steps with
  | [] => []
  | step :: rest =>
      step :: match smtp w step job with
              | Ok _ => attempted w job rest
              | Raise _ => []
              end
  end.

Lemma send_missing w subject body rcpt u p s o a :
  credentials_complete w u p s o = false ->
  _send_email_to_candidate w subject body rcpt u p s o a =
  ([Log ERROR (txt "Missing email credentials")], a, Ok false).
Proof.
  intros H. unfold _send_email_to_candidate, try_except.
  unfold credentials_complete, resolved_credentials in H. rewrite H. reflexivity.
Qed.

(** The dispatch with the four parameters set: the steps taken, all
    with the same message and connection data, and the result. *)
Lemma send_complete w subject body rcpt u p s o a :
  credentials_complete w u p s o = true ->
  let job := job_of w subject body rcpt u p s o in
  let run := _send_email_to_candidate w subject body rcpt u p s o a in
  final run = a /\
  List.filter is_smtp (trace run) =
    map (fun step => SmtpDialogue step job) (attempted w job smtp_steps) /\
  match dispatch_failure w job with
  | Some e =>
      outcome run = Ok false /\
      last (trace run) =
        Some (Log ERROR (txt "Failed to send email to candidate: " ++ exn_str e))
  | None =>
      outcome run = Ok true /\
      last (trace run) =
        Some (Log INFO (txt "Email sent successfully to " ++ rcpt))
  end.
Proof.
  intros H job run.
  assert (Hrun : run = _send_email_to_candidate w subject body rcpt u p s o a)
    by reflexivity.
  clearbody run. revert Hrun.
  unfold _send_email_to_candidate, try_except.
  unfold credentials_complete, resolved_credentials in H. rewrite H. cbn [negb].
  destruct (extract_candidate_name_total a) as [name Hn].
  unfold bind at 1. cbn beta. rewrite Hn.
  fold (job_of w subject body rcpt u p s o). fold job.
  unfold dispatch_failure, first_failure, attempted, smtp_steps, with_server,
    smtp_do, bind, emit, log, lift, ret.
  destruct (smtp w Compose job) as [[]|e1]; simpl;
    [destruct (smtp w Connect job) as [[]|e2]; simpl;
     [destruct (smtp w StartTLS job) as [[]|e3]; simpl;
      [destruct (smtp w Login job) as [[]|e4]; simpl;
       [destruct (smtp w SendMessage job) as [[]|e5]; simpl|]|];
      destruct (smtp_quit w job) as [[]|e6]; simpl|]|];
    intros ->; repeat split; reflexivity.
Qed.

Lemma send_returns w subject body rcpt u p s o a :
  exists sent,
    outcome (_send_email_to_candidate w subject body rcpt u p s o a) = Ok sent /\
    final (_send_email_to_candidate w subject body rcpt u p s o a) = a.
Proof.
  destruct (credentials_complete w u p s o) eqn:H.
  - destruct (send_complete w subject body rcpt u p s o a H) as (Hf & _ & Hr).
    destruct (dispatch_failure _ _); destruct Hr as [Hr _]; eauto.
  - rewrite (send_missing _ _ _ _ _ _ _ _ _ H). exists false. split; reflexivity.
Qed.

(** The dispatch has no failure exactly when the five steps and the
    [QUIT] are all answered as expected; when the [QUIT] is, the
    failure is that of the first step that raises. *)
Lemma dispatch_failure_none (w : World) (job : SmtpJob) :
  dispatch_failure w job = None <->
  (forall step, In step smtp_steps -> smtp w step job = Ok tt) /\
  smtp_quit w job = Ok tt.
Proof.
  unfold dispatch_failure, first_failure, smtp_steps. split.
  - destruct (smtp w Compose job) as [[]|e1] eqn:E1; [|discriminate].
    destruct (smtp w Connect job) as [[]|e2] eqn:E2; [|discriminate].
    destruct (smtp_quit w job) as [[]|e6] eqn:E6; [|discriminate].
    destruct (smtp w StartTLS job) as [[]|e3] eqn:E3; [|discriminate].
    destruct (smtp w Login job) as [[]|e4] eqn:E4; [|discriminate].
    destruct (smtp w SendMessage job) as [[]|e5] eqn:E5; [|discriminate].
    intros _. split; [|reflexivity]. intros step Hin.
    repeat (destruct Hin as [<-|Hin]; [assumption|]). destruct Hin.
  - intros [Hall ->].
    rewrite (Hall Compose), (Hall Connect), (Hall StartTLS), (Hall Login),
      (Hall SendMessage) by (simpl; tauto).
    reflexivity.
Qed.

Lemma dispatch_failure_step (w : World) (job : SmtpJob) :
  (smtp_quit w job = Ok tt ->
   dispatch_failure w job = first_failure w job smtp_steps) /\
  (forall e, first_failure w job smtp_steps = Some e ->
             exists cause, dispatch_failure w job = Some cause /\
                           (cause = e \/ smtp_quit w job = Raise cause)).
Proof.
  unfold dispatch_failure, first_failure, smtp_steps. split.
  - intros ->.
    destruct (smtp w Compose job) as [[]|e1]; [|reflexivity].
    destruct (smtp w Connect job) as [[]|e2]; reflexivity.
  - intros e.
    destruct (smtp w Compose job) as [[]|e1]; [|intros [= <-]; eauto].
    destruct (smtp w Connect job) as [[]|e2]; [|intros [= <-]; eauto].
    destruct (smtp_quit w job) as [[]|e6]; [|eauto].
    intros ->. eauto.
Qed.

Definition failed_to_send (a : Agent) : text :=
  txt "❌ Failed to send email to " ++ candidate_email a ++
  txt ". Please check your email configuration.".

Definition sent_successfully (a : Agent) : text :=
  txt "✅ Email sent successfully to " ++ candidate_email a ++ txt "!".

(** What [_handle_send_request] does with a stored draft. *)
Lemma handle_send_with_draft w u p s o a d :
  generated_email a = Some d ->
  let inner :=
    _send_email_to_candidate w (subject d) (body d) (candidate_email a)
      u p s o a in
  let run := _handle_send_request w u p s o a in
  trace run = trace inner /\ final run = a /\
  outcome run =
    match outcome inner with
    | Ok true => Ok (sent_successfully a)
    | _ => Ok (failed_to_send a)
    end.
Proof.
  intros Hd inner run.
  destruct (send_returns w (subject d) (body d) (candidate_email a) u p s o a)
    as (sent & Ho & Hf).
  fold inner in Ho, Hf.
  assert (Hrun : run = _handle_send_request w u p s o a) by reflexivity.
  clearbody run. revert Hrun.
  unfold _handle_send_request, bind at 1, get. cbn beta iota. rewrite Hd.
  unfold try_except, bind. fold inner.
  destruct inner as [[t a'] r]. unfold outcome, final, trace in *. simpl in *.
  subst r a'. destruct sent; unfold ret; intros ->; simpl;
    rewrite app_nil_r; repeat split; reflexivity.
Qed.

Lemma handle_send_without_draft w u p s o a :
  generated_email a = None ->
  _handle_send_request w u p s o a = ([], a, Ok nothing_to_send).
Proof.
  intros Hd. unfold _handle_send_request, bind, get. rewrite Hd. reflexivity.
Qed.

(** C6. The dispatch returns a value and never raises, whatever the
    transport does.  When one of the four transport parameters is still
    empty after the fallback to the configuration, it logs the missing
    credentials and returns the failure value with no step of the SMTP
    dialogue attempted.  With the four parameters set it returns the
    success value exactly when the five steps of the dialogue and the
    [QUIT] that closes the connection are all answered as expected;
    otherwise it returns the failure value and the last thing logged
    is the cause: the exception of the [QUIT] when the connection was
    opened and the [QUIT] raises, that of the first failing step
    otherwise.  A failing step always gives the failure value and a
    logged cause.  And the caller, [_handle_send_request], always
    returns a reply. *)
Theorem C6_dispatch_returns_a_result
    (w : World) (subject body recipient_email : text)
    (u p s o : option text) (a : Agent) :
  let run := _send_email_to_candidate w subject body recipient_email u p s o a in
  let job := job_of w subject body recipient_email u p s o in
  (exists sent, outcome run = Ok sent) /\
  (Exists (fun v => Py.truthy v = false) (resolved_credentials w u p s o) ->
   outcome run = Ok false /\
   trace run = [Log ERROR (txt "Missing email credentials")] /\
   Forall (fun e => is_smtp e = false) (trace run)) /\
  (credentials_complete w u p s o = true ->
   match dispatch_failure w job with
   | Some cause =>
       outcome run = Ok false /\
       last (trace run) =
         Some (Log ERROR (txt "Failed to send email to candidate: " ++
                          exn_str cause))
   | None => outcome run = Ok true
   end) /\
  (credentials_complete w u p s o = true ->
   forall e, first_failure w job smtp_steps = Some e ->
   outcome run = Ok false /\
   exists cause,
     last (trace run) =
       Some (Log ERROR (txt "Failed to send email to candidate: " ++
                        exn_str cause)) /\
     (cause = e \/ smtp_quit w job = Raise cause)) /\
  (dispatch_failure w job = None <->
   (forall step, In step smtp_steps -> smtp w step job = Ok tt) /\
   smtp_quit w job = Ok tt) /\
  (smtp_quit w job = Ok tt ->
   dispatch_failure w job = first_failure w job smtp_steps) /\
  (exists reply, outcome (_handle_send_request w u p s o a) = Ok reply) /\
  (forall d, generated_email a = Some d ->
   credentials_complete w u p s o = false ->
   outcome (_handle_send_request w u p s o a) = Ok (failed_to_send a) /\
   Forall (fun e => is_smtp e = false) (trace (_handle_send_request w u p s o a))).
Proof.
  intros run job. split; [|split; [|split; [|split; [|split; [|split; [|split]]]]]].
  - destruct (send_returns w subject body recipient_email u p s o a)
      as (sent & H & _). exists sent. exact H.
  - intros Hex.
    assert (Hc : credentials_complete w u p s o = false).
    { unfold credentials_complete. apply not_true_is_false. intros Hall.
      rewrite forallb_forall in Hall. apply List.Exists_exists in Hex.
      destruct Hex as (v & Hin & Hv). rewrite (Hall v Hin) in Hv. discriminate. }
    unfold run. rewrite (send_missing _ _ _ _ _ _ _ _ _ Hc).
    repeat split. repeat constructor.
  - intros Hc.
    destruct (send_complete w subject body recipient_email u p s o a Hc)
      as (_ & _ & Hr).
    fold job in Hr. fold run in Hr.
    destruct (dispatch_failure w job); [exact Hr | exact (proj1 Hr)].
  - intros Hc e He.
    destruct (send_complete w subject body recipient_email u p s o a Hc)
      as (_ & _ & Hr).
    fold job in Hr. fold run in Hr.
    destruct (proj2 (dispatch_failure_step w job) e He) as (cause & Hd & Hcause).
    rewrite Hd in Hr. destruct Hr as [Ho Hl].
    split; [exact Ho|]. exists cause. split; [exact Hl | exact Hcause].
  - apply dispatch_failure_none.
  - apply dispatch_failure_step.
  - destruct (generated_email a) as [d|] eqn:Hd.
    + destruct (handle_send_with_draft w u p s o a d Hd) as (_ & _ & ->).
      destruct (outcome _) as [[]|]; eexists; reflexivity.
    + rewrite (handle_send_without_draft _ _ _ _ _ _ Hd). eexists; reflexivity.
  - intros d Hd Hc.
    destruct (handle_send_with_draft w u p s o a d Hd) as (-> & _ & ->).
    rewrite (send_missing _ _ _ _ _ _ _ _ _ Hc). split; [reflexivity|].
    repeat constructor.
Qed.

(** A session of the example: a candidate and an agent with no draft. *)
Definition sample_agent : Agent :=
  {| resume_data := ∅;
     job_description_text := txt "Backend engineer";
     candidate_email := txt "j.doe@example.com";
     hr_name := txt "HR Team";
     llm := DeepSeek;
     message_history := [SystemMessage (txt "You are an expert HR assistant")];
     generated_email := None |}.

Lemma C6_dispatch_returns_a_result_witness :
  outcome (_send_email_to_candidate only_deepseek (txt "Interview")
             (txt "Dear candidate") (txt "j.doe@example.com")
             (Some (txt "hr@example.com")) None (Some (txt "smtp.example.com"))
             (Some (txt "587")) sample_agent) = Ok false.
Proof.
  apply (proj1 (proj2 (C6_dispatch_returns_a_result only_deepseek
           (txt "Interview") (txt "Dear candidate") (txt "j.doe@example.com")
           (Some (txt "hr@example.com")) None (Some (txt "smtp.example.com"))
           (Some (txt "587")) sample_agent))).
  apply Exists_cons_tl, Exists_cons_hd. reflexivity.
Defined.

(** ** Drafts *)

Lemma lstrip_clean (s : text) :
  match Py.lstrip s with
  | c :: _ => Py.isspace c = false
  | [] => True
  end.
Proof.
  induction s as [|c s IH]; simpl; [exact I|].
  destruct (Py.isspace c) eqn:Hc; [exact IH | exact Hc].
Qed.

Lemma lstrip_id (s : text) :
  match s with
  | c :: _ => Py.isspace c = false
  | [] => True
  end ->
  Py.lstrip s = s.
Proof. destruct s as [|c s]; simpl; [reflexivity | intros ->; reflexivity]. Qed.

Lemma lstrip_snoc (s : text) (c : ascii) :
  Py.isspace c = false -> Py.lstrip (s ++ [c]) = Py.lstrip s ++ [c].
Proof.
  intros Hc. induction s as [|d s IH]; simpl.
  - rewrite Hc. reflexivity.
  - destruct (Py.isspace d); [exact IH | reflexivity].
Qed.

Lemma rstrip_idempotent (s : text) : Py.rstrip (Py.rstrip s) = Py.rstrip s.
Proof.
  unfold Py.rstrip. rewrite rev_involutive.
  rewrite (lstrip_id (Py.lstrip (rev s))); [reflexivity | apply lstrip_clean].
Qed.

Lemma rstrip_keeps_head (s : text) :
  match s with
  | c :: _ => Py.isspace c = false
  | [] => True
  end ->
  match Py.rstrip s with
  | c :: _ => Py.isspace c = false
  | [] => True
  end.
Proof.
  destruct s as [|c s]; [intros _; exact I|]. intros Hc.
  unfold Py.rstrip. simpl rev. rewrite (lstrip_snoc _ _ Hc).
  rewrite rev_app_distr. simpl. exact Hc.
Qed.

Lemma strip_idempotent (s : text) : Py.strip (Py.strip s) = Py.strip s.
Proof.
  unfold Py.strip.
  rewrite (lstrip_id (Py.rstrip (Py.lstrip s))).
  - apply rstrip_idempotent.
  - apply rstrip_keeps_head, lstrip_clean.
Qed.

(** The subject and the draft that [_generate_email] derives from the
    instruction and from the reply of the model. *)
Definition subject_of (query : text) : text :=
  match Re.search subject_pattern query with
  | Some group1 => Py.strip group1
  | None => txt "Regarding Your Application"
  end.

Definition draft_of (query email_body : text) (a : Agent) : Draft :=
  {| subject := subject_of query;
     body := Py.strip email_body;
     to := candidate_email a |}.

Lemma generate_run w ep fe query a :
  let run := _generate_email w ep fe query a in
  match ep (resume_data a) (job_description_text a) query with
  | Raise e => run = ([], a, Raise e)
  | Ok prompt =>
      match llm_invoke w prompt with
      | Raise e => run = ([LlmInvoke prompt], a, Raise e)
      | Ok email_body =>
          exists reply,
            run = ([LlmInvoke prompt],
                   set_generated_email (draft_of query email_body a) a,
                   Ok reply)
      end
  end.
Proof.
  intros run. unfold run, _generate_email. rewrite bind_get.
  fold (subject_of query).
  destruct (ep _ _ _) as [prompt|e]; [|rewrite bind_lift_raise; reflexivity].
  rewrite bind_lift_ok, bind_emit.
  destruct (llm_invoke w prompt) as [email_body|e];
    [|rewrite bind_lift_raise; reflexivity].
  rewrite bind_lift_ok, bind_put.
  destruct (extract_candidate_name_total
              (set_generated_email (draft_of query email_body a) a))
    as [name Hn].
  unfold bind. fold (draft_of query email_body a). rewrite Hn.
  unfold ret. simpl. eexists. reflexivity.
Qed.

Lemma generate_keeps_history w ep fe query a :
  message_history (final (_generate_email w ep fe query a)) = message_history a.
Proof.
  pose proof (generate_run w ep fe query a) as H. cbv zeta in H.
  destruct (ep _ _ _); [destruct (llm_invoke w _)|].
  - destruct H as [reply ->]. reflexivity.
  - rewrite H. reflexivity.
  - rewrite H. reflexivity.
Qed.

Lemma handle_send_keeps_agent w u p s o a :
  final (_handle_send_request w u p s o a) = a.
Proof.
  destruct (generated_email a) as [d|] eqn:Hd.
  - destruct (handle_send_with_draft w u p s o a d Hd) as (_ & H & _). exact H.
  - rewrite (handle_send_without_draft _ _ _ _ _ _ Hd). reflexivity.
Qed.

(** ** The conversation history *)

Lemma bind_add_message {B : Type} (msg : message) (k : unit -> M Agent B)
    (a : Agent) :
  bind (add_message msg) k a = k tt (set_history (message_history a ++ [msg]) a).
Proof.
  unfold bind, add_message.
  destruct (k tt (set_history (message_history a ++ [msg]) a)) as [[t s'] r].
  reflexivity.
Qed.

Lemma set_history_same (a : Agent) : set_history (message_history a) a = a.
Proof. destruct a; reflexivity. Qed.

(** The messages handed to the model for a regular query. *)
Definition messages_for (history : list message) : list (text * text) :=
  system_entry history ++
  omap role_of (filter (fun msg => is_system msg = false) history) ++
  [(txt "human", txt "{input}")].

(** A regular query asked of an agent whose history has a system
    message. *)
Lemma regular_query_run w sp query a :
  filter (fun msg => is_system msg = true) (message_history a) <> [] ->
  regular_query w sp query a =
  ([ChainInvoke (messages_for (message_history a)) query],
   match chain_invoke w (messages_for (message_history a)) query with
   | Ok response_text =>
       set_history (message_history a ++
                    [HumanMessage query; AIMessage response_text]) a
   | Raise _ => a
   end,
   chain_invoke w (messages_for (message_history a)) query).
Proof.
  intros Hsys. unfold regular_query. rewrite bind_get.
  destruct (filter _ (message_history a)) as [|m ms] eqn:Hf; [congruence|].
  rewrite bind_ret, bind_get, bind_emit.
  fold (messages_for (message_history a)).
  destruct (chain_invoke w _ query) as [resp|e].
  - rewrite bind_lift_ok, !bind_add_message. unfold ret. simpl.
    rewrite <- app_assoc. reflexivity.
  - rewrite bind_lift_raise. reflexivity.
Qed.

(** Whatever the history, a regular query changes nothing but the
    history. *)
Ltac run_m :=
  repeat first
    [ rewrite bind_assoc | rewrite bind_get | rewrite bind_ret
    | rewrite bind_lift_ok | rewrite bind_lift_raise | rewrite bind_put
    | rewrite bind_add_message | rewrite bind_emit ].

Lemma regular_query_frame w sp query a :
  exists h, final (regular_query w sp query a) = set_history h a.
Proof.
  destruct (filter (fun msg => is_system msg = true) (message_history a))
    as [|m ms] eqn:Hf.
  - unfold regular_query. rewrite bind_get, Hf. cbv iota.
    unfold _initialize_context. run_m.
    destruct (sp _ _ _) as [prompt|e]; run_m.
    + destruct (chain_invoke w _ query) as [resp|e]; run_m;
        eexists; reflexivity.
    + exists (message_history a). rewrite set_history_same. reflexivity.
  - rewrite regular_query_run by (rewrite Hf; discriminate).
    destruct (chain_invoke w _ query); eexists; unfold final; simpl;
      [reflexivity | symmetry; apply set_history_same].
Qed.

(** A call of [chat] with what it meets outside, and the sessions that
    a sequence of calls makes. *)
Record Call : Type := {
  call_world : World;
  call_query : text;
  call_username : option text;
  call_password : option text;
  call_server : option text;
  call_port : option text
}.

Section Sessions.
Variable system_prompt : dict -> text -> text -> result text.
Variable email_prompt : dict -> text -> text -> result text.
Variable format_email : text -> text -> text -> text -> text.

Definition chat_call (c : Call) (a : Agent) : list effect * Agent * result text :=
  chat (call_world c) system_prompt email_prompt format_email (call_query c)
    (call_username c) (call_password c) (call_server c) (call_port c) a.

(** The call is a generate-email request that returned a reply. *)
Definition generated (c : Call) (a : Agent) : bool :=
  match classify (call_query c), outcome (chat_call c a) with
  | GenerateEmail, Ok _ => true
  | _, _ => false
  end.

(** The agent after the calls, provided none of them was a
    generate-email request that returned a reply. *)
Fixpoint session_without_draft (calls : list Call) (a : Agent) : option Agent :=
  match calls with
  | [] => Some a
  | c :: rest =>
      if generated c a then None
      else session_without_draft rest (final (chat_call c a))
  end.

(** The agent after the calls. *)
Definition session (calls : list Call) (a : Agent) : Agent :=
  fold_left (fun a c => final (chat_call c a)) calls a.

Lemma chat_draft_origin (c : Call) (a : Agent) :
  generated_email a = None ->
  generated c a = false ->
  generated_email (final (chat_call c a)) = None.
Proof using Type.
  intros Hd Hg. unfold generated in Hg. unfold chat_call in *.
  unfold chat, classify in *.
  destruct (_is_email_request (call_query c)).
  - pose proof (generate_run (call_world c) email_prompt format_email
                  (call_query c) a) as H. cbv zeta in H.
    destruct (email_prompt _ _ _); [destruct (llm_invoke _ _)|].
    + destruct H as [reply H]. rewrite H in Hg. discriminate.
    + rewrite H. exact Hd.
    + rewrite H. exact Hd.
  - destruct (_is_send_request (call_query c)).
    + rewrite handle_send_keeps_agent. exact Hd.
    + destruct (regular_query_frame (call_world c) system_prompt
                  (call_query c) a) as [h ->]. exact Hd.
Qed.

Lemma session_without_draft_spec (calls : list Call) (a a' : Agent) :
  generated_email a = None ->
  session_without_draft calls a = Some a' ->
  a' = session calls a /\ generated_email a' = None.
Proof using Type.
  revert a. induction calls as [|c rest IH]; intros a Hd; simpl.
  - intros [= <-]. split; [reflexivity | exact Hd].
  - destruct (generated c a) eqn:Hg; [discriminate|].
    apply IH, chat_draft_origin; assumption.
Qed.
End Sessions.

Lemma init_agent w sp (S : Type) (s : S) resume_data job_description_text
    candidate_email hr_name (a : Agent) :
  outcome (__init__ w sp resume_data job_description_text candidate_email
             hr_name s) = Ok a ->
  generated_email a = None /\
  exists prompt, message_history a = [SystemMessage prompt].
Proof.
  unfold __init__, bind.
  destruct (hr_conversational_agent.get_llm_model w s) as [[t1 s1] [m|e]];
    [|discriminate].
  unfold _initialize_context. run_m.
  destruct (sp _ _ _) as [prompt|e]; run_m.
  - unfold add_message, outcome. simpl. intros [= <-].
    split; [reflexivity | exists prompt; reflexivity].
  - unfold outcome. simpl. discriminate.
Qed.

(** C5. A send-email request made while no generate-email request has
    returned a reply yet is answered with the fixed nothing-to-send
    message, as a normal reply, with nothing logged, nothing asked of
    the outside and the agent unchanged; a new agent has no draft.
    After a generate-email request that returned, the draft holds the
    subject taken from the instruction and the stripped reply of the
    model.  A send-email request then works with exactly this subject
    and this body, addressed to the candidate: with the four transport
    parameters set, the steps of the SMTP dialogue it takes are the
    five steps in their order up to the first that raises, every one
    of them with the message made of the stored subject and body, so
    that this message is the one handed over for sending once the
    connection is made and the log-in accepted; with a parameter
    missing it takes no step.  It leaves the agent as it was, draft
    included, so that a second send-email request works with the same
    draft. *)
Theorem C5_draft_round_trip
    (sp ep : dict -> text -> text -> result text)
    (fe : text -> text -> text -> text -> text) :
  (forall (w : World) (resume_data : dict)
          (job_description_text candidate_email hr_name : text) (a : Agent),
     outcome (__init__ w sp resume_data job_description_text candidate_email
                hr_name tt) = Ok a ->
     generated_email a = None) /\
  (forall (calls : list Call) (a0 a : Agent) (c : Call),
     generated_email a0 = None ->
     session_without_draft sp ep fe calls a0 = Some a ->
     classify (call_query c) = SendEmail ->
     chat_call sp ep fe c a = ([], a, Ok nothing_to_send)) /\
  (forall (c1 c2 c3 : Call) (a : Agent),
     classify (call_query c1) = GenerateEmail ->
     is_ok (outcome (chat_call sp ep fe c1 a)) = true ->
     classify (call_query c2) = SendEmail ->
     classify (call_query c3) = SendEmail ->
     let a1 := final (chat_call sp ep fe c1 a) in
     let a2 := final (chat_call sp ep fe c2 a1) in
     let a3 := final (chat_call sp ep fe c3 a2) in
     exists email_body,
       let d := draft_of (call_query c1) email_body a in
       generated_email a1 = Some d /\
       a2 = a1 /\ a3 = a1 /\
       forall c, c = c2 \/ c = c3 ->
         let w := call_world c in
         let job :=
           job_of w (subject d) (body d) (candidate_email a) (call_username c)
             (call_password c) (call_server c) (call_port c) in
         let send := chat_call sp ep fe c a1 in
         job_subject job = subject_of (call_query c1) /\
         job_content job = Py.strip email_body /\
         job_content job = body d /\
         job_to job = candidate_email a /\
         if credentials_complete w (call_username c) (call_password c)
              (call_server c) (call_port c)
         then
           List.filter is_smtp (trace send) =
             map (fun step => SmtpDialogue step job)
               (attempted w job smtp_steps) /\
           (first_failure w job [Compose; Connect; StartTLS; Login] = None ->
            In (SmtpDialogue SendMessage job) (trace send)) /\
           outcome send =
             Ok (match dispatch_failure w job with
                 | None => sent_successfully a
                 | Some _ => failed_to_send a
                 end)
         else
           trace send = [Log ERROR (txt "Missing email credentials")] /\
           outcome send = Ok (failed_to_send a)).
Proof.
  split; [|split].
  - intros w rd jd ce hn a Hinit.
    apply (init_agent w sp unit tt rd jd ce hn a Hinit).
  - intros calls a0 a c H0 Hs Hc.
    destruct (session_without_draft_spec sp ep fe calls a0 a H0 Hs) as [_ Hd].
    unfold chat_call, chat. unfold classify in Hc.
    destruct (_is_email_request (call_query c)); [discriminate|].
    destruct (_is_send_request (call_query c)); [|discriminate].
    apply handle_send_without_draft, Hd.
  - intros c1 c2 c3 a Hc1 Hok Hc2 Hc3 a1 a2 a3.
    assert (Hsend : forall c a', classify (call_query c) = SendEmail ->
              chat_call sp ep fe c a' =
              _handle_send_request (call_world c) (call_username c)
                (call_password c) (call_server c) (call_port c) a').
    { intros c a' Hc. unfold chat_call, chat. unfold classify in Hc.
      destruct (_is_email_request (call_query c)); [discriminate|].
      destruct (_is_send_request (call_query c)); [reflexivity | discriminate]. }
    assert (Hgen : exists email_body reply prompt,
              chat_call sp ep fe c1 a =
              ([LlmInvoke prompt],
               set_generated_email (draft_of (call_query c1) email_body a) a,
               Ok reply)).
    { revert Hok. unfold chat_call, chat. unfold classify in Hc1.
      destruct (_is_email_request (call_query c1));
        [|destruct (_is_send_request (call_query c1)); discriminate].
      pose proof (generate_run (call_world c1) ep fe (call_query c1) a) as H.
      cbv zeta in H.
      destruct (ep _ _ _) as [prompt|e]; [destruct (llm_invoke _ _) as [b|e]|].
      - destruct H as [reply H]. intros _. exists b, reply, prompt. exact H.
      - rewrite H. discriminate.
      - rewrite H. discriminate. }
    destruct Hgen as (email_body & reply & prompt & Hgen).
    assert (Ha1 : a1 = set_generated_email (draft_of (call_query c1) email_body a) a).
    { unfold a1. rewrite Hgen. reflexivity. }
    assert (Ha2 : a2 = a1).
    { unfold a2. rewrite (Hsend c2 a1 Hc2). apply handle_send_keeps_agent. }
    assert (Ha3 : a3 = a1).
    { unfold a3. rewrite Ha2, (Hsend c3 a1 Hc3). apply handle_send_keeps_agent. }
    exists email_body. intros d.
    split; [rewrite Ha1; reflexivity|].
    split; [exact Ha2|]. split; [exact Ha3|].
    intros c Hc w job send.
    assert (Hcs : classify (call_query c) = SendEmail) by (destruct Hc; subst; assumption).
    split; [reflexivity|].
    split; [apply strip_idempotent|].
    split; [apply strip_idempotent|].
    split; [reflexivity|].
    assert (Hd : generated_email a1 = Some d) by (rewrite Ha1; reflexivity).
    assert (Hce : candidate_email a1 = candidate_email a) by (rewrite Ha1; reflexivity).
    unfold send. rewrite (Hsend c a1 Hcs).
    destruct (handle_send_with_draft (call_world c) (call_username c)
                (call_password c) (call_server c) (call_port c) a1 d Hd)
      as (-> & _ & ->).
    rewrite Hce. fold w.
    destruct (credentials_complete w (call_username c) (call_password c)
                (call_server c) (call_port c)) eqn:Hcred.
    + destruct (send_complete w (subject d) (body d) (candidate_email a)
                  (call_username c) (call_password c) (call_server c)
                  (call_port c) a1 Hcred) as (_ & Hsteps & Hres).
      fold job in Hsteps, Hres.
      split; [exact Hsteps|]. split.
      * intros Hfour.
        assert (Hin : In (SmtpDialogue SendMessage job)
                        (map (fun step => SmtpDialogue step job)
                           (attempted w job smtp_steps))).
        { apply (in_map (fun step => SmtpDialogue step job)).
          revert Hfour. unfold first_failure, attempted, smtp_steps.
          destruct (smtp w Compose job); [|discriminate].
          destruct (smtp w Connect job); [|discriminate].
          destruct (smtp w StartTLS job); [|discriminate].
          destruct (smtp w Login job); [|discriminate].
          intros _. simpl. tauto. }
        rewrite <- Hsteps in Hin. apply filter_In in Hin. exact (proj1 Hin).
      * unfold sent_successfully, failed_to_send. rewrite Hce.
        destruct (dispatch_failure w job); destruct Hres as [-> _]; reflexivity.
    + rewrite (send_missing _ _ _ _ _ _ _ _ _ Hcred).
      unfold failed_to_send. rewrite Hce. split; reflexivity.
Qed.

(** The sample collaborators of the examples: the three texts. *)
Definition sample_system_prompt (_ : dict) (_ _ : text) : result text :=
  Ok (txt "You are an expert HR assistant").
Definition sample_email_prompt (_ : dict) (_ query : text) : result text :=
  Ok query.
Definition sample_format_email (_ _ body _ : text) : text := body.

Definition sample_call (query : string) : Call :=
  {| call_world := only_deepseek;
     call_query := txt query;
     call_username := Some (txt "hr@example.com");
     call_password := Some (txt "app-password");
     call_server := Some (txt "smtp.example.com");
     call_port := Some (txt "587") |}.

Lemma C5_draft_round_trip_witness :
  let generate := sample_call "draft email, subject: Interview" in
  let send := sample_call "send it" in
  let chat_call :=
    chat_call sample_system_prompt sample_email_prompt sample_format_email in
  final (chat_call send (final (chat_call generate sample_agent))) =
  final (chat_call generate sample_agent).
Proof.
  intros generate send chat_call.
  destruct (proj2 (proj2 (C5_draft_round_trip sample_system_prompt
                            sample_email_prompt sample_format_email))
              generate send send sample_agent) as (email_body & _ & H & _);
    [vm_compute; reflexivity .. | exact H].
Defined.

(** The history starts with its only system message. *)
Definition one_system_first (history : list message) : Prop :=
  exists prompt rest,
    history = SystemMessage prompt :: rest /\
    Forall (fun msg => is_system msg = false) rest.

Lemma filter_all {A : Type} (P : A -> Prop) `{forall x, Decision (P x)}
    (l : list A) :
  Forall P l -> filter P l = l.
Proof.
  induction 1 as [|x l Hx _ IH]; [reflexivity|].
  rewrite filter_cons_True by exact Hx. rewrite IH. reflexivity.
Qed.

Lemma filter_none {A : Type} (P : A -> Prop) `{forall x, Decision (P x)}
    (l : list A) :
  Forall (fun x => ~ P x) l -> filter P l = [].
Proof.
  induction 1 as [|x l Hx _ IH]; [reflexivity|].
  rewrite filter_cons_False by exact Hx. exact IH.
Qed.

Lemma one_system_first_filters (prompt : text) (rest : list message) :
  Forall (fun msg => is_system msg = false) rest ->
  filter (fun msg => is_system msg = true) (SystemMessage prompt :: rest) =
    [SystemMessage prompt] /\
  filter (fun msg => is_system msg = false) (SystemMessage prompt :: rest) = rest.
Proof.
  intros Hrest. split.
  - rewrite filter_cons_True by reflexivity. f_equal.
    apply filter_none. eapply Forall_impl; [exact Hrest|].
    intros m Hm. simpl in Hm. rewrite Hm. discriminate.
  - rewrite filter_cons_False by (simpl; discriminate).
    apply filter_all, Hrest.
Qed.

Lemma one_system_first_snoc (history extra : list message) :
  one_system_first history ->
  Forall (fun msg => is_system msg = false) extra ->
  one_system_first (history ++ extra).
Proof.
  intros (prompt & rest & -> & Hrest) Hextra.
  exists prompt, (rest ++ extra). split; [reflexivity|].
  apply Forall_app. split; assumption.
Qed.

Lemma chat_keeps_one_system sp ep fe (c : Call) (a : Agent) :
  one_system_first (message_history a) ->
  one_system_first (message_history (final (chat_call sp ep fe c a))).
Proof.
  intros Hinv. unfold chat_call, chat.
  destruct (_is_email_request (call_query c)).
  { rewrite generate_keeps_history. exact Hinv. }
  destruct (_is_send_request (call_query c)).
  { rewrite handle_send_keeps_agent. exact Hinv. }
  destruct Hinv as (prompt & rest & Hh & Hrest).
  destruct (one_system_first_filters prompt rest Hrest) as [Hsys _].
  rewrite regular_query_run by (rewrite Hh, Hsys; discriminate).
  unfold final; simpl.
  destruct (chain_invoke _ _ _); simpl.
  - apply one_system_first_snoc; [exists prompt, rest; auto|].
    repeat constructor.
  - exists prompt, rest; auto.
Qed.

(** C9. A generate-email and a send-email request leave the history as
    it is.  A regular query asks the model once, with the system
    context as the first message, then the past exchanges, then the
    query; when the model answers, the query and the answer are
    appended to the history, in this order, and nothing else is; when
    the call raises, the history is unchanged.  The history of a new
    agent is one system message, and after any sequence of calls the
    history still starts with this system message and has no other. *)
Theorem C9_history_frame
    (sp ep : dict -> text -> text -> result text)
    (fe : text -> text -> text -> text -> text) :
  (forall (c : Call) (a : Agent),
     classify (call_query c) = GenerateEmail \/
     classify (call_query c) = SendEmail ->
     message_history (final (chat_call sp ep fe c a)) = message_history a) /\
  (forall (c : Call) (a : Agent) (prompt : text) (rest : list message),
     classify (call_query c) = Query ->
     message_history a = SystemMessage prompt :: rest ->
     Forall (fun msg => is_system msg = false) rest ->
     let run := chat_call sp ep fe c a in
     trace run =
       [ChainInvoke ((txt "system", prompt) :: omap role_of rest ++
                     [(txt "human", txt "{input}")]) (call_query c)] /\
     match outcome run with
     | Ok response_text =>
         message_history (final run) =
         message_history a ++
           [HumanMessage (call_query c); AIMessage response_text]
     | Raise _ => message_history (final run) = message_history a
     end) /\
  (forall (w : World) (resume_data : dict)
          (job_description_text candidate_email hr_name : text) (a : Agent),
     outcome (__init__ w sp resume_data job_description_text candidate_email
                hr_name tt) = Ok a ->
     exists prompt, message_history a = [SystemMessage prompt]) /\
  (forall (calls : list Call) (a : Agent),
     one_system_first (message_history a) ->
     one_system_first (message_history (session sp ep fe calls a)) /\
     length (filter (fun msg => is_system msg = true)
               (message_history (session sp ep fe calls a))) = 1%nat).
Proof.
  split; [|split; [|split]].
  - intros c a Hc. unfold chat_call, chat. unfold classify in Hc.
    destruct (_is_email_request (call_query c)).
    { apply generate_keeps_history. }
    destruct (_is_send_request (call_query c)).
    { rewrite handle_send_keeps_agent. reflexivity. }
    destruct Hc; discriminate.
  - intros c a prompt rest Hc Hh Hrest run.
    destruct (one_system_first_filters prompt rest Hrest) as [Hsys Hconv].
    assert (Hrun : run = regular_query (call_world c) sp (call_query c) a).
    { unfold run, chat_call, chat. unfold classify in Hc.
      destruct (_is_email_request (call_query c)); [discriminate|].
      destruct (_is_send_request (call_query c)); [discriminate|]. reflexivity. }
    rewrite regular_query_run in Hrun by (rewrite Hh, Hsys; discriminate).
    assert (Hm : messages_for (message_history a) =
                 (txt "system", prompt) :: omap role_of rest ++
                 [(txt "human", txt "{input}")]).
    { unfold messages_for, system_entry. rewrite Hh, Hsys, Hconv. reflexivity. }
    rewrite Hm in Hrun. rewrite Hrun. unfold trace, outcome, final. simpl.
    split; [reflexivity|].
    destruct (chain_invoke _ _ _); reflexivity.
  - intros w rd jd ce hn a Hinit.
    apply (init_agent w sp unit tt rd jd ce hn a Hinit).
  - intros calls. induction calls as [|c rest IH]; intros a Hinv.
    + split; [exact Hinv|]. simpl.
      destruct Hinv as (prompt & rest & -> & Hrest).
      destruct (one_system_first_filters prompt rest Hrest) as [-> _].
      reflexivity.
    + simpl. apply IH, chat_keeps_one_system, Hinv.
Qed.

Lemma C9_history_frame_witness :
  let chat_call :=
    chat_call sample_system_prompt sample_email_prompt sample_format_email in
  message_history (final (chat_call (sample_call "send it") sample_agent)) =
  message_history sample_agent.
Proof.
  intros chat_call.
  apply (proj1 (C9_history_frame sample_system_prompt sample_email_prompt
                  sample_format_email)).
  right. vm_compute. reflexivity.
Defined.

(** ** Redaction *)

Lemma startswith_app (p r : text) : Py.startswith p (p ++ r) = true.
Proof. apply startswith_spec. exists r. reflexivity. Qed.

Lemma replace_go_skip (old new : text) (k : nat) (s : text) :
  Py.replace_go old new k s = Py.replace_go old new 0 (drop k s).
Proof.
  revert s. induction k as [|k IH]; intros s; [reflexivity|].
  destruct s as [|c s]; [reflexivity|]. simpl. apply IH.
Qed.

Lemma replace_absent (old new s : text) :
  ~ occurs old s -> Py.replace old new s = s.
Proof.
  unfold Py.replace. induction s as [|c s IH]; intros Hno; [reflexivity|].
  simpl. destruct (Py.startswith old (c :: s)) eqn:Hsw.
  - exfalso. apply Hno. apply startswith_spec in Hsw as [r Hr].
    exists [], r. exact Hr.
  - f_equal. apply IH. intros (a & b & H). apply Hno.
    exists (c :: a), b. rewrite H. reflexivity.
Qed.

(** [old] occurs in [a ++ old ++ b] at the end of [a] and not before. *)
Definition first_at (old a : text) : Prop :=
  ~ occurs old (a ++ take (length old - 1) old).

Lemma replace_first (old new a b : text) :
  old <> [] -> first_at old a ->
  Py.replace old new (a ++ old ++ b) = a ++ new ++ Py.replace old new b.
Proof.
  intros Hne. unfold Py.replace, first_at.
  induction a as [|c a IH]; intros Hfirst.
  - destruct old as [|o old]; [congruence|]. simpl app at 1.
    cbn [Py.replace_go]. change (o :: old ++ b) with ((o :: old) ++ b).
    rewrite startswith_app. rewrite replace_go_skip. simpl length.
    replace (S (length old) - 1) with (length old) by lia.
    rewrite drop_app_length. reflexivity.
  - simpl. destruct (Py.startswith old (c :: a ++ old ++ b)) eqn:Hsw.
    + exfalso. apply Hfirst. apply startswith_spec in Hsw as [r Hr].
      assert (Hlen : length old <= length ((c :: a) ++ take (length old - 1) old)).
      { rewrite length_app, length_take. simpl.
        destruct old; [congruence|]. simpl; lia. }
      exists [], (drop (length old) ((c :: a) ++ take (length old - 1) old)).
      assert (Hpre : take (length old) ((c :: a) ++ take (length old - 1) old)
                     = old).
      { assert (H1 : take (length old) ((c :: a) ++ old ++ b) = old).
        { change (c :: a ++ old ++ b) with ((c :: a) ++ old ++ b) in Hr.
          rewrite Hr. apply take_app_length. }
        assert (E : (c :: a) ++ old ++ b =
                    ((c :: a) ++ take (length old - 1) old) ++
                    (drop (length old - 1) old ++ b)).
        { rewrite <- (app_assoc (c :: a)). f_equal.
          rewrite app_assoc, take_drop. reflexivity. }
        rewrite E in H1. rewrite take_app_le in H1 by exact Hlen. exact H1. }
      set (X := (c :: a) ++ take (length old - 1) old) in *.
      transitivity (take (length old) X ++ drop (length old) X);
        [symmetry; apply take_drop | rewrite Hpre; reflexivity].
    + f_equal. apply IH. intros (x & y & H). apply Hfirst.
      exists (c :: x), y. simpl. rewrite H. reflexivity.
Qed.

(** Either [old] does not occur in [s], or it has a first occurrence. *)
Lemma first_occurrence (old s : text) :
  old <> [] ->
  ~ occurs old s \/
  exists a b, s = a ++ old ++ b /\ first_at old a.
Proof.
  intros Hne. induction s as [|c s IH].
  - left. intros (a & b & H). destruct a; [|discriminate].
    destruct old; [congruence | discriminate].
  - destruct (Py.startswith old (c :: s)) eqn:Hsw.
    + right. apply startswith_spec in Hsw as [r Hr]. exists [], r.
      split; [exact Hr|]. unfold first_at. simpl.
      intros (x & y & H). apply (f_equal length) in H.
      rewrite !length_app, length_take in H.
      destruct old; [congruence|]. simpl in H. lia.
    + destruct IH as [Hno | (a & b & -> & Hfirst)].
      * left. intros (x & y & H). destruct x as [|d x]; simpl in H.
        -- assert (Py.startswith old (c :: s) = true)
             by (apply startswith_spec; exists y; exact H).
           congruence.
        -- injection H as _ H. apply Hno. exists x, y. exact H.
      * right. exists (c :: a), b. split; [reflexivity|].
        unfold first_at in *. intros (x & y & H).
        destruct x as [|d x]; simpl in H.
        -- assert (Hs : Py.startswith old (c :: a ++ old ++ b) = true).
           { apply startswith_spec.
             exists (y ++ drop (length old - 1) old ++ b).
             rewrite <- (take_drop (length old - 1) old) at 1.
             rewrite <- !app_assoc. rewrite (app_assoc a), app_comm_cons, H.
             rewrite <- !app_assoc. reflexivity. }
           congruence.
        -- injection H as _ H. apply Hfirst. exists x, y. exact H.
Qed.

Lemma occurs_left (k x y : text) : occurs k x -> occurs k (x ++ y).
Proof.
  intros (a & b & ->). exists a, (b ++ y). rewrite <- !app_assoc. reflexivity.
Qed.

Lemma occurs_right (k x y : text) : occurs k y -> occurs k (x ++ y).
Proof.
  intros (a & b & ->). exists (x ++ a), b. rewrite <- !app_assoc. reflexivity.
Qed.

(** The secret has no ["*"]. *)
Definition star_free (key : text) : Prop := ~ In "*"%char key.

(** None of the first 1 to 4 characters of the secret is repeated as
    its last 1 to 4. *)
Definition border_free (key : text) : Prop :=
  forall j, 1 <= j <= 4 -> take j key <> drop (length key - j) key.

Lemma occurs_around_stars (key X Y : text) :
  key <> [] -> star_free key ->
  occurs key (X ++ txt "***" ++ Y) -> occurs key X \/ occurs key Y.
Proof.
  intros Hne Hstar (a & b & E).
  apply app_eq_app in E as [l [[-> E] | [-> E]]].
  - apply app_eq_app in E as [l' [[Ek E] | [-> E]]].
    + destruct l' as [|c l'].
      * left. exists a, []. rewrite app_nil_r in Ek. rewrite Ek, app_nil_r.
        reflexivity.
      * exfalso. apply Hstar. rewrite Ek. injection E as <- _.
        apply in_or_app. right. left. reflexivity.
    + left. exists a, l'. rewrite <- ?app_assoc. reflexivity.
  - destruct key as [|k0 key']; [congruence|].
    unfold txt in E.
    destruct l as [|c1 [|c2 [|c3 l]]]; simplify_eq/=;
      try (exfalso; apply Hstar; left; reflexivity).
    right. exists l, b. reflexivity.
Qed.

Section Redacted.
Variables key H T : text.
Hypothesis Hne : key <> [].
Hypothesis Hstar : star_free key.
Hypothesis HT : forall x, occurs key (T ++ x) -> occurs key x.
Hypothesis HH : forall x, occurs key (x ++ H) -> occurs key x.

Lemma redacted_clean (s : text) :
  ~ occurs key (T ++ Py.replace key (H ++ txt "***" ++ T) s).
Proof using Hne Hstar HT HH.
  induction s as [s IH] using (induction_ltof1 _ (@length ascii)).
  unfold ltof in IH.
  destruct (first_occurrence key s Hne) as [Hno | (a & b & -> & Hfirst)].
  - rewrite replace_absent by exact Hno. intros Hocc. apply Hno, HT, Hocc.
  - rewrite replace_first by assumption.
    replace (T ++ a ++ (H ++ txt "***" ++ T) ++
             Py.replace key (H ++ txt "***" ++ T) b)
      with ((T ++ a ++ H) ++ txt "***" ++
            (T ++ Py.replace key (H ++ txt "***" ++ T) b))
      by (rewrite <- !app_assoc; reflexivity).
    intros Hocc. apply occurs_around_stars in Hocc as [Hocc | Hocc]; [| |assumption..].
    + apply HT in Hocc. apply HH in Hocc. apply Hfirst.
      apply occurs_left, Hocc.
    + revert Hocc. apply IH. rewrite !length_app.
      destruct key; [congruence | simpl; lia].
Qed.
End Redacted.

Lemma border_free_tail (key x : text) :
  8 < length key -> border_free key ->
  occurs key (drop (length key - 4) key ++ x) -> occurs key x.
Proof.
  intros Hlen Hb (a & b & E).
  apply app_eq_app in E as [l [[E1 E2] | [E1 E2]]].
  2:{ exists l, b. exact E2. }
  destruct l as [|c l'] eqn:Hl.
  { exists [], b. simpl in E2. rewrite <- E2. reflexivity. }
  rewrite <- Hl in *.
  assert (Hpos : 1 <= length l) by (rewrite Hl; simpl; lia). clear Hl.
  assert (Hj : 1 <= length l <= 4).
  { apply (f_equal length) in E1. rewrite length_drop, length_app in E1. lia. }
  exfalso. apply (Hb (length l) Hj).
  assert (H1 : take (length l) key = l).
  { apply (f_equal (take (length l))) in E2.
    rewrite take_app_le in E2 by lia. rewrite take_app_length in E2. exact E2. }
  assert (H2 : drop (length key - length l) key = l).
  { assert (Hla : length a + length l = 4).
    { apply (f_equal length) in E1. rewrite length_drop, length_app in E1. lia. }
    apply (f_equal (drop (length a))) in E1.
    rewrite drop_drop, drop_app_length in E1. rewrite <- E1 at 2. f_equal. lia. }
  congruence.
Qed.

Lemma border_free_head (key x : text) :
  8 < length key -> border_free key ->
  occurs key (x ++ take 4 key) -> occurs key x.
Proof.
  intros Hlen Hb (a & b & E). rewrite app_assoc in E.
  apply app_eq_app in E as [l [[E1 E2] | [E1 E2]]].
  { exists a, l. rewrite E1, <- app_assoc. reflexivity. }
  destruct l as [|c l'] eqn:Hl.
  { exists a, []. rewrite app_nil_r in *. symmetry. exact E1. }
  rewrite <- Hl in *.
  assert (Hpos : 1 <= length l) by (rewrite Hl; simpl; lia). clear Hl.
  assert (Hj : 1 <= length l <= 4).
  { apply (f_equal length) in E2. rewrite length_take, length_app in E2. lia. }
  exfalso. apply (Hb (length l) Hj).
  assert (H1 : take (length l) key = l).
  { transitivity (take (length l) (take 4 key)).
    - rewrite take_take. f_equal. lia.
    - rewrite E2. apply take_app_length. }
  assert (H2 : drop (length key - length l) key = l).
  { assert (Hx : length x = length a + (length key - length l)).
    { apply (f_equal length) in E1. rewrite !length_app in E1. lia. }
    transitivity (drop (length x) (a ++ key)).
    - rewrite Hx, <- drop_drop, drop_app_length. reflexivity.
    - rewrite E1. apply drop_app_length. }
  congruence.
Qed.

(** The last secret processed is not in the output. *)
Lemma last_secret_redacted (message key : text) :
  4 < length key -> star_free key ->
  (8 < length key -> border_free key) ->
  ~ occurs key (logger.mask_key message key).
Proof.
  intros Hlen Hstar Hb. unfold logger.mask_key.
  assert (Hne : key <> []) by (destruct key; [simpl in Hlen; lia | discriminate]).
  assert (Ht : Py.truthy (Some key) = true) by (destruct key; [congruence | reflexivity]).
  rewrite Ht. replace (4 <? length key) with true by (symmetry; apply Nat.ltb_lt; exact Hlen).
  cbn [andb]. unfold logger.masked.
  destruct (8 <? length key) eqn:H8.
  - apply Nat.ltb_lt in H8. specialize (Hb H8).
    intros Hocc.
    apply (redacted_clean key (take 4 key) (drop (length key - 4) key) Hne Hstar
             (fun x => border_free_tail key x H8 Hb)
             (fun x => border_free_head key x H8 Hb) message).
    apply occurs_right, Hocc.
  - intros Hocc.
    apply (redacted_clean key [] [] Hne Hstar (fun x H => H)
             (fun x H => eq_ind _ (occurs key) H _ (app_nil_r x)) message).
    exact Hocc.
Qed.

(** Masking puts nothing into a message that was not there: a text
    without stars that does not occur in a message does not occur in
    it once a key has been masked, since what is kept of the key
    around the stars stood at the same places before. *)
Lemma replace_masked_absent (k old H T : text) :
  k <> [] -> star_free k -> old <> [] ->
  (exists r, old = H ++ r) -> (exists r, old = r ++ T) ->
  forall s X,
    ~ occurs k (X ++ s) ->
    ~ occurs k (X ++ Py.replace old (H ++ txt "***" ++ T) s).
Proof.
  intros Hk Hstar Hold [rh Hh] [rt Ht].
  induction s as [s IH] using (induction_ltof1 _ (@length ascii)).
  unfold ltof in IH. intros X Hno.
  destruct (first_occurrence old s Hold) as [Habs | (a & b & -> & Hfirst)].
  - rewrite replace_absent by exact Habs. exact Hno.
  - rewrite replace_first by assumption.
    replace (X ++ a ++ (H ++ txt "***" ++ T) ++
             Py.replace old (H ++ txt "***" ++ T) b)
      with ((X ++ a ++ H) ++ txt "***" ++
            (T ++ Py.replace old (H ++ txt "***" ++ T) b))
      by (rewrite <- !app_assoc; reflexivity).
    intros Hocc.
    apply occurs_around_stars in Hocc as [Hocc | Hocc]; [| |assumption..].
    + apply Hno.
      replace (X ++ a ++ old ++ b) with ((X ++ a ++ H) ++ (rh ++ b))
        by (rewrite Hh, <- !app_assoc; reflexivity).
      apply occurs_left, Hocc.
    + revert Hocc. apply IH.
      * rewrite !length_app. destruct old; [congruence | simpl; lia].
      * intros Hocc. apply Hno.
        replace (X ++ a ++ old ++ b) with ((X ++ a ++ rt) ++ (T ++ b))
          by (rewrite Ht, <- !app_assoc; reflexivity).
        apply occurs_right, Hocc.
Qed.

Lemma mask_key_keeps_absent (k message key : text) :
  k <> [] -> star_free k ->
  ~ occurs k message -> ~ occurs k (logger.mask_key message key).
Proof.
  intros Hk Hstar Hno. unfold logger.mask_key.
  destruct (Py.truthy (Some key) && (4 <? length key)) eqn:Hc; [|exact Hno].
  apply andb_true_iff in Hc as [_ Hlen]. apply Nat.ltb_lt in Hlen.
  assert (Hne : key <> []) by (destruct key; [simpl in Hlen; lia | discriminate]).
  unfold logger.masked. destruct (8 <? length key).
  - apply (replace_masked_absent k key (take 4 key) (drop (length key - 4) key)
             Hk Hstar Hne) with (X := []); [| |exact Hno].
    + exists (drop 4 key). symmetry. apply take_drop.
    + exists (take (length key - 4) key). symmetry. apply take_drop.
  - apply (replace_masked_absent k key [] [] Hk Hstar Hne) with (X := []);
      [| |exact Hno].
    + exists key. reflexivity.
    + exists key. symmetry. apply app_nil_r.
Qed.

Lemma fold_mask_keeps_absent (k : text) (keys : list text) :
  k <> [] -> star_free k ->
  forall message,
    ~ occurs k message ->
    ~ occurs k (fold_left logger.mask_key keys message).
Proof.
  intros Hk Hstar. induction keys as [|key keys IH]; intros message Hno;
    [exact Hno|].
  simpl. apply IH, mask_key_keeps_absent; assumption.
Qed.

(** No secret of the list is in the output, wherever it stands in the
    list. *)
Lemma listed_secret_redacted (keys : list text) (message key : text) :
  In key keys ->
  4 < length key -> star_free key ->
  (8 < length key -> border_free key) ->
  ~ occurs key (fold_left logger.mask_key keys message).
Proof.
  intros Hin Hlen Hstar Hb.
  apply in_split in Hin as (l1 & l2 & ->).
  rewrite fold_left_app. simpl.
  apply fold_mask_keeps_absent; [|exact Hstar|].
  - destruct key; [simpl in Hlen; lia | discriminate].
  - apply last_secret_redacted; assumption.
Qed.

Lemma env_secrets_spec (getenv : string -> option text) (v : text) :
  In v (logger.env_secrets getenv) <->
  exists name, In name logger.secret_variables /\ getenv name = Some v /\ v <> [].
Proof.
  unfold logger.env_secrets. rewrite <- list_elem_of_In, list_elem_of_omap.
  split.
  - intros (name & Hin & Hv). exists name. rewrite <- list_elem_of_In.
    split; [exact Hin|].
    destruct (getenv name) as [[|c u]|]; simpl in Hv; try discriminate.
    injection Hv as <-. split; [reflexivity | discriminate].
  - intros (name & Hin & Hv & Hne). exists name. rewrite list_elem_of_In.
    split; [exact Hin|]. rewrite Hv. destruct v; [congruence | reflexivity].
Qed.

Definition configured (getenv : string -> option text)
    (sensitive_keys : option (list text)) : list text :=
  match sensitive_keys with
  | None => logger.env_secrets getenv
  | Some keys => keys
  end.

(** A process whose only secret is a four-character password. *)
Definition short_password_env (name : string) : option text :=
  if bool_decide (name = "ADMIN_PASSWORD"%string) then Some (txt "1234") else None.

(** C8, as the claim states it, fails: a configured secret of four
    characters is left in the message. *)
Lemma C8_short_secret_is_kept :
  In (txt "1234") (logger.env_secrets short_password_env) /\
  logger.sanitize_error_message short_password_env
    (txt "login rejected for password 1234") None
  = txt "login rejected for password 1234" /\
  occurs (txt "1234")
    (logger.sanitize_error_message short_password_env
       (txt "login rejected for password 1234") None).
Proof.
  split; [left; reflexivity|]. split; [vm_compute; reflexivity|].
  apply contains_spec. vm_compute. reflexivity.
Qed.

(** A secret of 5 to 8 characters is replaced by the three stars alone,
    a secret that ends as it begins may survive where two of its
    occurrences overlap, and so may a secret made of stars. *)
Lemma masking_examples :
  logger.sanitize_error_message short_password_env
    (txt "Invalid key sk-1234567890abcd supplied")
    (Some [txt "sk-1234567890abcd"])
  = txt "Invalid key sk-1***abcd supplied" /\
  logger.sanitize_error_message short_password_env
    (txt "bad password hunter2") (Some [txt "hunter2"])
  = txt "bad password ***" /\
  logger.sanitize_error_message short_password_env
    (txt "abcdefghabcdefgha") (Some [txt "abcdefgha"])
  = txt "abcd***fghabcdefgha" /\
  occurs (txt "abcdefgha") (txt "abcd***fghabcdefgha") /\
  logger.sanitize_error_message short_password_env
    (txt "*******") (Some [txt "*****"])
  = txt "*****".
Proof.
  repeat split; try (vm_compute; reflexivity).
  apply contains_spec. vm_compute. reflexivity.
Qed.

(** C8, amended.  The secrets are the given ones or, by default, the
    values of the seven secret variables that are set and not empty.
    Each secret longer than 4 characters has its occurrences, taken
    from left to right without overlap, replaced by its masked form:
    its first 4 and its last 4 characters around three stars when it is
    longer than 8 characters, three stars alone otherwise; a secret of
    at most 4 characters is left in the message.  The output contains
    none of the secrets that are longer than 4 characters, have no
    star and, if longer than 8 characters, have none of their first 1
    to 4 characters equal to their last 1 to 4, whatever the place of
    the secret among the others: masking a secret brings no other
    secret back. *)
Theorem C8_redaction (getenv : string -> option text) (message : text)
    (sensitive_keys : option (list text)) :
  logger.sanitize_error_message getenv message sensitive_keys =
    fold_left logger.mask_key (configured getenv sensitive_keys) message /\
  (forall v, In v (logger.env_secrets getenv) <->
     exists name, In name logger.secret_variables /\
                  getenv name = Some v /\ v <> []) /\
  (forall key, length key <= 4 -> logger.mask_key message key = message) /\
  (forall key, 4 < length key -> ~ occurs key message ->
     logger.mask_key message key = message) /\
  (forall key a b, 4 < length key -> first_at key a ->
     logger.mask_key (a ++ key ++ b) key =
     a ++ logger.masked key ++ logger.mask_key b key) /\
  (forall key, 8 < length key ->
     logger.masked key = take 4 key ++ txt "***" ++ drop (length key - 4) key) /\
  (forall key, length key <= 8 -> logger.masked key = txt "***") /\
  (forall key,
     In key (configured getenv sensitive_keys) ->
     4 < length key -> star_free key ->
     (8 < length key -> border_free key) ->
     ~ occurs key (logger.sanitize_error_message getenv message sensitive_keys)).
Proof.
  assert (Hlong : forall key, 4 < length key ->
            forall s, logger.mask_key s key =
                      Py.replace key (logger.masked key) s).
  { intros key Hlen s. unfold logger.mask_key.
    destruct key; [simpl in Hlen; lia|].
    replace (4 <? length (a :: key)) with true
      by (symmetry; apply Nat.ltb_lt; exact Hlen).
    reflexivity. }
  split; [destruct sensitive_keys; reflexivity|].
  split; [apply env_secrets_spec|].
  split.
  { intros key Hlen. unfold logger.mask_key.
    replace (4 <? length key) with false
      by (symmetry; apply Nat.ltb_ge; exact Hlen).
    rewrite andb_false_r. reflexivity. }
  split.
  { intros key Hlen Hno. rewrite Hlong by exact Hlen.
    apply replace_absent, Hno. }
  split.
  { intros key a b Hlen Hfirst. rewrite !Hlong by exact Hlen.
    apply replace_first; [|exact Hfirst].
    destruct key; [simpl in Hlen; lia | discriminate]. }
  split.
  { intros key Hlen. unfold logger.masked.
    replace (8 <? length key) with true
      by (symmetry; apply Nat.ltb_lt; exact Hlen).
    reflexivity. }
  split.
  { intros key Hlen. unfold logger.masked.
    replace (8 <? length key) with false
      by (symmetry; apply Nat.ltb_ge; exact Hlen).
    reflexivity. }
  intros key Hconf Hlen Hstar Hb.
  assert (E : logger.sanitize_error_message getenv message sensitive_keys =
              fold_left logger.mask_key (configured getenv sensitive_keys) message)
    by (destruct sensitive_keys; reflexivity).
  rewrite E. apply listed_secret_redacted; assumption.
Qed.

Lemma C8_redaction_witness :
  ~ occurs (txt "sk-1234567890abcd")
      (logger.sanitize_error_message short_password_env
         (txt "Invalid key sk-1234567890abcd supplied for hunter2-mail")
         (Some [txt "sk-1234567890abcd"; txt "hunter2-mail"])).
Proof.
  apply (proj2 (proj2 (proj2 (proj2 (proj2 (proj2 (proj2
           (C8_redaction short_password_env
              (txt "Invalid key sk-1234567890abcd supplied for hunter2-mail")
              (Some [txt "sk-1234567890abcd"; txt "hunter2-mail"]))))))))
           (txt "sk-1234567890abcd")).
  - left. reflexivity.
  - vm_compute. lia.
  - unfold star_free. vm_compute. intuition discriminate.
  - intros _ j Hj.
    destruct j as [|[|[|[|[|j]]]]]; try lia; vm_compute; discriminate.
Defined.

(** ** What the matcher finds *)

(** The character before the position reached after [w]. *)
Definition last_of (prev : option ascii) (w : text) : option ascii :=
  match last w with
  | Some c => Some c
  | None => prev
  end.

Lemma last_of_nil prev : last_of prev [] = prev.
Proof. reflexivity. Qed.

Lemma last_of_app prev u v : last_of prev (u ++ v) = last_of (last_of prev u) v.
Proof.
  unfold last_of. rewrite last_app. destruct (last v); [reflexivity|].
  reflexivity.
Qed.

Lemma last_of_cons prev c w : last_of prev (c :: w) = last_of (Some c) w.
Proof. apply (last_of_app prev [c] w). Qed.

(** [matches r prev w rest cin cout]: the pattern [r] can match the
    text [w] when [prev] is the character before it and [rest] the
    text after it; group 1 holds [cin] before and [cout] after.  A
    negative look-ahead holds where the matcher finds no match of its
    body. *)
Fixpoint matches (r : Re.regex) (prev : option ascii) (w rest : text)
    (cin cout : option text) : Prop :=
  match r with
  | Re.Eps => w = [] /\ cout = cin
  | Re.Chr p => (exists c, w = [c] /\ p c = true) /\ cout = cin
  | Re.Rep p lo =>
      Forall (fun c => p c = true) w /\ lo <= length w /\ cout = cin
  | Re.Seq r1 r2 =>
      exists u v cmid,
        w = u ++ v /\ matches r1 prev u (v ++ rest) cin cmid /\
        matches r2 (last_of prev u) v rest cmid cout
  | Re.Alt r1 r2 =>
      matches r1 prev w rest cin cout \/ matches r2 prev w rest cin cout
  | Re.Opt r1 => (w = [] /\ cout = cin) \/ matches r1 prev w rest cin cout
  | Re.Grp r1 => (exists cmid, matches r1 prev w rest cin cmid) /\ cout = Some w
  | Re.Bol => w = [] /\ prev = None /\ cout = cin
  | Re.Eol => w = [] /\ Re.at_eol rest = true /\ cout = cin
  | Re.WordB =>
      w = [] /\ xorb (Re.is_word prev) (Re.is_word (head rest)) = true /\
      cout = cin
  | Re.NotAhead r1 =>
      w = [] /\ cout = cin /\
      Re.m r1 prev rest cin (fun _ _ _ => Some tt) = None
  end.

Lemma rep_greedy_sound {A : Type} (p : ascii -> bool) (lo : nat)
    (k : option ascii -> text -> option A) (a : A) :
  forall s n prev,
    Re.rep_greedy p lo n prev s k = Some a ->
    exists w s',
      s = w ++ s' /\ Forall (fun c => p c = true) w /\ lo <= n + length w /\
      k (last_of prev w) s' = Some a.
Proof.
  induction s as [|c s IH]; intros n prev; simpl.
  - destruct (lo <=? n) eqn:Hlo; [|discriminate]. intros Hk.
    exists [], []. apply Nat.leb_le in Hlo. repeat split; auto. simpl; lia.
  - assert (Hstop : (if lo <=? n then k prev (c :: s) else None) = Some a ->
              exists w s', c :: s = w ++ s' /\ Forall (fun c => p c = true) w /\
                           lo <= n + length w /\ k (last_of prev w) s' = Some a).
    { destruct (lo <=? n) eqn:Hlo; [|discriminate]. intros Hk.
      exists [], (c :: s). apply Nat.leb_le in Hlo. repeat split; auto.
      simpl; lia. }
    destruct (p c) eqn:Hp; [|exact Hstop].
    destruct (Re.rep_greedy p lo (S n) (Some c) s k) as [a'|] eqn:Hrec;
      [|exact Hstop].
    intros [= ->]. apply IH in Hrec as (w & s' & -> & Hw & Hlen & Hk).
    exists (c :: w), s'. repeat split.
    + constructor; assumption.
    + simpl; lia.
    + rewrite last_of_cons. exact Hk.
Qed.

Lemma m_sound (r : Re.regex) :
  forall (A : Type) prev s cap (k : Re.cont) (a : A),
    Re.m r prev s cap k = Some a ->
    exists w s' cap',
      s = w ++ s' /\ matches r prev w s' cap cap' /\
      k (last_of prev w) s' cap' = Some a.
Proof.
  induction r as [|p|p lo|r1 IH1 r2 IH2|r1 IH1 r2 IH2|r1 IH1|r1 IH1| | | |r1 IH1];
    intros A prev s cap k a; simpl.
  - intros Hk. exists [], s, cap. repeat split; auto.
  - destruct s as [|c s]; [discriminate|].
    destruct (p c) eqn:Hp; [|discriminate]. intros Hk.
    exists [c], s, cap. repeat split; eauto.
  - intros H. apply rep_greedy_sound in H as (w & s' & -> & Hw & Hlen & Hk).
    exists w, s', cap. repeat split; auto.
  - intros H. apply IH1 in H as (u & s1 & c1 & -> & Hu & H).
    apply IH2 in H as (v & s2 & c2 & -> & Hv & Hk).
    exists (u ++ v), s2, c2. split; [rewrite app_assoc; reflexivity|].
    split; [exists u, v, c1; auto|]. rewrite last_of_app. exact Hk.
  - destruct (Re.m r1 prev s cap k) as [a'|] eqn:H1.
    + intros [= ->]. apply IH1 in H1 as (w & s' & c' & -> & Hw & Hk).
      exists w, s', c'. auto.
    + intros H2. apply IH2 in H2 as (w & s' & c' & -> & Hw & Hk).
      exists w, s', c'. auto.
  - destruct (Re.m r1 prev s cap k) as [a'|] eqn:H1.
    + intros [= ->]. apply IH1 in H1 as (w & s' & c' & -> & Hw & Hk).
      exists w, s', c'. auto.
    + intros Hk. exists [], s, cap. repeat split; auto.
  - intros H. apply IH1 in H as (w & s' & c' & -> & Hw & Hk).
    exists w, s', (Some w). split; [reflexivity|].
    split; [split; [exists c'; exact Hw | reflexivity]|].
    rewrite length_app, Nat.add_sub, take_app_length in Hk. exact Hk.
  - destruct prev; [discriminate|]. intros Hk.
    exists [], s, cap. repeat split; auto.
  - destruct (Re.at_eol s) eqn:He; [|discriminate]. intros Hk.
    exists [], s, cap. repeat split; auto.
  - destruct (xorb _ _) eqn:Hx; [|discriminate]. intros Hk.
    exists [], s, cap. repeat split; auto.
  - destruct (Re.m r1 prev s cap _) eqn:Hahead; [discriminate|]. intros Hk.
    exists [], s, cap. repeat split; auto.
Qed.

(** A match found at a position. *)
Lemma match_at_sound (r : Re.regex) prev s rest g :
  Re.match_at r prev s = Some (rest, g) ->
  exists w cap,
    s = w ++ rest /\ matches r prev w rest None cap /\ g = default [] cap.
Proof.
  unfold Re.match_at. intros H.
  apply m_sound in H as (w & s' & cap & -> & Hw & [= <- <-]).
  exists w, cap. auto.
Qed.

Lemma search_from_sound (r : Re.regex) s : forall prev g,
  Re.search_from r prev s = Some g ->
  exists pre w rest cap,
    s = pre ++ w ++ rest /\ matches r (last_of prev pre) w rest None cap /\
    g = default [] cap.
Proof.
  induction s as [|c s IH]; intros prev g; simpl.
  - destruct (Re.match_at r prev []) as [[rest g']|] eqn:H; [|discriminate].
    intros [= ->]. apply match_at_sound in H as (w & cap & E & Hw & ->).
    exists [], w, rest, cap. auto.
  - destruct (Re.match_at r prev (c :: s)) as [[rest g']|] eqn:H.
    + intros [= ->]. apply match_at_sound in H as (w & cap & E & Hw & ->).
      exists [], w, rest, cap. auto.
    + intros Hs. apply IH in Hs as (pre & w & rest & cap & -> & Hw & ->).
      exists (c :: pre), w, rest, cap. rewrite last_of_cons. auto.
Qed.

Lemma findall_go_sound (r : Re.regex) s : forall skip prev g,
  In g (Re.findall_go r skip prev s) ->
  exists pre w rest cap,
    s = pre ++ w ++ rest /\ matches r (last_of prev pre) w rest None cap /\
    g = default [] cap.
Proof.
  induction s as [|c s IH]; intros skip prev g.
  - destruct skip; simpl; [|intros []].
    destruct (Re.match_at r prev []) as [[rest g']|] eqn:H; [|intros []].
    intros [<-|[]]. apply match_at_sound in H as (w & cap & E & Hw & ->).
    exists [], w, rest, cap. auto.
  - assert (Hnext : forall k, In g (Re.findall_go r k (Some c) s) ->
              exists pre w rest cap,
                c :: s = pre ++ w ++ rest /\
                matches r (last_of prev pre) w rest None cap /\
                g = default [] cap).
    { intros k Hin. apply IH in Hin as (pre & w & rest & cap & -> & Hw & ->).
      exists (c :: pre), w, rest, cap. rewrite last_of_cons. auto. }
    destruct skip; simpl; [|apply Hnext].
    destruct (Re.match_at r prev (c :: s)) as [[rest g']|] eqn:H;
      [|apply Hnext].
    intros [<-|Hin]; [|exact (Hnext _ Hin)].
    apply match_at_sound in H as (w & cap & E & Hw & ->).
    exists [], w, rest, cap. auto.
Qed.

Lemma findall_sound (r : Re.regex) s g :
  In g (Re.findall r s) ->
  exists pre w rest cap,
    s = pre ++ w ++ rest /\ matches r (last pre) w rest None cap /\
    g = default [] cap.
Proof.
  intros H. apply findall_go_sound in H as (pre & w & rest & cap & E & Hw & Hg).
  exists pre, w, rest, cap. split; [exact E|]. split; [|exact Hg].
  unfold last_of in Hw. destruct (last pre); exact Hw.
Qed.

(** ** Addresses *)

Ltac ascii_cases c := destruct c as [[|] [|] [|] [|] [|] [|] [|] [|]].

Lemma alnum_not_special (c : ascii) :
  alnum c = true ->
  c <> "@"%char /\ c <> "."%char /\ Py.isspace c = false.
Proof. ascii_cases c; vm_compute; intros H; repeat split; congruence. Qed.

Lemma local_char_not_at (c : ascii) : local_char c = true -> c <> "@"%char.
Proof. ascii_cases c; vm_compute; congruence. Qed.

Lemma domain_char_not_at (c : ascii) : domain_char c = true -> c <> "@"%char.
Proof. ascii_cases c; vm_compute; congruence. Qed.

Lemma tld_char_plain (c : ascii) :
  tld_char c = true ->
  c <> "@"%char /\ c <> "."%char /\ Py.isspace c = false /\
  (Py.is_alpha c = true \/ c = "|"%char).
Proof.
  ascii_cases c; vm_compute; intros H; repeat split; try congruence; auto.
Qed.

Lemma delimiter_not_alnum (c : ascii) :
  delimiter c = true -> Py.isalnum c = false.
Proof. ascii_cases c; vm_compute; congruence. Qed.

Lemma surrounded_alnum (c : ascii) : surrounded c = Py.isalnum c.
Proof. ascii_cases c; vm_compute; reflexivity. Qed.

(** The form of the texts that the pattern [address] matches. *)
Inductive address_form : text -> Prop :=
| AddressForm (c0 : ascii) (local : text) (c1 : ascii) (dom tld : text) :
    alnum c0 = true ->
    Forall (fun c => local_char c = true) local -> 2 <= length local ->
    alnum c1 = true ->
    Forall (fun c => domain_char c = true) dom -> 1 <= length dom ->
    Forall (fun c => tld_char c = true) tld -> 2 <= length tld ->
    address_form ((c0 :: local) ++ "@"%char :: (c1 :: dom) ++ "."%char :: tld).

Lemma address_matches prev e rest cin cout :
  matches address prev e rest cin cout -> address_form e.
Proof.
  unfold address. cbn [matches].
  intros (u0 & v0 & c0 & -> & ((x0 & -> & Hx0) & _) &
          u1 & v1 & c1 & -> & (Hu1 & Hl1 & _) &
          u2 & v2 & c2 & -> & ((x2 & -> & Hx2) & _) &
          u3 & v3 & c3 & -> & ((x3 & -> & Hx3) & _) &
          u4 & v4 & c4 & -> & (Hu4 & Hl4 & _) &
          u5 & v5 & c5 & -> & ((x5 & -> & Hx5) & _) &
          (Hv5 & Hl5 & _)).
  apply Ascii.eqb_eq in Hx2, Hx5. subst x2 x5.
  replace ([x0] ++ u1 ++ ["@"%char] ++ [x3] ++ u4 ++ ["."%char] ++ v5)
    with ((x0 :: u1) ++ "@"%char :: (x3 :: u4) ++ "."%char :: v5)
    by (simpl; rewrite <- ?app_assoc; reflexivity).
  constructor; assumption.
Qed.

(** *** Splitting *)

Lemma split_plain (sep : ascii) (w : text) :
  Forall (fun c => c <> sep) w -> Py.split sep w = [w].
Proof.
  induction 1 as [|c w Hc _ IH]; [reflexivity|]. simpl.
  destruct (Ascii.eqb c sep) eqn:E; [apply Ascii.eqb_eq in E; congruence|].
  rewrite IH. reflexivity.
Qed.

Lemma split_app (sep : ascii) (u v : text) :
  Py.split sep (u ++ sep :: v) = Py.split sep u ++ Py.split sep v.
Proof.
  induction u as [|c u IH]; simpl.
  - rewrite Ascii.eqb_refl. reflexivity.
  - destruct (Ascii.eqb c sep); rewrite IH; [reflexivity|].
    destruct (split_nonempty sep u) as (x & xs & ->). reflexivity.
Qed.

(** An address is well formed: one ["@"], a dot in the domain, and a
    last label of the domain of two characters at least. *)
Definition well_formed (e : text) : bool :=
  match Py.split "@" e with
  | [_; domain] =>
      Py.contains (txt ".") domain &&
      match last (Py.split "." domain) with
      | Some label => 2 <=? length label
      | None => false
      end
  | _ => false
  end.

Lemma address_form_parts (e : text) :
  address_form e ->
  exists local domain label,
    Py.split "@" e = [local; domain] /\ 2 <= length local /\
    Py.contains (txt ".") domain = true /\
    last (Py.split "." domain) = Some label /\ 2 <= length label /\
    (exists c e', e = c :: e' /\ Py.isspace c = false /\ Py.isalnum c = true) /\
    (exists e' c, e = e' ++ [c] /\ tld_char c = true).
Proof.
  intros [c0 local c1 dom tld H0 Hl Hll H1 Hd Hdl Ht Htl].
  exists (c0 :: local), ((c1 :: dom) ++ "."%char :: tld), tld.
  assert (Htld : Forall (fun c => c <> "."%char) tld).
  { eapply Forall_impl; [exact Ht|]. intros c Hc. apply tld_char_plain in Hc.
    tauto. }
  assert (Hlocal : Forall (fun c => c <> "@"%char) (c0 :: local)).
  { constructor; [apply alnum_not_special in H0; tauto|].
    eapply Forall_impl; [exact Hl|]. apply local_char_not_at. }
  assert (Hdomain : Forall (fun c => c <> "@"%char)
                      ((c1 :: dom) ++ "."%char :: tld)).
  { apply Forall_app. split.
    - constructor; [apply alnum_not_special in H1; tauto|].
      eapply Forall_impl; [exact Hd|]. apply domain_char_not_at.
    - constructor; [discriminate|].
      eapply Forall_impl; [exact Ht|]. intros c Hc.
      apply tld_char_plain in Hc. tauto. }
  split.
  { rewrite split_app, !split_plain by assumption. reflexivity. }
  split; [simpl; lia|].
  split.
  { apply contains_spec. exists (c1 :: dom), tld. reflexivity. }
  split.
  { rewrite split_app, (split_plain _ tld) by assumption.
    rewrite last_app. reflexivity. }
  split; [exact Htl|].
  split.
  { exists c0, (local ++ "@"%char :: (c1 :: dom) ++ "."%char :: tld).
    split; [reflexivity|]. apply alnum_not_special in H0 as H0'.
    split; [tauto | exact H0]. }
  destruct (exists_last (l := tld)) as (tld' & c & ->).
  { destruct tld; [simpl in Htl; lia | discriminate]. }
  exists ((c0 :: local) ++ "@"%char :: (c1 :: dom) ++ "."%char :: tld'), c.
  split.
  { rewrite <- !app_assoc. simpl. rewrite <- !app_assoc. reflexivity. }
  apply Forall_app in Ht as [_ Ht]. inversion Ht; assumption.
Qed.

Lemma address_form_well_formed (e : text) :
  address_form e -> well_formed e = true.
Proof.
  intros H. apply address_form_parts in H
    as (local & domain & label & Hs & _ & Hc & Hl & Hlen & _).
  unfold well_formed. rewrite Hs, Hc, Hl. cbn [andb].
  apply Nat.leb_le. exact Hlen.
Qed.

(** *** Candidates *)

Lemma find_spec (sub s : text) (i : nat) :
  Py.find sub s = Some i -> exists a b, s = a ++ sub ++ b /\ length a = i.
Proof.
  revert i. induction s as [|c s IH]; intros i; simpl.
  - destruct (Py.startswith sub []) eqn:Hs; [|discriminate].
    intros [= <-]. apply startswith_spec in Hs as [r Hr]. exists [], r. auto.
  - destruct (Py.startswith sub (c :: s)) eqn:Hs.
    + intros [= <-]. apply startswith_spec in Hs as [r Hr]. exists [], r. auto.
    + destruct (Py.find sub s) as [j|]; [|discriminate]. intros [= <-].
      destruct (IH j eq_refl) as (a & b & -> & <-). exists (c :: a), b. auto.
Qed.

Lemma max_by_len_some (l : list text) :
  l <> [] -> exists m, Py.max_by_len l = Some m.
Proof.
  destruct l as [|x l]; [congruence|]. intros _. simpl.
  destruct (Py.max_by_len l) as [y|]; [destruct (_ <? _)|]; eauto.
Qed.

Lemma max_by_len_spec (l : list text) (m : text) :
  Py.max_by_len l = Some m ->
  In m l /\ forall x, In x l -> length x <= length m.
Proof.
  revert m. induction l as [|x l IH]; intros m; simpl; [discriminate|].
  destruct (Py.max_by_len l) as [y|] eqn:Hy.
  - destruct (IH y eq_refl) as [Hin Hmax].
    destruct (length x <? length y) eqn:Hlt; intros [= <-].
    + apply Nat.ltb_lt in Hlt. split; [right; exact Hin|].
      intros z [<-|Hz]; [lia | apply Hmax, Hz].
    + apply Nat.ltb_ge in Hlt. split; [left; reflexivity|].
      intros z [<-|Hz]; [lia | specialize (Hmax z Hz); lia].
  - intros [= <-]. split; [left; reflexivity|].
    intros z [<-|Hz]; [lia|].
    destruct (max_by_len_some l) as [y' Hy']; [|congruence].
    intros ->. destruct Hz.
Qed.

(** The text before has no letter or digit at its end, the text after
    has none at its start. *)
Definition free_before (A : text) : Prop :=
  A = [] \/ exists A' c, A = A' ++ [c] /\ Py.isalnum c = false.

Definition free_after (B : text) : Prop :=
  B = [] \/ exists c B', B = c :: B' /\ Py.isalnum c = false.

(** [e] stands in [t] between characters that are no letters and no
    digits. *)
Definition stands_alone (e t : text) : Prop :=
  exists A B, t = A ++ e ++ B /\ free_before A /\ free_after B.

Lemma primary_candidate (t g : text) :
  In g (Re.findall email_pattern t) -> address_form g /\ stands_alone g t.
Proof.
  intros H. apply findall_sound in H as (pre & w & rest & cap & -> & Hw & ->).
  unfold email_pattern in Hw. cbn [matches] in Hw.
  destruct Hw as (u & v & cmid & -> & Hu & u2 & v2 & cmid2 & -> &
                  ((c3 & Haddr) & ->) & Hv2).
  assert (Hcap : cap = Some u2) by (destruct Hv2 as [[_ ->] | (_ & _ & ->)]; reflexivity).
  subst cap. cbn [default]. split; [eapply address_matches; exact Haddr|].
  exists (pre ++ u), (v2 ++ rest). split.
  { rewrite <- !app_assoc. reflexivity. }
  split.
  - destruct Hu as [(-> & Hpre & _) | ((c & -> & Hc) & _)].
    + left. apply last_None in Hpre. subst pre. reflexivity.
    + right. exists pre, c. split; [reflexivity|].
      apply delimiter_not_alnum, Hc.
  - destruct Hv2 as [((c & -> & Hc) & _) | (-> & Heol & _)].
    + right. exists c, rest. split; [reflexivity|].
      apply delimiter_not_alnum, Hc.
    + destruct rest as [|c [|c' rest]]; simpl in Heol; try discriminate.
      * left. reflexivity.
      * right. exists c, []. split; [reflexivity|].
        apply Ascii.eqb_eq in Heol. subst c. reflexivity.
Qed.

Lemma simple_candidate (t g : text) :
  In g (Re.findall email_pattern_simple t) -> address_form g.
Proof.
  intros H. apply findall_sound in H as (pre & w & rest & cap & -> & Hw & ->).
  unfold email_pattern_simple in Hw. cbn [matches] in Hw.
  destruct Hw as ((cmid & u & v & c1 & -> & (-> & _) & u2 & v2 & c2 & -> &
                   Haddr & (-> & _)) & ->).
  cbn [default]. simpl. rewrite app_nil_r.
  eapply address_matches. exact Haddr.
Qed.

Lemma nth_error_middle {A : Type} (l : list A) (x : A) (r : list A) :
  nth_error (l ++ x :: r) (length l) = Some x.
Proof. induction l as [|y l IH]; [reflexivity | exact IH]. Qed.

(** The test of the loop over [matches_simple], on a text of the form
    of an address: it does not raise, and what it accepts stands
    alone in the text. *)
Lemma is_valid_address (t g : text) :
  address_form g ->
  exists b, is_valid t g = Ok b /\ (b = true -> stands_alone g t).
Proof.
  intros Hg. apply address_form_parts in Hg
    as (local & domain & label & Hs & Hll & Hc & Hl & Hlen & _).
  unfold is_valid. rewrite Hs.
  replace (2 <=? length local) with true by (symmetry; apply Nat.leb_le; exact Hll).
  rewrite Hc. unfold last_item. rewrite Hl. cbn [rbind].
  replace (2 <=? length label) with true by (symmetry; apply Nat.leb_le; exact Hlen).
  destruct (Py.find g t) as [i|] eqn:Hf; [|exists false; split; [reflexivity | discriminate]].
  apply find_spec in Hf as (A & B & -> & <-).
  assert (Hbefore : exists cb,
            (if 0 <? length A
             then index (A ++ g ++ B) (length A - 1) else Ok " "%char) = Ok cb /\
            (Py.isalnum cb = false -> free_before A)).
  { induction A as [|c A' _] using rev_ind.
    - exists " "%char. split; [reflexivity|]. intros _. left. reflexivity.
    - exists c. rewrite length_app. simpl length.
      replace (0 <? length A' + 1) with true by (symmetry; apply Nat.ltb_lt; lia).
      replace (length A' + 1 - 1) with (length A') by lia.
      unfold index. rewrite <- !app_assoc. simpl app. rewrite nth_error_middle.
      split; [reflexivity|]. intros Hc'. right. exists A', c. auto. }
  assert (Hafter : exists ca,
            (if length A + length g <? length (A ++ g ++ B)
             then index (A ++ g ++ B) (length A + length g) else Ok " "%char)
            = Ok ca /\
            (Py.isalnum ca = false -> free_after B)).
  { destruct B as [|c B].
    - exists " "%char. rewrite !length_app. simpl length.
      replace (length A + length g <? length A + (length g + 0)) with false
        by (symmetry; apply Nat.ltb_ge; lia).
      split; [reflexivity|]. intros _. left. reflexivity.
    - exists c. rewrite !length_app. simpl length.
      replace (length A + length g <? length A + (length g + S (length B)))
        with true by (symmetry; apply Nat.ltb_lt; lia).
      unfold index. rewrite app_assoc, <- length_app, nth_error_middle.
      split; [reflexivity|]. intros Hc'. right. exists c, B. auto. }
  destruct Hbefore as (cb & -> & Hcb). destruct Hafter as (ca & -> & Hca).
  cbn [rbind]. rewrite !surrounded_alnum. eexists. split; [reflexivity|].
  intros Hb. apply andb_true_iff in Hb as [Hb1 Hb2].
  apply negb_true_iff in Hb1, Hb2.
  exists A, B. auto.
Qed.

Lemma strip_id (s : text) :
  (exists c s', s = c :: s' /\ Py.isspace c = false) ->
  (exists s' c, s = s' ++ [c] /\ Py.isspace c = false) ->
  Py.strip s = s.
Proof.
  intros (c & s1 & E1 & Hc) (s2 & d & E2 & Hd).
  unfold Py.strip. rewrite (lstrip_id s) by (rewrite E1; exact Hc).
  unfold Py.rstrip.
  replace (rev s) with (d :: rev s2)
    by (rewrite E2, rev_app_distr; reflexivity).
  rewrite (lstrip_id (d :: rev s2)) by exact Hd.
  simpl rev. rewrite rev_involutive. symmetry. exact E2.
Qed.

Lemma address_form_plain (e : text) :
  address_form e ->
  Py.strip e = e /\ Forall (fun c => Py.isspace c = false) e.
Proof.
  intros H. assert (Hall : Forall (fun c => Py.isspace c = false) e).
  { destruct H as [c0 local c1 dom tld H0 Hl _ H1 Hd _ Ht _].
    assert (Hcls : forall c, local_char c = true \/ domain_char c = true \/
                             tld_char c = true \/ c = "@"%char ->
                             Py.isspace c = false).
    { intros c. ascii_cases c; vm_compute; intuition congruence. }
    assert (Ha : forall c, alnum c = true -> Py.isspace c = false)
      by (intros c Hc; apply alnum_not_special in Hc; tauto).
    apply Forall_app. split; [constructor; [auto|]|].
    { eapply Forall_impl; [exact Hl|]. intros c Hc. apply Hcls. auto. }
    constructor; [reflexivity|]. apply Forall_app. split.
    { constructor; [auto|]. eapply Forall_impl; [exact Hd|].
      intros c Hc. apply Hcls. auto. }
    constructor; [reflexivity|]. eapply Forall_impl; [exact Ht|].
    intros c Hc. apply Hcls. auto. }
  split; [|exact Hall].
  apply address_form_parts in H
    as (_ & _ & _ & _ & _ & _ & _ & _ & (c & e1 & E1 & Hc & _) & (e2 & d & E2 & Hd)).
  apply strip_id.
  - exists c, e1. auto.
  - exists e2, d. split; [exact E2|]. apply tld_char_plain in Hd. tauto.
Qed.

(** The test of the loop as a truth value. *)
Definition accepted (t m : text) : bool :=
  match is_valid t m with
  | Ok true => true
  | _ => false
  end.

Lemma filter_r_total {A : Type} (p : A -> result bool) (l : list A) :
  (forall x, In x l -> exists b, p x = Ok b) ->
  filter_r p l =
  Ok (List.filter (fun x => match p x with Ok true => true | _ => false end) l).
Proof.
  induction l as [|x l IH]; intros Hall; [reflexivity|]. simpl.
  destruct (Hall x (or_introl eq_refl)) as [b ->]. cbn [rbind].
  rewrite IH by (intros y Hy; apply Hall; right; exact Hy). cbn [rbind].
  destruct b; reflexivity.
Qed.

(** The candidates among which the address is chosen: the matches of
    the first pattern if there are any, else the matches of the second
    pattern that pass the test. *)
Definition candidates (t : text) : list text :=
  match Re.findall email_pattern (clean t) with
  | [] =>
      List.filter (accepted (clean t))
        (Re.findall email_pattern_simple (clean t))
  | found => found
  end.

Lemma extract_email_spec (t : text) :
  extract_email_from_text t = Ok (Py.max_by_len (candidates t)).
Proof.
  unfold extract_email_from_text, candidates.
  destruct (Re.findall email_pattern (clean t)) as [|x l] eqn:H1.
  - destruct (Re.findall email_pattern_simple (clean t)) as [|y l2] eqn:H2;
      [reflexivity|].
    rewrite filter_r_total.
    2:{ intros m Hm. rewrite <- H2 in Hm. apply simple_candidate in Hm.
        destruct (is_valid_address (clean t) m Hm) as (b & Hb & _). eauto. }
    cbn [rbind]. fold (accepted (clean t)).
    destruct (List.filter (accepted (clean t)) (y :: l2)) as [|z l3] eqn:H3;
      [reflexivity|].
    destruct (max_by_len_some (z :: l3)) as [m Hm]; [discriminate|].
    unfold max_len. rewrite Hm. reflexivity.
  - destruct (max_by_len_some (x :: l)) as [m Hm]; [discriminate|].
    unfold max_len. rewrite Hm. cbn [rbind].
    apply max_by_len_spec in Hm as Hin. destruct Hin as [Hin _].
    rewrite <- H1 in Hin. apply primary_candidate in Hin as [Hform _].
    apply address_form_plain in Hform as [-> _]. reflexivity.
Qed.

Lemma candidate_form (t e : text) :
  In e (candidates t) -> address_form e /\ stands_alone e (clean t).
Proof.
  unfold candidates.
  destruct (Re.findall email_pattern (clean t)) as [|x l] eqn:H1.
  - intros Hin. apply filter_In in Hin as [Hin Hacc].
    apply simple_candidate in Hin as Hform. split; [exact Hform|].
    destruct (is_valid_address (clean t) e Hform) as (b & Hb & Hstand).
    unfold accepted in Hacc. rewrite Hb in Hacc. destruct b; [|discriminate].
    apply Hstand. reflexivity.
  - rewrite <- H1. apply primary_candidate.
Qed.

(** C10. On every text the extraction returns; what it returns is
    either nothing or a text with exactly one ["@"], a dot after it
    and a last label of two characters at least, whichever of the two
    patterns found it. *)
Theorem C10_extracted_address_well_formed (t : text) :
  exists r,
    extract_email_from_text t = Ok r /\
    match r with
    | None => candidates t = []
    | Some e =>
        well_formed e = true /\
        exists local domain label,
          Py.split "@" e = [local; domain] /\
          Py.contains (txt ".") domain = true /\
          last (Py.split "." domain) = Some label /\ 2 <= length label
    end.
Proof.
  exists (Py.max_by_len (candidates t)). split; [apply extract_email_spec|].
  destruct (Py.max_by_len (candidates t)) as [e|] eqn:Hm.
  - apply max_by_len_spec in Hm as [Hin _].
    apply candidate_form in Hin as [Hform _].
    split; [apply address_form_well_formed, Hform|].
    apply address_form_parts in Hform
      as (local & domain & label & Hs & _ & Hc & Hl & Hlen & _).
    exists local, domain, label. auto.
  - destruct (candidates t) as [|x l]; [reflexivity|].
    destruct (max_by_len_some (x :: l)) as [m Hm']; [discriminate | congruence].
Qed.

(** ** Percentages *)

Definition is_digits (ds : text) : Prop := Forall (fun c => Py.is_digit c = true) ds.

(** The texts that group 1 of the pattern [percentage] can hold:
    digits, or digits, a dot and digits. *)
Inductive decimal_form : text -> text -> text -> Prop :=
| DecimalInt (ip : text) :
    is_digits ip -> 1 <= length ip -> decimal_form ip ip []
| DecimalFrac (ip fp : text) :
    is_digits ip -> 1 <= length ip -> is_digits fp -> 1 <= length fp ->
    decimal_form (ip ++ "."%char :: fp) ip fp.

(** The number that a decimal writes. *)
Definition decimal_value (ip fp : text) : Q :=
  scale10 (digits_val (ip ++ fp)) (- Z.of_nat (length fp)).

Lemma digit_facts (c : ascii) :
  Py.is_digit c = true ->
  is_c_space c = false /\ c <> "_"%char /\ c <> "-"%char /\ c <> "+"%char /\
  Py.lower_char c = c /\ c <> "i"%char /\ c <> "n"%char /\ c <> "."%char.
Proof. ascii_cases c; vm_compute; intros H; repeat split; congruence. Qed.

Lemma span_digits_app (ds r : text) :
  is_digits ds ->
  match r with
  | c :: _ => Py.is_digit c = false
  | [] => True
  end ->
  span_digits (ds ++ r) = (ds, r).
Proof.
  intros Hds Hr. induction Hds as [|c ds Hc _ IH]; simpl.
  - destruct r as [|c r]; [reflexivity|]. simpl. rewrite Hr. reflexivity.
  - rewrite Hc, IH. reflexivity.
Qed.

Lemma drop_underscores_plain (s : text) (prev : option ascii) :
  Forall (fun c => c <> "_"%char) s -> prev <> Some "_"%char ->
  drop_underscores prev s = Some s.
Proof.
  intros Hs. revert prev. induction Hs as [|c s Hc _ IH]; intros prev Hp; simpl.
  - rewrite bool_decide_eq_false_2 by exact Hp. reflexivity.
  - destruct (Ascii.eqb c "_") eqn:E; [apply Ascii.eqb_eq in E; congruence|].
    rewrite bool_decide_eq_false_2 by exact Hp. cbn [andb].
    rewrite IH by congruence. reflexivity.
Qed.

Lemma strip_c_id (s : text) :
  (exists c s', s = c :: s' /\ is_c_space c = false) ->
  (exists s' c, s = s' ++ [c] /\ is_c_space c = false) ->
  strip_c s = s.
Proof.
  intros (c & s1 & E1 & Hc) (s2 & d & E2 & Hd). unfold strip_c.
  assert (H1 : lstrip_c s = s) by (rewrite E1; simpl; rewrite Hc; reflexivity).
  rewrite H1.
  replace (rev s) with (d :: rev s2) by (rewrite E2, rev_app_distr; reflexivity).
  simpl lstrip_c. rewrite Hd. simpl rev. rewrite rev_involutive.
  symmetry. exact E2.
Qed.

Lemma decimal_form_ends (g ip fp : text) :
  decimal_form g ip fp ->
  (exists c s', g = c :: s' /\ Py.is_digit c = true) /\
  (exists s' c, g = s' ++ [c] /\ Py.is_digit c = true) /\
  Forall (fun c => c <> "_"%char) g.
Proof.
  assert (Hu : forall ds, is_digits ds -> Forall (fun c => c <> "_"%char) ds).
  { intros ds Hds. eapply Forall_impl; [exact Hds|]. intros c Hc.
    apply digit_facts in Hc. tauto. }
  assert (Hlast : forall ds, is_digits ds -> 1 <= length ds ->
            exists s' c, ds = s' ++ [c] /\ Py.is_digit c = true).
  { intros ds Hds Hlen. induction ds as [|c ds' _] using rev_ind.
    - simpl in Hlen. lia.
    - exists ds', c. split; [reflexivity|].
      apply Forall_app in Hds as [_ Hds]. inversion Hds; assumption. }
  assert (Hfirst : forall ds, is_digits ds -> 1 <= length ds ->
            exists c s', ds = c :: s' /\ Py.is_digit c = true).
  { intros [|c ds'] Hds Hlen; [simpl in Hlen; lia|].
    exists c, ds'. split; [reflexivity|]. inversion Hds; assumption. }
  intros [ip' Hip Hlen | ip' fp' Hip Hlen Hfp Hflen].
  - split; [apply Hfirst; assumption|]. split; [apply Hlast; assumption|].
    apply Hu, Hip.
  - split.
    { destruct (Hfirst ip' Hip Hlen) as (c & s' & -> & Hc).
      exists c, (s' ++ "."%char :: fp'). auto. }
    split.
    { destruct (Hlast fp' Hfp Hflen) as (s' & c & -> & Hc).
      exists (ip' ++ "."%char :: s'), c. split; [|exact Hc].
      rewrite <- app_assoc. reflexivity. }
    apply Forall_app. split; [apply Hu, Hip|].
    constructor; [discriminate | apply Hu, Hfp].
Qed.

(** [float] reads a decimal as the number it writes. *)
Lemma float_of_decimal (g ip fp : text) :
  decimal_form g ip fp ->
  float_of_str g = Some (FFin (decimal_value ip fp)).
Proof.
  intros Hform.
  destruct (decimal_form_ends g ip fp Hform)
    as ((c & s1 & E1 & Hc) & (s2 & d & E2 & Hd) & Hund).
  pose proof (digit_facts c Hc) as (Hc1 & Hc2 & Hc3 & Hc4 & Hc5 & Hc6 & Hc7 & Hc8).
  pose proof (digit_facts d Hd) as (Hd1 & _).
  unfold float_of_str.
  rewrite strip_c_id.
  2:{ exists c, s1. split; [exact E1|]. tauto. }
  2:{ exists s2, d. split; [exact E2|]. tauto. }
  rewrite drop_underscores_plain by (assumption || discriminate).
  assert (Hsign : take_sign g = (false, g)).
  { rewrite E1. unfold take_sign.
    destruct (Ascii.eqb c "-") eqn:Em; [apply Ascii.eqb_eq in Em; congruence|].
    destruct (Ascii.eqb c "+") eqn:Ep; [apply Ascii.eqb_eq in Ep; congruence|].
    reflexivity. }
  rewrite Hsign.
  assert (Hlow : forall w, Py.lower g = txt w ->
            match txt w with x :: _ => x = c | [] => False end).
  { intros w Hw. rewrite <- Hw, E1. simpl. exact Hc5. }
  assert (Hnot : forall w,
            match txt w with x :: _ => x <> c | [] => True end ->
            bool_decide (Py.lower g = txt w) = false).
  { intros w Hw. apply bool_decide_eq_false_2. intros E. apply Hlow in E.
    destruct (txt w); [exact E | congruence]. }
  rewrite !Hnot by (vm_compute; congruence).
  cbn [orb]. unfold parse_decimal, decimal_value.
  destruct Hform as [ip' Hip Hlen | ip' fp' Hip Hlen Hfp Hflen].
  - rewrite <- (app_nil_r ip') at 1. rewrite span_digits_app by (exact Hip || exact I).
    rewrite app_nil_r. destruct ip' as [|x ip'']; [simpl in Hlen; lia|].
    reflexivity.
  - rewrite span_digits_app by (exact Hip || reflexivity).
    rewrite Ascii.eqb_refl.
    rewrite <- (app_nil_r fp') at 1. rewrite span_digits_app by (exact Hfp || exact I).
    destruct (ip' ++ fp') as [|x r] eqn:Hr.
    { destruct ip'; [simpl in Hlen; lia | discriminate]. }
    rewrite <- Hr. reflexivity.
Qed.

Lemma percentage_group (s g : text) :
  Re.search percentage s = Some g -> exists ip fp, decimal_form g ip fp.
Proof.
  intros H. apply search_from_sound in H
    as (pre & w & rest & cap & -> & Hw & ->).
  unfold percentage in Hw. cbn [matches] in Hw.
  destruct Hw as (u & v & cmid & -> &
                  ((c0 & ip & t & c1 & -> & (Hip & Hlen & _) & Ht) & ->) &
                  u2 & v2 & c2 & -> & (_ & _ & ->) & _ & ->).
  cbn [default].
  destruct Ht as [[-> _] | (d & fp & c3 & -> & ((x & -> & Hx) & _) & Hfp & Hflen & _)].
  - exists ip, []. rewrite app_nil_r. constructor; assumption.
  - apply Ascii.eqb_eq in Hx. subst x. exists ip, fp. simpl.
    constructor; assumption.
Qed.





(** ** What the matcher does not miss *)

Lemma rep_greedy_complete {A : Type} (p : ascii -> bool) (lo : nat)
    (k : option ascii -> text -> option A) (rest : text) :
  forall w n prev,
    Forall (fun c => p c = true) w -> lo <= n + length w ->
    is_Some (k (last_of prev w) rest) ->
    is_Some (Re.rep_greedy p lo n prev (w ++ rest) k).
Proof.
  induction w as [|c w IH]; intros n prev Hw Hlen Hk.
  - simpl in Hlen. rewrite last_of_nil in Hk. simpl app.
    assert (Hstop : is_Some (if lo <=? n then k prev rest else None)).
    { replace (lo <=? n) with true by (symmetry; apply Nat.leb_le; lia).
      exact Hk. }
    destruct rest as [|c r]; simpl; [exact Hstop|].
    destruct (p c); [|exact Hstop].
    destruct (Re.rep_greedy p lo (S n) (Some c) r k); [eexists; reflexivity|].
    exact Hstop.
  - inversion Hw as [|? ? Hc Hw']; subst. simpl. rewrite Hc.
    rewrite last_of_cons in Hk. simpl in Hlen.
    destruct (IH (S n) (Some c) Hw' ltac:(lia) Hk) as [a ->].
    eexists; reflexivity.
Qed.

Lemma m_complete (r : Re.regex) :
  forall (A : Type) prev w rest cin cout (k : Re.cont),
    matches r prev w rest cin cout ->
    is_Some (k (last_of prev w) rest cout) ->
    is_Some (Re.m (A := A) r prev (w ++ rest) cin k).
Proof.
  induction r as [|p|p lo|r1 IH1 r2 IH2|r1 IH1 r2 IH2|r1 IH1|r1 IH1| | | |r1 IH1];
    intros A prev w rest cin cout k; cbn [matches Re.m].
  - intros (-> & ->) Hk. exact Hk.
  - intros ((c & -> & Hc) & ->) Hk. simpl. rewrite Hc. exact Hk.
  - intros (Hw & Hlen & ->) Hk.
    apply rep_greedy_complete; [exact Hw | lia | exact Hk].
  - intros (u & v & cmid & -> & Hu & Hv) Hk. rewrite <- app_assoc.
    apply (IH1 _ _ _ _ _ _ _ Hu). apply (IH2 _ _ _ _ _ _ _ Hv).
    rewrite <- last_of_app. exact Hk.
  - intros [H | H] Hk.
    + destruct (IH1 _ _ _ _ _ _ k H Hk) as [a ->]. eexists; reflexivity.
    + destruct (Re.m r1 prev (w ++ rest) cin k); [eexists; reflexivity|].
      apply (IH2 _ _ _ _ _ _ _ H Hk).
  - intros [(-> & ->) | H] Hk.
    + simpl app. destruct (Re.m r1 prev rest cin k); [eexists; reflexivity|].
      exact Hk.
    + destruct (IH1 _ _ _ _ _ _ k H Hk) as [a ->]. eexists; reflexivity.
  - intros ((cmid & H) & ->) Hk. apply (IH1 _ _ _ _ _ _ _ H).
    rewrite length_app, Nat.add_sub, take_app_length. exact Hk.
  - intros (-> & -> & ->) Hk. exact Hk.
  - intros (-> & He & ->) Hk. simpl app. rewrite He. exact Hk.
  - intros (-> & Hx & ->) Hk. simpl app. rewrite Hx. exact Hk.
  - intros (-> & -> & Hahead) Hk. simpl app. rewrite Hahead. exact Hk.
Qed.

Lemma match_at_complete (r : Re.regex) prev w rest cout :
  matches r prev w rest None cout -> is_Some (Re.match_at r prev (w ++ rest)).
Proof.
  intros H. unfold Re.match_at. eapply m_complete; [exact H|].
  eexists; reflexivity.
Qed.

Lemma search_from_complete (r : Re.regex) w rest cout :
  forall pre prev,
    matches r (last_of prev pre) w rest None cout ->
    is_Some (Re.search_from r prev (pre ++ w ++ rest)).
Proof.
  induction pre as [|c pre IH]; intros prev H.
  - rewrite last_of_nil in H. apply match_at_complete in H as [[rest' g] Hm].
    simpl app. destruct (w ++ rest); simpl; rewrite Hm; eexists; reflexivity.
  - simpl. destruct (Re.match_at r prev _) as [[rest' g]|];
      [eexists; reflexivity|].
    apply IH. rewrite last_of_cons in H. exact H.
Qed.

(** The pattern is found in a text exactly when it matches somewhere
    in it. *)
Definition matches_in (r : Re.regex) (s : text) : Prop :=
  exists pre w rest cout,
    s = pre ++ w ++ rest /\ matches r (last pre) w rest None cout.

Lemma found_iff (r : Re.regex) (s : text) :
  Re.found r s = true <-> matches_in r s.
Proof.
  unfold Re.found, Re.search, matches_in. split.
  - destruct (Re.search_from r None s) as [g|] eqn:H; [|discriminate].
    intros _. apply search_from_sound in H
      as (pre & w & rest & cap & -> & Hw & _).
    exists pre, w, rest, cap. split; [reflexivity|].
    unfold last_of in Hw. destruct (last pre); exact Hw.
  - intros (pre & w & rest & cout & -> & H).
    destruct (search_from_complete r w rest cout pre None) as [g ->];
      [|reflexivity].
    unfold last_of. destruct (last pre); exact H.
Qed.

Lemma found_false_iff (r : Re.regex) (s : text) :
  Re.found r s = false <-> ~ matches_in r s.
Proof.
  rewrite <- found_iff. destruct (Re.found r s); split; intros H;
    try reflexivity; try discriminate.
  exfalso. apply H. reflexivity.
Qed.

(** *** Words *)







(** ** The manual extraction *)

(** The level and the probability that the keywords of a response
    give: the first level of [level_patterns] whose pattern is found,
    and the first of High, Medium, Low whose pattern is found. *)
Definition level_of (response_text : text) : text :=
  match List.find (fun lp => Re.found (snd lp) response_text) level_patterns with
  | Some lp => txt (fst lp)
  | None => txt "Unknown"
  end.

Definition probability_of (response_text : text) : text :=
  if Re.found high response_text then txt "High"
  else if Re.found medium response_text then txt "Medium"
  else if Re.found low response_text then txt "Low"
  else txt "Unknown".

(** The number of the first percentage token, 0.0 without one. *)
Definition percentage_of (response_text : text) : pyfloat :=
  match Re.search percentage response_text with
  | Some group1 => default (FFin 0) (float_of_str group1)
  | None => FFin 0
  end.

Lemma set_level_spec (response_text : text) (patterns : list (string * Re.regex))
    (d : dict) :
  set_level patterns response_text d !! "position_level"%string =
    match List.find (fun lp => Re.found (snd lp) response_text) patterns with
    | Some lp => Some (VStr (txt (fst lp)))
    | None => d !! "position_level"%string
    end /\
  forall key, key <> "position_level"%string ->
    set_level patterns response_text d !! key = d !! key.
Proof.
  induction patterns as [|[level pattern] rest IH]; simpl.
  - split; reflexivity.
  - destruct (Re.found pattern response_text).
    + split; [apply lookup_insert_eq|].
      intros key Hkey. apply lookup_insert_ne. congruence.
    + exact IH.
Qed.

Lemma manual_extraction_fields (response_text : text) :
  exists d,
    extract_analysis_manually response_text = Ok d /\
    d !! "detailed_analysis"%string = Some (VStr response_text) /\
    d !! "position_level"%string = Some (VStr (level_of response_text)) /\
    d !! "acceptance_probability"%string =
      Some (VStr (probability_of response_text)) /\
    d !! "match_percentage"%string = Some (VFloat (percentage_of response_text)) /\
    d !! "acceptance_reasoning"%string = Some (VStr []) /\
    d !! "key_strengths"%string = Some (VList []) /\
    d !! "key_gaps"%string = Some (VList []) /\
    d !! "recommendation"%string = Some (VStr []).
Proof.
  unfold extract_analysis_manually.
  set (base := <["match_percentage"%string := _]> _).
  assert (Hpct : exists d1,
            match Re.search percentage response_text with
            | Some group1 =>
                let? f := float_text group1 in
                Ok (<["match_percentage"%string := VFloat f]> base)
            | None => Ok base
            end = Ok d1 /\
            d1 !! "match_percentage"%string =
              Some (VFloat (percentage_of response_text)) /\
            forall key, key <> "match_percentage"%string ->
                        d1 !! key = base !! key).
  { unfold percentage_of.
    destruct (Re.search percentage response_text) as [g|] eqn:Hs.
    - apply percentage_group in Hs as (ip & fp & Hform).
      unfold float_text, float. rewrite (float_of_decimal _ _ _ Hform).
      cbn [rbind default]. eexists. split; [reflexivity|].
      split; [apply lookup_insert_eq|].
      intros key Hkey. apply lookup_insert_ne. congruence.
    - exists base. split; [reflexivity|]. split; [reflexivity|]. reflexivity. }
  destruct Hpct as (d1 & -> & Hp & Hother). cbn [rbind].
  destruct (set_level_spec response_text level_patterns d1) as [Hlevel Hkeep].
  set (d2 := set_level level_patterns response_text d1) in *.
  assert (Hprob : exists d3,
            (if Re.found high response_text then
               <["acceptance_probability"%string := VStr (txt "High")]> d2
             else if Re.found medium response_text then
               <["acceptance_probability"%string := VStr (txt "Medium")]> d2
             else if Re.found low response_text then
               <["acceptance_probability"%string := VStr (txt "Low")]> d2
             else d2) = d3 /\
            d3 !! "acceptance_probability"%string =
              Some (VStr (probability_of response_text)) /\
            forall key, key <> "acceptance_probability"%string ->
                        d3 !! key = d2 !! key).
  { unfold probability_of. eexists. split; [reflexivity|].
    destruct (Re.found high response_text);
      [|destruct (Re.found medium response_text);
        [|destruct (Re.found low response_text)]];
      try (split; [apply lookup_insert_eq |
                   intros key Hkey; apply lookup_insert_ne; congruence]).
    split; [|reflexivity].
    rewrite Hkeep by discriminate. rewrite Hother by discriminate.
    reflexivity. }
  destruct Hprob as (d3 & -> & Hpr & Hkeep3).
  exists d3. split; [reflexivity|].
  assert (Hget : forall key,
            key <> "acceptance_probability"%string ->
            key <> "position_level"%string ->
            key <> "match_percentage"%string ->
            d3 !! key = base !! key).
  { intros key H1 H2 H3. rewrite Hkeep3, Hkeep, Hother by assumption.
    reflexivity. }
  split; [rewrite Hget by discriminate; reflexivity|].
  split.
  { rewrite Hkeep3 by discriminate. rewrite Hlevel. unfold level_of.
    destruct (List.find _ level_patterns); [reflexivity|].
    rewrite Hother by discriminate. reflexivity. }
  split; [exact Hpr|].
  split; [rewrite Hkeep3, Hkeep by discriminate; exact Hp|].
  repeat split; rewrite Hget by discriminate; reflexivity.
Qed.

(** *** The keywords of the levels *)










(** *** The first percentage token *)





















(** The same for the percentage and for the look-ahead of Senior. *)
Lemma manual_extraction_examples :
  percentage_of (txt "Senior, 145% of the target, then 45%, High") = FFin 145 /\
  percentage_of (txt "10% short of Senior, 45%, High") = FFin 10 /\
  level_of (txt "Senior level role, 45%, High") = txt "Unknown" /\
  level_of (txt "Senior, 45%, High") = txt "Senior" /\
  percentage_of (txt "Senior, 45%, High") = FFin 45 /\
  probability_of (txt "Senior, 45%, High") = txt "High".
Proof. repeat split; vm_compute; reflexivity. Qed.




(** * Part III: further properties *)

(** ** The name of the candidate *)

(** The part of a text before its first [sep]. *)
Fixpoint before (sep : ascii) (s : text) : text :=
  match s with
  | [] => []
  | c :: s' => if Ascii.eqb c sep then [] else c :: before sep s'
  end.

Lemma split_head (sep : ascii) (s : text) :
  exists rest, Py.split sep s = before sep s :: rest.
Proof.
  induction s as [|c s [rest IH]]; simpl.
  - eexists; reflexivity.
  - destruct (Ascii.eqb c sep); [eexists; reflexivity|].
    rewrite IH. eexists; reflexivity.
Qed.

Lemma before_free (sep : ascii) (s : text) :
  Forall (fun c => c <> sep) (before sep s).
Proof.
  induction s as [|c s IH]; simpl; [constructor|].
  destruct (Ascii.eqb c sep) eqn:E; [constructor|].
  constructor; [|exact IH]. intros ->. rewrite Ascii.eqb_refl in E. discriminate.
Qed.

Lemma before_prefix (sep : ascii) (s : text) :
  s = before sep s \/ exists rest, s = before sep s ++ sep :: rest.
Proof.
  induction s as [|c s IH]; simpl; [left; reflexivity|].
  destruct (Ascii.eqb c sep) eqn:E.
  - apply Ascii.eqb_eq in E. subst c. right. exists s. reflexivity.
  - destruct IH as [IH | [rest IH]].
    + left. congruence.
    + right. exists rest. simpl. congruence.
Qed.

Lemma before_keeps (P : ascii -> Prop) (sep : ascii) (s : text) :
  Forall P s -> Forall P (before sep s).
Proof.
  induction 1 as [|c s Hc _ IH]; simpl; [constructor|].
  destruct (Ascii.eqb c sep); constructor; assumption.
Qed.

Lemma case_change_plain (c : ascii) :
  (Py.upper_char c = "@"%char -> c = "@"%char) /\
  (Py.upper_char c = "."%char -> c = "."%char) /\
  (Py.lower_char c = "@"%char -> c = "@"%char) /\
  (Py.lower_char c = "."%char -> c = "."%char).
Proof. ascii_cases c; vm_compute; repeat split; congruence. Qed.

Lemma capitalize_plain (s : text) :
  Forall (fun c => c <> "@"%char /\ c <> "."%char) s ->
  Forall (fun c => c <> "@"%char /\ c <> "."%char) (Py.capitalize s).
Proof.
  intros H. destruct H as [|c s [Hc1 Hc2] Hs]; [constructor|].
  simpl. constructor.
  - destruct (case_change_plain c) as (H1 & H2 & _). split; auto.
  - unfold Py.lower. apply Forall_map. eapply Forall_impl; [exact Hs|].
    intros x [Hx1 Hx2]. simpl.
    destruct (case_change_plain x) as (_ & _ & H3 & H4). split; auto.
Qed.

(** The name the candidate is addressed by. *)
Definition name_of (email : text) : text :=
  if Py.contains (txt "@") email
  then Py.capitalize (before "." (before "@" email))
  else txt "Candidate".

Lemma extract_candidate_name_run (a : Agent) :
  _extract_candidate_name a = ([], a, Ok (name_of (candidate_email a))).
Proof.
  unfold _extract_candidate_name, name_of, bind, get, lift, ret.
  destruct (Py.contains (txt "@") (candidate_email a)); [|reflexivity].
  destruct (split_head "@" (candidate_email a)) as [r1 ->]. cbn [first_item].
  destruct (split_head "." (before "@" (candidate_email a))) as [r2 ->].
  reflexivity.
Qed.

(** X1. [_extract_candidate_name] always returns, asks nothing of the
    outside and leaves the agent as it is.  For an address with an
    ["@"] the name is the text before the first ["@"] or ["."] of the
    address, whichever comes first, capitalised; otherwise it is
    ["Candidate"].  The name has no ["@"] and no ["."]; it is empty
    when the address starts with one of them. *)
Theorem candidate_name_is_capitalised_prefix (a : Agent) :
  let email := candidate_email a in
  exists name,
    _extract_candidate_name a = ([], a, Ok name) /\
    Forall (fun c => c <> "@"%char /\ c <> "."%char) name /\
    (Py.contains (txt "@") email = false -> name = txt "Candidate") /\
    (Py.contains (txt "@") email = true ->
     exists pre c rest,
       email = pre ++ c :: rest /\ (c = "@"%char \/ c = "."%char) /\
       Forall (fun c => c <> "@"%char /\ c <> "."%char) pre /\
       name = Py.capitalize pre /\
       (name = [] <-> pre = [])).
Proof.
  intros email. exists (name_of email).
  split; [apply extract_candidate_name_run|].
  assert (Hpre : Forall (fun c => c <> "@"%char /\ c <> "."%char)
                   (before "." (before "@" email))).
  { apply Forall_and. split.
    - apply before_keeps, before_free.
    - apply before_free. }
  unfold name_of. destruct (Py.contains (txt "@") email) eqn:Hat.
  - split; [apply capitalize_plain, Hpre|]. split; [discriminate|]. intros _.
    assert (Hsplit : exists c rest,
              email = before "." (before "@" email) ++ c :: rest /\
              (c = "@"%char \/ c = "."%char)).
    { destruct (before_prefix "@" email) as [E | [r1 E]].
      - exfalso. apply contains_spec in Hat as (x & y & Hx).
        pose proof (before_free "@" email) as Hf. rewrite <- E in Hf.
        rewrite Hx in Hf. apply Forall_app in Hf as [_ Hf].
        inversion Hf as [|? ? Hc _]. apply Hc. reflexivity.
      - destruct (before_prefix "." (before "@" email)) as [E2 | [r2 E2]].
        + exists "@"%char, r1. split; [|auto]. rewrite <- E2. exact E.
        + exists "."%char, (r2 ++ "@"%char :: r1). split; [|auto].
          rewrite E at 1. rewrite E2 at 1. rewrite <- app_assoc. reflexivity. }
    destruct Hsplit as (c & rest & E & Hc).
    exists (before "." (before "@" email)), c, rest.
    repeat split; try assumption.
    + destruct (before "." (before "@" email)); [reflexivity | discriminate].
    + intros ->. reflexivity.
  - split; [|split; [reflexivity | discriminate]].
    repeat constructor; discriminate.
Qed.

Lemma upper_char_alnum (c : ascii) :
  alnum c = true -> (Py.is_upper (Py.upper_char c) || Py.is_digit (Py.upper_char c)) = true.
Proof. ascii_cases c; vm_compute; congruence. Qed.

Lemma address_form_at (e : text) : address_form e -> Py.contains (txt "@") e = true.
Proof.
  intros [c0 local c1 dom tld _ _ _ _ _ _ _ _].
  apply contains_spec. exists (c0 :: local), ((c1 :: dom) ++ "."%char :: tld).
  reflexivity.
Qed.

(** X2. The agent that the application builds is addressed to the
    address found in the resume.  For such an agent the name of the
    candidate is never empty: it is read from the address and starts
    with the first character of the address turned to upper case, a
    letter in upper case or a digit. *)
Theorem extracted_address_gives_a_name (t e : text) (a : Agent) :
  extract_email_from_text t = Ok (Some e) ->
  candidate_email a = e ->
  exists c rest,
    head e = Some c /\
    _extract_candidate_name a =
      ([], a, Ok (Py.upper_char c :: rest)) /\
    (Py.is_upper (Py.upper_char c) || Py.is_digit (Py.upper_char c)) = true.
Proof.
  intros He Ha. rewrite extract_email_spec in He. injection He as He.
  apply max_by_len_spec in He as [Hin _].
  apply candidate_form in Hin as [Hform _].
  pose proof (address_form_at e Hform) as Hat.
  destruct Hform as [c0 local c1 dom tld H0 _ _ _ _ _ _ _].
  exists c0. eexists. split; [reflexivity|].
  rewrite extract_candidate_name_run, Ha. unfold name_of. rewrite Hat.
  destruct (alnum_not_special c0 H0) as (N1 & N2 & _).
  cbn [app before].
  destruct (Ascii.eqb c0 "@") eqn:E1; [apply Ascii.eqb_eq in E1; congruence|].
  cbn [before].
  destruct (Ascii.eqb c0 ".") eqn:E2; [apply Ascii.eqb_eq in E2; congruence|].
  cbn [Py.capitalize]. split; [reflexivity|].
  apply upper_char_alnum, H0.
Qed.

Lemma extracted_address_gives_a_name_witness :
  exists c rest,
    head (txt "j.doe@example.com") = Some c /\
    _extract_candidate_name sample_agent =
      ([], sample_agent, Ok (Py.upper_char c :: rest)) /\
    (Py.is_upper (Py.upper_char c) || Py.is_digit (Py.upper_char c)) = true.
Proof.
  apply (extracted_address_gives_a_name (txt "Reach me at j.doe@example.com.")
           (txt "j.doe@example.com") sample_agent);
    vm_compute; reflexivity.
Defined.

(** ** White space at the ends, and the end of a line *)

Lemma lstrip_suffix (s : text) : exists pre, s = pre ++ Py.lstrip s.
Proof.
  induction s as [|c s [pre IH]]; simpl.
  - exists []. reflexivity.
  - destruct (Py.isspace c).
    + exists (c :: pre). simpl. congruence.
    + exists []. reflexivity.
Qed.

Lemma rstrip_prefix (s : text) : exists post, s = Py.rstrip s ++ post.
Proof.
  unfold Py.rstrip. destruct (lstrip_suffix (rev s)) as [pre E].
  exists (rev pre). rewrite <- rev_app_distr, <- E, rev_involutive. reflexivity.
Qed.

(** What [strip] returns is a piece of its argument. *)
Lemma strip_inside (s : text) : exists pre post, s = pre ++ Py.strip s ++ post.
Proof.
  unfold Py.strip. destruct (lstrip_suffix s) as [pre E].
  destruct (rstrip_prefix (Py.lstrip s)) as [post E2].
  exists pre, post. rewrite <- E2. exact E.
Qed.

Lemma strip_keeps (P : ascii -> Prop) (s : text) :
  Forall P s -> Forall P (Py.strip s).
Proof.
  intros H. destruct (strip_inside s) as (pre & post & E). rewrite E in H.
  apply Forall_app in H as [_ H]. apply Forall_app in H as [H _]. exact H.
Qed.

Definition line_feed : ascii := ascii_of_nat 10.

(** The longest prefix of a text made of characters of a class. *)
Fixpoint run (p : ascii -> bool) (s : text) : text :=
  match s with
  | c :: s' => if p c then c :: run p s' else []
  | [] => []
  end.

Lemma run_spec (p : ascii -> bool) (s : text) :
  s = run p s ++ drop (length (run p s)) s /\
  Forall (fun c => p c = true) (run p s) /\
  match drop (length (run p s)) s with
  | c :: _ => p c = false
  | [] => True
  end.
Proof.
  induction s as [|c s (IH1 & IH2 & IH3)]; simpl.
  - repeat split. constructor.
  - destruct (p c) eqn:Hc; simpl.
    + split; [congruence|]. split; [constructor; assumption | exact IH3].
    + repeat split; [constructor | exact Hc].
Qed.

(** A greedy repetition before a continuation that accepts whatever
    is left takes every character it can. *)
Lemma rep_greedy_longest {A : Type} (p : ascii -> bool) (lo : nat)
    (k : option ascii -> text -> option A) :
  (forall prev s, is_Some (k prev s)) ->
  forall s n prev,
    Re.rep_greedy p lo n prev s k =
    if lo <=? n + length (run p s)
    then k (last_of prev (run p s)) (drop (length (run p s)) s)
    else None.
Proof.
  intros Hk. induction s as [|c s IH]; intros n prev; simpl.
  - rewrite Nat.add_0_r. reflexivity.
  - destruct (p c) eqn:Hc; simpl.
    + rewrite IH. rewrite last_of_cons.
      replace (n + S (length (run p s))) with (S n + length (run p s)) by lia.
      destruct (lo <=? S n + length (run p s)) eqn:Hlo.
      * destruct (Hk (last_of (Some c) (run p s))
                    (drop (length (run p s)) s)) as [a ->]. reflexivity.
      * apply Nat.leb_gt in Hlo.
        replace (lo <=? n) with false by (symmetry; apply Nat.leb_gt; lia).
        reflexivity.
    + rewrite Nat.add_0_r. reflexivity.
Qed.

Lemma search_end_search (r : Re.regex) (s : text) : forall prev,
  Re.search_from r prev s = option_map fst (PyMore.search_end_from r prev s).
Proof.
  induction s as [|c s IH]; intros prev; simpl;
    destruct (Re.match_at r prev _) as [[rest g]|]; try reflexivity.
  apply IH.
Qed.

(** A literal under IGNORECASE matches the texts that differ from it
    by the case of their letters only. *)
Lemma matches_lit_ci (s : text) : forall prev w rest cin cout,
  matches (Re.lit_of Re.ci s) prev w rest cin cout ->
  Py.lower w = Py.lower s.
Proof.
  induction s as [|c s IH]; intros prev w rest cin cout.
  - simpl. intros [-> _]. reflexivity.
  - destruct s as [|c' s'].
    + simpl. unfold Re.ci. intros ((x & -> & Hx) & _).
      apply Ascii.eqb_eq in Hx. simpl. congruence.
    + change (Re.lit_of Re.ci (c :: c' :: s'))
        with (Re.Seq (Re.Chr (Re.ci c)) (Re.lit_of Re.ci (c' :: s'))).
      cbn [matches].
      intros (u & v & cmid & -> & ((x & -> & Hx) & _) & Hv).
      apply IH in Hv. unfold Re.ci in Hx. apply Ascii.eqb_eq in Hx.
      unfold Py.lower in *. simpl in *. congruence.
Qed.

(** The text [line] is a subject line of [s]: it follows the word
    [subject], in any case of its letters, and one or more colons and
    white spaces, and runs to the end of its line. *)
Definition subject_line_of (s line after : text) : Prop :=
  exists lead marker separators,
    s = lead ++ marker ++ separators ++ line ++ after /\
    Py.lower marker = txt "subject" /\
    separators <> [] /\
    Forall (fun c => c = ":"%char \/ Py.isspace c = true) separators /\
    line <> [] /\
    Forall (fun c => c <> line_feed) line /\
    match after with c :: _ => c = line_feed | [] => True end.

Lemma subject_line (s : text) : forall prev g after,
  PyMore.search_end_from subject_pattern prev s = Some (g, after) ->
  subject_line_of s g after.
Proof.
  induction s as [|c s IH]; intros prev g after; simpl.
  - destruct (Re.match_at subject_pattern prev []) as [[rest g']|] eqn:Hm;
      [|discriminate].
    vm_compute in Hm. discriminate.
  - destruct (Re.match_at subject_pattern prev (c :: s)) as [[rest g']|] eqn:Hm.
    + intros [= <- <-]. clear IH.
      unfold Re.match_at, subject_pattern in Hm. cbn [Re.m] in Hm.
      apply m_sound in Hm as (w1 & s1 & cap1 & E1 & Hw1 & Hm).
      apply rep_greedy_sound in Hm as (w2 & s2 & E2 & Hw2 & Hl2 & Hm).
      rewrite rep_greedy_longest in Hm by (intros; eexists; reflexivity).
      destruct (1 <=? 0 + length (run _ s2)) eqn:Hlen; [|discriminate].
      apply Nat.leb_le in Hlen. injection Hm as <- <-.
      destruct (run_spec (Re.notc (Re.one (ascii_of_nat 10))) s2)
        as (E3 & Hrun & Hrest).
      set (g := run (Re.notc (Re.one (ascii_of_nat 10))) s2) in *.
      set (rest := drop (length g) s2) in *.
      assert (Hg : take (length s2 - length rest) s2 = g).
      { rewrite E3 at 1 2. rewrite length_app.
        replace (length g + length rest - length rest) with (length g) by lia.
        apply take_app_length. }
      cbn [default]. rewrite Hg.
      exists [], w1, w2. split; [|split; [|split; [|split; [|split; [|split]]]]].
      * rewrite E1, E2, E3. reflexivity.
      * apply matches_lit_ci in Hw1. rewrite Hw1. vm_compute. reflexivity.
      * intros E. rewrite E in Hl2. simpl in Hl2. lia.
      * eapply Forall_impl; [exact Hw2|]. intros x Hx.
        unfold Re.orc, Re.one, Re.space in Hx.
        apply orb_true_iff in Hx as [Hx|Hx]; [left | right; exact Hx].
        apply Ascii.eqb_eq in Hx. congruence.
      * intros E. rewrite E in Hlen. simpl in Hlen. lia.
      * eapply Forall_impl; [exact Hrun|]. intros x Hx ->.
        vm_compute in Hx. discriminate.
      * destruct rest as [|x rest']; [exact I|].
        unfold Re.notc, Re.one in Hrest. apply negb_false_iff in Hrest.
        apply Ascii.eqb_eq in Hrest. symmetry. exact Hrest.
    + intros H. apply IH in H
        as (lead & marker & seps & -> & H). exists (c :: lead), marker, seps.
      split; [reflexivity | exact H].
Qed.

Lemma subject_search (s g : text) :
  Re.search subject_pattern s = Some g ->
  exists after, subject_line_of s g after.
Proof.
  unfold Re.search. rewrite search_end_search.
  destruct (PyMore.search_end_from subject_pattern None s) as [[g' after]|] eqn:H;
    [|discriminate].
  intros [= <-]. exists after. eapply subject_line, H.
Qed.

(** ** The draft *)

(** X3. A generate-email request that returns leaves a draft
    addressed to the candidate, whose body is the reply of the model
    with the white space at its ends removed.  Its subject is a single
    line with no white space at either end: the default subject when
    the instruction has no subject line, and otherwise what follows the
    word [subject] and its colons and white spaces in the instruction,
    up to the end of the line. *)
Theorem draft_is_trimmed (w : World)
    (ep : dict -> text -> text -> result text)
    (fe : text -> text -> text -> text -> text)
    (query : text) (a : Agent) (reply : text) :
  outcome (_generate_email w ep fe query a) = Ok reply ->
  exists d,
    generated_email (final (_generate_email w ep fe query a)) = Some d /\
    to d = candidate_email a /\
    Py.strip (body d) = body d /\
    Py.strip (subject d) = subject d /\
    Forall (fun c => c <> line_feed) (subject d) /\
    match Re.search subject_pattern query with
    | None => subject d = txt "Regarding Your Application"
    | Some line =>
        subject d = Py.strip line /\
        exists after, subject_line_of query line after
    end.
Proof.
  intros Hout. pose proof (generate_run w ep fe query a) as H. cbv zeta in H.
  destruct (ep _ _ _) as [prompt|e]; [|rewrite H in Hout; discriminate].
  destruct (llm_invoke w prompt) as [email_body|e];
    [|rewrite H in Hout; discriminate].
  destruct H as [reply' H]. rewrite H. exists (draft_of query email_body a).
  split; [reflexivity|]. cbn [subject body to draft_of].
  split; [reflexivity|]. split; [apply strip_idempotent|].
  unfold subject_of.
  destruct (Re.search subject_pattern query) as [line|] eqn:Hs.
  - destruct (subject_search query line Hs) as [after Hline].
    split; [apply strip_idempotent|]. split.
    + apply strip_keeps.
      destruct Hline as (_ & _ & _ & _ & _ & _ & _ & _ & Hl & _). exact Hl.
    + split; [reflexivity|]. exists after. exact Hline.
  - split; [vm_compute; reflexivity|]. split; [|reflexivity].
    apply List.Forall_forall. intros c Hc ->. vm_compute in Hc.
    intuition discriminate.
Qed.

Lemma draft_is_trimmed_witness :
  exists d,
    generated_email
      (final (_generate_email only_deepseek sample_email_prompt
                sample_format_email (txt "draft email, subject:  Interview  ")
                sample_agent)) = Some d /\
    to d = candidate_email sample_agent /\
    Py.strip (body d) = body d /\
    Py.strip (subject d) = subject d /\
    Forall (fun c => c <> line_feed) (subject d) /\
    match Re.search subject_pattern (txt "draft email, subject:  Interview  ") with
    | None => subject d = txt "Regarding Your Application"
    | Some line =>
        subject d = Py.strip line /\
        exists after,
          subject_line_of (txt "draft email, subject:  Interview  ") line after
    end.
Proof.
  eapply (draft_is_trimmed only_deepseek sample_email_prompt
            sample_format_email (txt "draft email, subject:  Interview  ")
            sample_agent).
  vm_compute. reflexivity.
Defined.

(** ** The order of the SMTP dialogue *)

(** X4. The dispatch goes through the steps of the dialogue in the
    order compose, connect, STARTTLS, log in, send, and stops at the
    first one that raises; with an incomplete configuration it goes
    through none.  So the password is presented only after STARTTLS
    has succeeded, the message is handed over only after the log-in
    has succeeded, and the dispatch reports success only when each of
    the five steps has succeeded. *)
Theorem dispatch_follows_the_dialogue
    (w : World) (subject body recipient_email : text)
    (u p s o : option text) (a : Agent) :
  let run := _send_email_to_candidate w subject body recipient_email u p s o a in
  let job := job_of w subject body recipient_email u p s o in
  dialogue (trace run) =
    (if credentials_complete w u p s o then attempted w job smtp_steps else []) /\
  (In Login (dialogue (trace run)) ->
   smtp w Connect job = Ok tt /\ smtp w StartTLS job = Ok tt) /\
  (In SendMessage (dialogue (trace run)) -> smtp w Login job = Ok tt) /\
  (outcome run = Ok true ->
   forall step, In step smtp_steps -> smtp w step job = Ok tt).
Proof.
  intros run job.
  destruct (credentials_complete w u p s o) eqn:H.
  - assert (Hrun : run = _send_email_to_candidate w subject body
                           recipient_email u p s o a) by reflexivity.
    clearbody run. revert Hrun.
    unfold _send_email_to_candidate, try_except.
    unfold credentials_complete, resolved_credentials in H. rewrite H.
    cbn [negb].
    destruct (extract_candidate_name_total a) as [name Hn].
    unfold bind at 1. cbn beta. rewrite Hn.
    fold (job_of w subject body recipient_email u p s o). fold job.
    unfold attempted, smtp_steps, with_server, smtp_do, bind, emit, log,
      lift, ret.
    destruct (smtp w Compose job) as [[]|e1] eqn:E1; simpl;
      [destruct (smtp w Connect job) as [[]|e2] eqn:E2; simpl;
       [destruct (smtp w StartTLS job) as [[]|e3] eqn:E3; simpl;
        [destruct (smtp w Login job) as [[]|e4] eqn:E4; simpl;
         [destruct (smtp w SendMessage job) as [[]|e5] eqn:E5; simpl|]|];
        destruct (smtp_quit w job) as [[]|e6] eqn:E6; simpl|]|];
      intros ->; unfold dialogue, trace, outcome; simpl;
      (split; [reflexivity|]);
      (split; [intros Hin; try (split; reflexivity);
               exfalso; intuition discriminate|]);
      (split; [intros Hin; try reflexivity; exfalso; intuition discriminate|]);
      intros Hout; try discriminate;
      intros step Hin; simpl in Hin;
      repeat (destruct Hin as [<-|Hin]; [assumption|]); destruct Hin.
  - unfold run. rewrite (send_missing _ _ _ _ _ _ _ _ _ H).
    unfold dialogue, trace, outcome. simpl.
    split; [reflexivity|]. split; [tauto|]. split; [tauto | discriminate].
Qed.

(** ** A history that has lost its system message *)

Lemma filter_system_app (h : list message) (prompt : text) :
  filter (fun msg => is_system msg = true) h = [] ->
  filter (fun msg => is_system msg = true) (h ++ [SystemMessage prompt]) =
    [SystemMessage prompt] /\
  filter (fun msg => is_system msg = false) (h ++ [SystemMessage prompt]) = h.
Proof.
  intros H. rewrite !filter_app, H. split; [reflexivity|].
  replace (filter (fun msg => is_system msg = false) [SystemMessage prompt])
    with (@nil message) by reflexivity.
  rewrite app_nil_r.
  induction h as [|msg h IH]; [reflexivity|].
  destruct msg as [c|c|c].
  - rewrite filter_cons_True in H by reflexivity. discriminate.
  - rewrite filter_cons_False in H by (cbn; discriminate).
    rewrite filter_cons_True by reflexivity. rewrite IH by exact H. reflexivity.
  - rewrite filter_cons_False in H by (cbn; discriminate).
    rewrite filter_cons_True by reflexivity. rewrite IH by exact H. reflexivity.
Qed.

(** X5. A regular query asked of an agent whose history has no system
    message: the system context is built again and appended to the
    history, and the model is asked with this context first, then the
    past exchanges, then the query.  When the model answers, the query
    and the answer follow the new system message in the history; when
    the call raises, the new system message stays; when the context
    cannot be built, the model is not asked and the agent is
    unchanged. *)
Theorem regular_query_rebuilds_the_context (w : World)
    (sp : dict -> text -> text -> result text) (query : text) (a : Agent) :
  filter (fun msg => is_system msg = true) (message_history a) = [] ->
  let run := regular_query w sp query a in
  match sp (resume_data a) (job_description_text a) (candidate_email a) with
  | Raise e => run = ([], a, Raise e)
  | Ok prompt =>
      let messages :=
        (txt "system", prompt) :: omap role_of (message_history a) ++
        [(txt "human", txt "{input}")] in
      trace run = [ChainInvoke messages query] /\
      outcome run = chain_invoke w messages query /\
      final run =
        set_history
          (message_history a ++ SystemMessage prompt ::
           match chain_invoke w messages query with
           | Ok response_text =>
               [HumanMessage query; AIMessage response_text]
           | Raise _ => []
           end) a
  end.
Proof.
  intros Hf run. unfold run, regular_query. rewrite bind_get, Hf. cbv iota.
  unfold _initialize_context. run_m.
  destruct (sp _ _ _) as [prompt|e]; run_m; [|reflexivity].
  cbn [message_history set_history]. unfold system_entry.
  destruct (filter_system_app (message_history a) prompt Hf) as [-> ->].
  cbn [content_of app].
  destruct (chain_invoke w _ query) as [resp|e]; run_m;
    unfold ret, trace, outcome, final; cbn;
    rewrite <- ?app_assoc; repeat split; reflexivity.
Qed.

Lemma regular_query_rebuilds_the_context_witness :
  let a := set_history [] sample_agent in
  final (regular_query only_deepseek sample_system_prompt
           (txt "How many years of experience?") a) =
  set_history
    [SystemMessage (txt "You are an expert HR assistant");
     HumanMessage (txt "How many years of experience?");
     AIMessage (txt "Five years.")] a.
Proof.
  intros a.
  destruct (regular_query_rebuilds_the_context only_deepseek
              sample_system_prompt (txt "How many years of experience?") a
              eq_refl) as (_ & _ & H).
  exact H.
Defined.

(** ** The analysis of a resume *)

(** Reading the response leaves the state alone and logs nothing but
    warnings; it raises only what the decoder raises. *)
Lemma parse_response_run (json_loads : text -> result dict)
    (response_text : text) (S : Type) (s : S) :
  exists t r,
    parse_response json_loads response_text s = (t, s, r) /\
    Forall (fun e => exists msg, e = Log WARNING msg) t /\
    (forall e, r = Raise e ->
       exists json_str,
         Re.search0 json_block response_text = Some json_str /\
         json_loads json_str = Raise e /\ kind e <> JSONDecodeError).
Proof.
  unfold parse_response.
  destruct (manual_extraction_fields response_text) as (d & Hd & _).
  assert (Hmanual : forall msg,
            exists t r,
              (do log WARNING msg then
               lift (extract_analysis_manually response_text)) s = (t, s, r) /\
              Forall (fun e => exists msg, e = Log WARNING msg) t /\
              forall e, r = Raise e -> False).
  { intros msg. unfold log. rewrite bind_emit, Hd.
    eexists _, (Ok d). split; [reflexivity|]. split; [|discriminate].
    repeat constructor. eexists; reflexivity. }
  destruct (Re.search0 json_block response_text) as [json_str|].
  - destruct (json_loads json_str) as [r|e] eqn:Hj.
    + exists [], (Ok r). split; [reflexivity|]. split; [constructor | discriminate].
    + destruct (kind e) eqn:Hk;
        try (exists [], (Raise e); split; [reflexivity|];
             split; [constructor|]; intros e' [= <-]; exists json_str;
             split; [reflexivity|]; split; [exact Hj | congruence]).
      destruct (Hmanual (txt "Failed to parse JSON response, extracting manually"))
        as (t & r & Hrun & Ht & Hr).
      exists t, r. split; [exact Hrun|]. split; [exact Ht|].
      intros e' He'. destruct (Hr e' He').
  - destruct (Hmanual (txt "No JSON found in response, extracting manually"))
      as (t & r & Hrun & Ht & Hr).
    exists t, r. split; [exact Hrun|]. split; [exact Ht|].
    intros e' He'. destruct (Hr e' He').
Qed.

Lemma normalize_keeps (repr : value -> text) (d r : dict) (key : string) :
  normalize repr d = Ok r -> key <> "match_percentage"%string ->
  r !! key = d !! key.
Proof.
  unfold normalize. intros H Hk.
  destruct (d !! "match_percentage"%string) as [v|]; [|congruence].
  destruct (to_percentage repr v) as [f|e]; [|discriminate].
  injection H as <-. apply lookup_insert_ne. congruence.
Qed.

Lemma normalize_float (repr : value -> text) (d r : dict) (v : value) :
  normalize repr d = Ok r -> r !! "match_percentage"%string = Some v ->
  exists f, v = VFloat f.
Proof.
  unfold normalize. intros H Hv.
  destruct (d !! "match_percentage"%string) as [v0|] eqn:Hd; [|congruence].
  destruct (to_percentage repr v0) as [f|e]; [|discriminate].
  injection H as <-. rewrite lookup_insert_eq in Hv. exists f. congruence.
Qed.

(** The outcome and the final state of a sequence, and of a [try]
    whose handler logs and raises. *)
Lemma bind_outcome {S A B : Type} (c : M S A) (k : A -> M S B) (s : S) :
  outcome (bind c k s) =
    match outcome (c s) with
    | Ok a => outcome (k a (final (c s)))
    | Raise e => Raise e
    end /\
  final (bind c k s) =
    match outcome (c s) with
    | Ok a => final (k a (final (c s)))
    | Raise _ => final (c s)
    end.
Proof.
  unfold bind, outcome, final. destruct (c s) as [[t1 s1] [a|e]]; cbn.
  - destruct (k a s1) as [[t2 s2] r2]. split; reflexivity.
  - split; reflexivity.
Qed.

Lemma try_except_wrap {S A : Type} (c : M S A) (h : exn -> M S A)
    (entry : exn -> effect) (wrap : exn -> exn) (s : S) :
  (forall e s', h e s' = ([entry e], s', Raise (wrap e))) ->
  final (try_except c h s) = final (c s) /\
  match outcome (c s) with
  | Ok a => outcome (try_except c h s) = Ok a
  | Raise e =>
      outcome (try_except c h s) = Raise (wrap e) /\
      last (trace (try_except c h s)) = Some (entry e)
  end.
Proof.
  intros Hh. unfold try_except, outcome, final, trace.
  destruct (c s) as [[t1 s1] [a|e]]; cbn; [split; reflexivity|].
  rewrite Hh. cbn. rewrite last_snoc. repeat split; reflexivity.
Qed.

Section Analysis.
Variable environ : string -> option text.
Variable GEMINI_AVAILABLE : bool.
Variable new_model : model -> result unit.
Variable invoke : model -> text -> result text.
Variable json_loads : text -> result dict.
Variable repr : value -> text.
Variable format_prompt : text -> text -> text.

(** The message of an exception once the secrets of the process are
    masked. *)
Definition sanitized (cause : text) : text :=
  logger.sanitize_error_message (config.getenv environ) cause None.

(** What the body of the [try] of [analyze_resume] comes to. *)
Definition analysed (resume_text job_description_text : text) : result dict :=
  let? model := resolved environ GEMINI_AVAILABLE new_model in
  let? response_text :=
    invoke model (format_prompt resume_text job_description_text) in
  let? analysis_result :=
    outcome (parse_response json_loads response_text tt) in
  normalize repr
    (<["email"%string :=
         email_value (Py.max_by_len (candidates resume_text))]>
       analysis_result).

Lemma parse_response_outcome (response_text : text) (S : Type) (s : S) :
  outcome (parse_response json_loads response_text s) =
  outcome (parse_response json_loads response_text tt).
Proof using Type.
  unfold parse_response.
  destruct (Re.search0 json_block response_text) as [json_str|];
    [destruct (json_loads json_str) as [d|e]; [|destruct (kind e)]|];
    reflexivity.
Qed.

Lemma analyze_resume_run (resume_text job_description_text : text)
    (S : Type) (s : S) :
  let run :=
    analyze_resume environ GEMINI_AVAILABLE new_model invoke json_loads repr
      format_prompt resume_text job_description_text s in
  final run = s /\
  match analysed resume_text job_description_text with
  | Ok d => outcome run = Ok d
  | Raise e =>
      outcome run =
        Raise (Exn ValueError
                 (txt "Failed to analyze resume: " ++ sanitized (exn_str e))) /\
      last (trace run) =
        Some (Log ERROR (txt "Error during resume analysis: " ++
                         sanitized (exn_str e)))
  end.
Proof using Type.
  intros run. unfold run, analyze_resume.
  rewrite extract_email_spec, bind_lift_ok.
  match goal with
  | |- context [try_except ?c ?h s] =>
      pose proof (try_except_wrap c h
        (fun e => Log ERROR (txt "Error during resume analysis: " ++
                             sanitized (exn_str e)))
        (fun e => Exn ValueError
                    (txt "Failed to analyze resume: " ++ sanitized (exn_str e)))
        s (fun e s' => eq_refl)) as [Hf Ho];
      assert (Hbody : outcome (c s) =
                      analysed resume_text job_description_text /\
                      final (c s) = s);
      [|destruct Hbody as [Hb1 Hb2]; rewrite Hb1 in Ho; rewrite Hb2 in Hf;
        split; [exact Hf | exact Ho]]
  end.
  unfold analysed.
  destruct (resume_get_llm_model_outcome environ GEMINI_AVAILABLE new_model S s)
    as [Hm1 Hm2].
  match goal with
  | |- context [bind ?c ?k s] => destruct (bind_outcome c k s) as [-> ->]
  end.
  rewrite Hm1, Hm2.
  destruct (resolved environ GEMINI_AVAILABLE new_model) as [m|e];
    cbn [rbind]; [|split; reflexivity].
  match goal with
  | |- context [bind ?c ?k s] => destruct (bind_outcome c k s) as [-> ->]
  end.

  destruct (invoke m (format_prompt resume_text job_description_text))
    as [response_text|e]; cbn [rbind]; [|split; reflexivity].
  change (outcome (lift (Ok response_text) s)) with (Ok (A:=text) response_text).
  change (final (lift (Ok response_text) s)) with s. cbv iota beta.
  match goal with
  | |- context [bind ?c ?k s] => destruct (bind_outcome c k s) as [-> ->]
  end.
  rewrite <- (parse_response_outcome response_text S s).
  destruct (parse_response_run json_loads response_text S s)
    as (t2 & r & Hp & _).
  rewrite Hp. unfold lift, outcome, final. cbn [fst snd rbind].
  destruct r; split; reflexivity.
Qed.
End Analysis.

(** X6. [analyze_resume] leaves the state of its caller alone and
    either returns a result or raises a [ValueError].  A result holds
    under ["email"] the address extracted from the resume, whatever
    the model wrote there, and under ["match_percentage"], if the
    field is present, a float.  A failure of any step (no backend, the
    call of the model, the decoder raising anything but
    [JSONDecodeError], the conversion of the percentage) is raised as a
    [ValueError] whose message is the prefix ["Failed to analyze
    resume: "] and the sanitised message of the cause, which is logged
    last, as an error. *)
Theorem analysis_returns_or_raises_value_error
    (environ : string -> option text) (GEMINI_AVAILABLE : bool)
    (new_model : model -> result unit) (invoke : model -> text -> result text)
    (json_loads : text -> result dict) (repr : value -> text)
    (format_prompt : text -> text -> text)
    (resume_text job_description_text : text) (S : Type) (s : S) :
  let run :=
    analyze_resume environ GEMINI_AVAILABLE new_model invoke json_loads repr
      format_prompt resume_text job_description_text s in
  final run = s /\
  match outcome run with
  | Ok d =>
      (exists email,
         extract_email_from_text resume_text = Ok email /\
         d !! "email"%string = Some (email_value email)) /\
      (forall v, d !! "match_percentage"%string = Some v ->
                 exists f, v = VFloat f)
  | Raise e =>
      kind e = ValueError /\
      exists cause,
        exn_str e = txt "Failed to analyze resume: " ++ sanitized environ cause /\
        last (trace run) =
          Some (Log ERROR (txt "Error during resume analysis: " ++
                           sanitized environ cause))
  end.
Proof.
  intros run.
  destruct (analyze_resume_run environ GEMINI_AVAILABLE new_model invoke
              json_loads repr format_prompt resume_text job_description_text
              S s) as [Hf Ho].
  fold run in Hf, Ho. split; [exact Hf|].
  destruct (analysed _ _ _ _ _ _ _ _ _) as [d|e] eqn:Ha.
  - rewrite Ho. unfold analysed in Ha.
    destruct (resolved environ GEMINI_AVAILABLE new_model) as [m|]; [|discriminate].
    cbn [rbind] in Ha.
    destruct (invoke m _) as [response_text|]; [|discriminate].
    cbn [rbind] in Ha.
    destruct (outcome (parse_response json_loads response_text tt)) as [r|];
      [|discriminate].
    cbn [rbind] in Ha. split.
    + exists (Py.max_by_len (candidates resume_text)).
      split; [apply extract_email_spec|].
      rewrite (normalize_keeps repr _ d "email" Ha) by discriminate.
      apply lookup_insert_eq.
    + intros v Hv. exact (normalize_float repr _ d v Ha Hv).
  - destruct Ho as [-> Hl]. split; [reflexivity|].
    exists (exn_str e). split; [reflexivity | exact Hl].
Qed.

(** X7. A reply of the model whose JSON gives the percentage as an
    integer too large for a float makes the whole analysis fail: the
    [OverflowError] of the conversion is not among the exceptions that
    the conversion handles, so it reaches the outer handler and comes
    out as a [ValueError]. *)
Theorem oversized_percentage_fails_the_analysis
    (environ : string -> option text) (GEMINI_AVAILABLE : bool)
    (new_model : model -> result unit) (invoke : model -> text -> result text)
    (json_loads : text -> result dict) (repr : value -> text)
    (format_prompt : text -> text -> text)
    (resume_text job_description_text : text) (S : Type) (s : S)
    (m : model) (response_text json_str : text) (d : dict) (z : Z) :
  resolved environ GEMINI_AVAILABLE new_model = Ok m ->
  invoke m (format_prompt resume_text job_description_text) = Ok response_text ->
  Re.search0 json_block response_text = Some json_str ->
  json_loads json_str = Ok d ->
  d !! "match_percentage"%string = Some (VInt z) ->
  (float_int_bound <= Z.abs z)%Z ->
  outcome (analyze_resume environ GEMINI_AVAILABLE new_model invoke json_loads
             repr format_prompt resume_text job_description_text s) =
  Raise (Exn ValueError
           (txt "Failed to analyze resume: " ++
            sanitized environ (txt "int too large to convert to float"))).
Proof.
  intros Hm Hi Hs Hj Hd Hz.
  destruct (analyze_resume_run environ GEMINI_AVAILABLE new_model invoke
              json_loads repr format_prompt resume_text job_description_text
              S s) as [_ Ho].
  unfold analysed in Ho. rewrite Hm in Ho. cbn [rbind] in Ho.
  rewrite Hi in Ho. cbn [rbind] in Ho.
  unfold parse_response in Ho. rewrite Hs, Hj in Ho.
  unfold ret, outcome at 1 in Ho. cbn [snd rbind] in Ho.
  unfold normalize in Ho.
  rewrite lookup_insert_ne, Hd in Ho by discriminate.
  unfold to_percentage, float in Ho.
  apply Z.ltb_ge in Hz. rewrite Hz in Ho. cbn [kind rbind exn_str] in Ho.
  destruct Ho as [Ho _]. exact Ho.
Qed.

Definition deepseek_only (name : string) : option text :=
  if bool_decide (name = "DEEPSEEK_API_KEY"%string)
  then Some (txt "sk-0123456789") else None.

Lemma oversized_percentage_fails_the_analysis_witness :
  outcome (analyze_resume deepseek_only true (fun _ => Ok tt)
             (fun _ _ => Ok (txt "{}"))
             (fun _ => Ok {[ "match_percentage"%string := VInt (2 ^ 1024) ]})
             (fun _ => []) (fun resume _ => resume)
             (txt "j.doe@example.com") (txt "Backend engineer") tt) =
  Raise (Exn ValueError
           (txt "Failed to analyze resume: " ++
            sanitized deepseek_only (txt "int too large to convert to float"))).
Proof.
  apply (oversized_percentage_fails_the_analysis deepseek_only true
           (fun _ => Ok tt) (fun _ _ => Ok (txt "{}"))
           (fun _ => Ok {[ "match_percentage"%string := VInt (2 ^ 1024) ]})
           (fun _ => []) (fun resume _ => resume)
           (txt "j.doe@example.com") (txt "Backend engineer") unit tt
           DeepSeek (txt "{}") (txt "{}")
           {[ "match_percentage"%string := VInt (2 ^ 1024) ]} (2 ^ 1024)).
  - reflexivity.
  - reflexivity.
  - vm_compute. reflexivity.
  - reflexivity.
  - apply lookup_singleton_eq.
  - vm_compute. discriminate.
Defined.

(** ** Texts with one address, texts with none *)

Lemma replace_go_keeps (P : ascii -> Prop) (old : text) (s : text) :
  forall skip, Forall P s -> Forall P (Py.replace_go old [] skip s).
Proof.
  induction s as [|c s IH]; intros skip H; simpl; [constructor|].
  inversion H as [|? ? Hc Hs]; subst.
  destruct skip as [|k]; [|apply IH, Hs].
  destruct (Py.startswith old (c :: s)); simpl; [apply IH, Hs|].
  constructor; [exact Hc | apply IH, Hs].
Qed.

Lemma clean_keeps (P : ascii -> Prop) (t : text) :
  Forall P t -> Forall P (clean t).
Proof.
  intros H. unfold clean, Py.replace. repeat apply replace_go_keeps. exact H.
Qed.

Lemma address_form_has_at (e : text) : address_form e -> In "@"%char e.
Proof.
  intros [c0 local c1 dom tld _ _ _ _ _ _ _ _].
  apply in_or_app. right. left. reflexivity.
Qed.

(** X8. A text with no ["@"] has no address: the extraction returns
    nothing. *)
Theorem no_at_sign_no_address (t : text) :
  ~ In "@"%char t -> extract_email_from_text t = Ok None.
Proof.
  intros Hno. rewrite extract_email_spec.
  destruct (candidates t) as [|e l] eqn:Hc; [reflexivity|].
  exfalso. destruct (candidate_form t e) as [Hform (A & B & E & _)].
  { rewrite Hc. left. reflexivity. }
  apply address_form_has_at in Hform.
  assert (Hclean : Forall (fun c => c <> "@"%char) (clean t)).
  { apply clean_keeps, List.Forall_forall. intros c Hin ->. exact (Hno Hin). }
  rewrite E in Hclean. apply Forall_app in Hclean as [_ Hclean].
  apply Forall_app in Hclean as [Hclean _].
  rewrite List.Forall_forall in Hclean. exact (Hclean _ Hform eq_refl).
Qed.

Lemma no_at_sign_no_address_witness :
  extract_email_from_text (txt "Email: available on request") = Ok None.
Proof.
  apply (no_at_sign_no_address (txt "Email: available on request")).
  vm_compute. intuition discriminate.
Defined.

(** *** One address between delimiters *)

Definition delimited_before (A : text) : Prop :=
  A = [] \/ exists A' c, A = A' ++ [c] /\ delimiter c = true.

Definition delimited_after (B : text) : Prop :=
  B = [] \/ exists c B', B = c :: B' /\ delimiter c = true.

Lemma primary_candidate_delimited (t g : text) :
  In g (Re.findall email_pattern t) ->
  address_form g /\
  exists A B, t = A ++ g ++ B /\ delimited_before A /\ delimited_after B.
Proof.
  intros H. apply findall_sound in H as (pre & w & rest & cap & -> & Hw & ->).
  unfold email_pattern in Hw. cbn [matches] in Hw.
  destruct Hw as (u & v & cmid & -> & Hu & u2 & v2 & cmid2 & -> &
                  ((c3 & Haddr) & ->) & Hv2).
  assert (Hcap : cap = Some u2)
    by (destruct Hv2 as [[_ ->] | (_ & _ & ->)]; reflexivity).
  subst cap. cbn [default]. split; [eapply address_matches; exact Haddr|].
  exists (pre ++ u), (v2 ++ rest). split.
  { rewrite <- !app_assoc. reflexivity. }
  split.
  - destruct Hu as [(-> & Hpre & _) | ((c & -> & Hc) & _)].
    + left. apply last_None in Hpre. subst pre. reflexivity.
    + right. exists pre, c. split; [reflexivity | exact Hc].
  - destruct Hv2 as [((c & -> & Hc) & _) | (-> & Heol & _)].
    + right. exists c, rest. split; [reflexivity | exact Hc].
    + destruct rest as [|c [|c' rest]]; simpl in Heol; try discriminate.
      * left. reflexivity.
      * right. exists c, []. split; [reflexivity|].
        apply Ascii.eqb_eq in Heol. subst c. reflexivity.
Qed.

Lemma alnum_local (c : ascii) : alnum c = true -> local_char c = true.
Proof. ascii_cases c; vm_compute; congruence. Qed.

Lemma alnum_domain (c : ascii) : alnum c = true -> domain_char c = true.
Proof. ascii_cases c; vm_compute; congruence. Qed.

Lemma local_not_delimiter (c : ascii) :
  local_char c = true -> delimiter c = false.
Proof. ascii_cases c; vm_compute; congruence. Qed.

Lemma domain_not_delimiter (c : ascii) :
  domain_char c = true -> delimiter c = false.
Proof. ascii_cases c; vm_compute; congruence. Qed.

Lemma tld_not_delimiter (c : ascii) :
  tld_char c = true -> delimiter c = false.
Proof. ascii_cases c; vm_compute; congruence. Qed.

(** The converse of [address_matches]. *)
Lemma address_form_matches prev e rest cin :
  address_form e -> matches address prev e rest cin cin.
Proof.
  intros [c0 local c1 dom tld H0 Hl Hll H1 Hd Hdl Ht Htl].
  unfold address. cbn [matches].
  exists [c0], (local ++ "@"%char :: (c1 :: dom) ++ "."%char :: tld), cin.
  split; [reflexivity|]. split; [split; [eauto | reflexivity]|].
  exists local, ("@"%char :: (c1 :: dom) ++ "."%char :: tld), cin.
  split; [reflexivity|]. split; [auto|].
  exists ["@"%char], ((c1 :: dom) ++ "."%char :: tld), cin.
  split; [reflexivity|]. split; [split; [exists "@"%char; auto | reflexivity]|].
  exists [c1], (dom ++ "."%char :: tld), cin.
  split; [reflexivity|]. split; [split; [eauto | reflexivity]|].
  exists dom, ("."%char :: tld), cin.
  split; [reflexivity|]. split; [auto|].
  exists ["."%char], tld, cin.
  split; [reflexivity|]. split; [split; [exists "."%char; auto | reflexivity]|].
  auto.
Qed.

(** The two sides of the ["@"] of an address. *)
Lemma address_form_sides (e : text) :
  address_form e ->
  exists l r,
    e = l ++ "@"%char :: r /\ l <> [] /\ r <> [] /\
    Forall (fun c => local_char c = true) l /\
    Forall (fun c => delimiter c = false /\ c <> "@"%char) r.
Proof.
  intros [c0 local c1 dom tld H0 Hl Hll H1 Hd Hdl Ht Htl].
  exists (c0 :: local), ((c1 :: dom) ++ "."%char :: tld).
  split; [reflexivity|]. split; [discriminate|]. split; [discriminate|].
  split.
  - constructor; [apply alnum_local, H0 | exact Hl].
  - apply Forall_app. split.
    + constructor.
      * split; [apply domain_not_delimiter, alnum_domain, H1|].
        apply alnum_not_special, H1.
      * eapply Forall_impl; [exact Hd|]. intros c Hc.
        split; [apply domain_not_delimiter, Hc | apply domain_char_not_at, Hc].
    + constructor; [split; [reflexivity | discriminate]|].
      eapply Forall_impl; [exact Ht|]. intros c Hc.
      split; [apply tld_not_delimiter, Hc | apply tld_char_plain, Hc].
Qed.

Lemma suffix_unique (P Q : ascii -> Prop) (A B u v : text) :
  (forall c, P c -> Q c -> False) ->
  A ++ u = B ++ v -> Forall P u -> Forall P v ->
  (A = [] \/ exists A' c, A = A' ++ [c] /\ Q c) ->
  (B = [] \/ exists B' c, B = B' ++ [c] /\ Q c) ->
  A = B /\ u = v.
Proof.
  intros HPQ E Hu Hv HA HB.
  assert (Hone : forall (A B u v : text),
            A ++ u = B ++ v -> Forall P v ->
            (A = [] \/ exists A' c, A = A' ++ [c] /\ Q c) ->
            forall l, A = B ++ l -> v = l ++ u -> l = []).
  { clear -HPQ. intros A B u v E Hv HA l EA Ev.
    destruct l as [|x l] using rev_ind; [reflexivity|]. exfalso.
    destruct HA as [-> | (A' & c & -> & Hc)].
    - apply (f_equal (@length ascii)) in EA. rewrite !length_app in EA.
      simpl in EA. lia.
    - rewrite app_assoc in EA. apply List.app_inj_tail in EA as [_ Ec].
      subst c v. apply Forall_app in Hv as [Hv _].
      apply Forall_app in Hv as [_ Hv]. inversion Hv; subst.
      eapply HPQ; eassumption. }
  destruct (app_eq_app _ _ _ _ E) as [l [[EA Ev] | [EB Eu]]].
  - assert (l = []) as -> by (eapply (Hone A B u v); eassumption).
    rewrite app_nil_r in EA. simpl in Ev. auto.
  - assert (l = []) as ->
      by (eapply (Hone B A v u); try eassumption; symmetry; exact E).
    rewrite app_nil_r in EB. simpl in Eu. auto.
Qed.

Lemma prefix_unique (P Q : ascii -> Prop) (A B u v : text) :
  (forall c, P c -> Q c -> False) ->
  u ++ A = v ++ B -> Forall P u -> Forall P v ->
  (A = [] \/ exists c A', A = c :: A' /\ Q c) ->
  (B = [] \/ exists c B', B = c :: B' /\ Q c) ->
  u = v /\ A = B.
Proof.
  intros HPQ E Hu Hv HA HB.
  destruct (suffix_unique P Q (rev A) (rev B) (rev u) (rev v) HPQ) as [E1 E2].
  - rewrite <- !rev_app_distr, E. reflexivity.
  - apply Forall_rev, Hu.
  - apply Forall_rev, Hv.
  - destruct HA as [-> | (c & A' & -> & Hc)]; [left; reflexivity|].
    right. exists (rev A'), c. split; [reflexivity | exact Hc].
  - destruct HB as [-> | (c & B' & -> & Hc)]; [left; reflexivity|].
    right. exists (rev B'), c. split; [reflexivity | exact Hc].
  - apply (f_equal (@rev ascii)) in E1, E2.
    rewrite !rev_involutive in E1, E2. auto.
Qed.

(** Where [search] finds a match, [findall] has one. *)
Lemma findall_go_nil (r : Re.regex) (s : text) : forall prev,
  Re.findall_go r 0 prev s = [] -> Re.search_from r prev s = None.
Proof.
  induction s as [|c s IH]; intros prev; simpl;
    destruct (Re.match_at r prev _) as [[rest g]|]; try discriminate;
    [reflexivity | apply IH].
Qed.

(** The only occurrence of an element splits a list in one way. *)
Lemma single_split {A : Type} (p : A) (x x' y y' : list A) :
  ~ In p x -> ~ In p y -> x ++ p :: y = x' ++ p :: y' -> x = x' /\ y = y'.
Proof.
  intros Hx Hy E.
  destruct (app_eq_app _ _ _ _ E) as [l [[E1 E2] | [E1 E2]]].
  - destruct l as [|c l].
    + rewrite app_nil_r in E1. simpl in E2. injection E2 as ->. auto.
    + exfalso. simpl in E2. injection E2 as <- _. apply Hx. rewrite E1.
      apply in_or_app. right. left. reflexivity.
  - destruct l as [|c l].
    + rewrite app_nil_r in E1. simpl in E2. injection E2 as ->. auto.
    + exfalso. simpl in E2. injection E2 as <- E2. apply Hy. rewrite E2.
      apply in_or_app. right. left. reflexivity.
Qed.

Lemma sole_address_extracted (t pre e post : text) :
  clean t = pre ++ e ++ post ->
  address_form e ->
  ~ In "@"%char pre -> ~ In "@"%char post ->
  delimited_before pre -> delimited_after post ->
  extract_email_from_text t = Ok (Some e).
Proof.
  intros Ht He Hpre Hpost Hb Ha. rewrite extract_email_spec. unfold candidates.
  destruct (address_form_sides e He) as (el & er & Ee & Hel0 & Her0 & Hel & Her).
  assert (Hnol : forall l, Forall (fun c => local_char c = true) l ->
                 ~ In "@"%char l).
  { intros l Hl Hin. rewrite List.Forall_forall in Hl.
    exact (local_char_not_at _ (Hl _ Hin) eq_refl). }
  assert (Hnor : forall r,
            Forall (fun c => delimiter c = false /\ c <> "@"%char) r ->
            ~ In "@"%char r).
  { intros r Hr Hin. rewrite List.Forall_forall in Hr.
    destruct (Hr _ Hin) as [_ H]. exact (H eq_refl). }
  assert (Hall : forall g, In g (Re.findall email_pattern (clean t)) -> g = e).
  { intros g Hg. apply primary_candidate_delimited in Hg
      as (Hg & A & B & EA & HA & HB).
    destruct (address_form_sides g Hg)
      as (gl & gr & Eg & Hgl0 & Hgr0 & Hgl & Hgr).
    rewrite Ht, Ee, Eg in EA.
    assert (E2 : (pre ++ el) ++ "@"%char :: (er ++ post) =
                 (A ++ gl) ++ "@"%char :: (gr ++ B)).
    { rewrite <- !app_assoc. simpl. rewrite <- !app_assoc in EA. exact EA. }
    apply single_split in E2 as [E3 E4].
    2:{ intros Hin. apply in_app_or in Hin as [Hin | Hin];
          [exact (Hpre Hin) | exact (Hnol _ Hel Hin)]. }
    2:{ intros Hin. apply in_app_or in Hin as [Hin | Hin];
          [exact (Hnor _ Her Hin) | exact (Hpost Hin)]. }
    destruct (suffix_unique (fun c => local_char c = true)
                (fun c => delimiter c = true) pre A el gl) as [_ <-];
      try assumption.
    { intros c H1 H2. apply local_not_delimiter in H1. congruence. }
    destruct (prefix_unique (fun c => delimiter c = false /\ c <> "@"%char)
                (fun c => delimiter c = true) post B er gr) as [<- _];
      try assumption.
    { intros c [H1 _] H2. congruence. }
    rewrite Eg, Ee. reflexivity. }
  assert (Hsome : Re.findall email_pattern (clean t) <> []).
  { intros Hnil. unfold Re.findall in Hnil. apply findall_go_nil in Hnil.
    (* the matcher finds the address where it stands *)
    assert (Hm : exists A w B cout,
               clean t = A ++ w ++ B /\
               matches email_pattern (last_of None A) w B None cout).
    { destruct Hb as [-> | (pre' & c & -> & Hc)];
        destruct Ha as [-> | (d & post' & -> & Hd)].
      - exists [], e, [], (Some e). split; [rewrite Ht; reflexivity|].
        unfold email_pattern. cbn [matches].
        exists [], e, None. split; [reflexivity|].
        split; [left; auto|].
        exists e, [], (Some e). split; [rewrite app_nil_r; reflexivity|].
        split; [split; [exists None; apply address_form_matches, He | reflexivity]|].
        right. auto.
      - exists [], (e ++ [d]), post', (Some e).
        split; [rewrite Ht, <- app_assoc; reflexivity|].
        unfold email_pattern. cbn [matches].
        exists [], (e ++ [d]), None. split; [reflexivity|].
        split; [left; auto|].
        exists e, [d], (Some e). split; [reflexivity|].
        split; [split; [exists None; apply address_form_matches, He | reflexivity]|].
        left. split; [eauto | reflexivity].
      - exists pre', (c :: e), [], (Some e).
        split; [rewrite Ht, <- app_assoc; reflexivity|].
        unfold email_pattern. cbn [matches].
        exists [c], e, None. split; [reflexivity|].
        split; [right; split; [eauto | reflexivity]|].
        exists e, [], (Some e). split; [rewrite app_nil_r; reflexivity|].
        split; [split; [exists None; apply address_form_matches, He | reflexivity]|].
        right. auto.
      - exists pre', (c :: e ++ [d]), post', (Some e).
        split; [rewrite Ht, <- !app_assoc; simpl; rewrite <- app_assoc;
                reflexivity|].
        unfold email_pattern. cbn [matches].
        exists [c], (e ++ [d]), None. split; [reflexivity|].
        split; [right; split; [eauto | reflexivity]|].
        exists e, [d], (Some e). split; [reflexivity|].
        split; [split; [exists None; apply address_form_matches, He | reflexivity]|].
        left. split; [eauto | reflexivity]. }
    destruct Hm as (A & w & B & cout & EA & Hm).
    pose proof (search_from_complete email_pattern w B cout A None Hm) as Hs.
    rewrite <- EA, Hnil in Hs. destruct Hs as [x Hx]. discriminate. }
  destruct (Re.findall email_pattern (clean t)) as [|x l] eqn:Hf;
    [congruence|].
  destruct (max_by_len_some (x :: l)) as [m Hm]; [discriminate|].
  rewrite Hm. apply max_by_len_spec in Hm as [Hin _].
  rewrite (Hall m Hin). reflexivity.
Qed.

(** *** The claim on the extraction *)







(** X9. A text that, once the labels are removed, has a single ["@"],
    in an address that stands between two delimiters or at an end of
    the text: the extraction returns this address. *)
Theorem delimited_address_is_extracted (t pre e post : text) :
  clean t = pre ++ e ++ post ->
  address_form e ->
  ~ In "@"%char pre -> ~ In "@"%char post ->
  delimited_before pre -> delimited_after post ->
  extract_email_from_text t = Ok (Some e).
Proof. apply sole_address_extracted. Qed.

Lemma delimited_address_is_extracted_witness :
  extract_email_from_text (txt "Email: j.doe@example.com, Phone: 555 0100") =
  Ok (Some (txt "j.doe@example.com")).
Proof.
  apply (delimited_address_is_extracted
           (txt "Email: j.doe@example.com, Phone: 555 0100")
           (txt " ") (txt "j.doe@example.com") (txt ", Phone: 555 0100")).
  - vm_compute. reflexivity.
  - apply (AddressForm "j" (txt ".doe") "e" (txt "xample") (txt "com"));
      try reflexivity; try (vm_compute; lia);
      repeat constructor.
  - vm_compute. intuition discriminate.
  - vm_compute. intuition discriminate.
  - right. exists [], " "%char. split; reflexivity.
  - right. exists ","%char, (txt " Phone: 555 0100"). split; reflexivity.
Defined.

(** ** Messages without secrets, messages sanitised twice *)

Lemma mask_key_absent (message key : text) :
  (4 < length key -> ~ occurs key message) ->
  logger.mask_key message key = message.
Proof.
  intros H. unfold logger.mask_key.
  destruct (Py.truthy (Some key) && (4 <? length key)) eqn:E; [|reflexivity].
  apply andb_true_iff in E as [_ E]. apply Nat.ltb_lt in E.
  apply replace_absent, H, E.
Qed.

Lemma fold_mask_absent (keys : list text) (message : text) :
  (forall key, In key keys -> 4 < length key -> ~ occurs key message) ->
  fold_left logger.mask_key keys message = message.
Proof.
  induction keys as [|key keys IH]; intros H; [reflexivity|].
  simpl. rewrite mask_key_absent by (apply H; left; reflexivity).
  apply IH. intros k Hk. apply H. right. exact Hk.
Qed.

(** X10. A message in which no secret longer than 4 characters occurs
    is returned as it is.  The secrets are the keys that are given or,
    when none are given, the values of the seven variables
    [GEMINI_API_KEY], [GOOGLE_API_KEY], [DEEPSEEK_API_KEY],
    [OPENAI_API_KEY], [EMAIL_PASSWORD], [IMAP_PASSWORD] and
    [ADMIN_PASSWORD] of the environment. *)
Theorem sanitize_keeps_a_clean_message (getenv : string -> option text)
    (message : text) (sensitive_keys : option (list text)) :
  match sensitive_keys with
  | Some keys =>
      forall key, In key keys -> 4 < length key -> ~ occurs key message
  | None =>
      forall name key,
        In name [ "GEMINI_API_KEY"; "GOOGLE_API_KEY"; "DEEPSEEK_API_KEY";
                  "OPENAI_API_KEY"; "EMAIL_PASSWORD"; "IMAP_PASSWORD";
                  "ADMIN_PASSWORD" ]%string ->
        getenv name = Some key -> 4 < length key -> ~ occurs key message
  end ->
  logger.sanitize_error_message getenv message sensitive_keys = message.
Proof.
  destruct sensitive_keys as [keys|]; intros H;
    unfold logger.sanitize_error_message; apply fold_mask_absent.
  - exact H.
  - intros key Hin. apply env_secrets_spec in Hin as (name & Hname & Hv & _).
    exact (H name key Hname Hv).
Qed.

Lemma sanitize_keeps_a_clean_message_witness :
  logger.sanitize_error_message deepseek_only (txt "Connection refused") None
  = txt "Connection refused".
Proof.
  apply (sanitize_keeps_a_clean_message deepseek_only
           (txt "Connection refused") None).
  intros name key Hin Hv Hlen Hocc. apply contains_spec in Hocc.
  simpl in Hin.
  repeat (destruct Hin as [<-|Hin];
          [vm_compute in Hv; try discriminate Hv; injection Hv as <-;
           vm_compute in Hocc; discriminate Hocc|]).
  destruct Hin.
Defined.

(** X11. Sanitising with one secret is idempotent when the secret has no
    star and, if it is longer than 8 characters, none of its first 1
    to 4 characters equal to its last 1 to 4: the sanitised message no
    longer holds the secret, so a second pass finds nothing to mask. *)
Theorem sanitize_twice_is_sanitize_once (getenv : string -> option text)
    (message key : text) :
  star_free key -> (8 < length key -> border_free key) ->
  let once := logger.sanitize_error_message getenv message (Some [key]) in
  logger.sanitize_error_message getenv once (Some [key]) = once.
Proof.
  intros Hstar Hb once. unfold once, logger.sanitize_error_message. simpl.
  apply mask_key_absent. intros Hlen.
  apply last_secret_redacted; assumption.
Qed.

Lemma sanitize_twice_is_sanitize_once_witness :
  let once :=
    logger.sanitize_error_message short_password_env
      (txt "Invalid key sk-1234567890abcd supplied")
      (Some [txt "sk-1234567890abcd"]) in
  logger.sanitize_error_message short_password_env once
    (Some [txt "sk-1234567890abcd"]) = once.
Proof.
  apply (sanitize_twice_is_sanitize_once short_password_env
           (txt "Invalid key sk-1234567890abcd supplied")
           (txt "sk-1234567890abcd")).
  - unfold star_free. vm_compute. intuition discriminate.
  - intros _ j Hj.
    destruct j as [|[|[|[|[|j]]]]]; try lia; vm_compute; discriminate.
Defined.

(** ** Reading files *)

Section Reading.
Variable PYPDF_AVAILABLE : bool.
Variable DOCX_AVAILABLE : bool.
Variable PdfReader : text -> result (list (result text)).
Variable Document : text -> result (list text).
Variable open_read : text -> file_extractor.encoding -> file_extractor.read_outcome.
Variable path_exists : text -> bool.
Variable path_suffix : text -> text.

Definition read_file : text -> result text :=
  file_extractor.extract_text_from_file PYPDF_AVAILABLE DOCX_AVAILABLE
    PdfReader Document open_read path_exists path_suffix.

(** The extensions that [extract_text_from_file] knows. *)
Definition supported : list text :=
  [txt ".pdf"; txt ".docx"; txt ".doc"; txt ".txt"].

Lemma read_pdf_spec (file_path : text) :
  match file_extractor.extract_text_from_pdf PYPDF_AVAILABLE PdfReader
          file_path with
  | Ok text => Py.strip text = text
  | Raise e => kind e = ValueError
  end.
Proof using Type.
  unfold file_extractor.extract_text_from_pdf.
  destruct PYPDF_AVAILABLE; cbn [negb]; [|reflexivity].
  destruct (PdfReader file_path) as [pages|e]; cbn [rbind]; [|reflexivity].
  destruct (file_extractor.pages_text pages []); [|reflexivity].
  apply strip_idempotent.
Qed.

Lemma read_docx_spec (file_path : text) :
  match file_extractor.extract_text_from_docx DOCX_AVAILABLE Document
          file_path with
  | Ok text => Py.strip text = text
  | Raise e => kind e = ValueError
  end.
Proof using Type.
  unfold file_extractor.extract_text_from_docx.
  destruct DOCX_AVAILABLE; cbn [negb]; [|reflexivity].
  destruct (Document file_path); [apply strip_idempotent | reflexivity].
Qed.

Lemma read_txt_spec (file_path : text) :
  match file_extractor.extract_text_from_txt open_read file_path with
  | Ok text => Py.strip text = text
  | Raise e => kind e = ValueError
  end.
Proof using Type.
  unfold file_extractor.extract_text_from_txt.
  destruct (open_read file_path file_extractor.utf_8);
    [apply strip_idempotent | | reflexivity].
  destruct (open_read file_path file_extractor.latin_1);
    [apply strip_idempotent | reflexivity | reflexivity].
Qed.

Lemma read_file_spec (file_path : text) :
  match read_file file_path with
  | Ok text =>
      Py.strip text = text /\ path_exists file_path = true /\
      In (Py.lower (path_suffix file_path)) supported
  | Raise e => kind e = ValueError
  end.
Proof using Type.
  unfold read_file, file_extractor.extract_text_from_file.
  destruct (path_exists file_path); cbn [negb]; [|reflexivity].
  destruct (bool_decide (Py.lower (path_suffix file_path) = txt ".pdf")) eqn:E1.
  { apply bool_decide_eq_true in E1. rewrite E1.
    pose proof (read_pdf_spec file_path) as H.
    destruct (file_extractor.extract_text_from_pdf _ _ _); [|exact H].
    repeat split; [exact H | left; reflexivity]. }
  cbn [existsb].
  destruct (bool_decide (Py.lower (path_suffix file_path) = txt ".docx")) eqn:E2.
  { apply bool_decide_eq_true in E2. rewrite E2. cbn [orb].
    pose proof (read_docx_spec file_path) as H.
    destruct (file_extractor.extract_text_from_docx _ _ _); [|exact H].
    repeat split; [exact H | right; left; reflexivity]. }
  destruct (bool_decide (Py.lower (path_suffix file_path) = txt ".doc")) eqn:E3.
  { apply bool_decide_eq_true in E3. rewrite E3. cbn [orb].
    pose proof (read_docx_spec file_path) as H.
    destruct (file_extractor.extract_text_from_docx _ _ _); [|exact H].
    repeat split; [exact H | right; right; left; reflexivity]. }
  cbn [orb].
  destruct (bool_decide (Py.lower (path_suffix file_path) = txt ".txt")) eqn:E4.
  { apply bool_decide_eq_true in E4. rewrite E4.
    pose proof (read_txt_spec file_path) as H.
    destruct (file_extractor.extract_text_from_txt _ _); [|exact H].
    repeat split; [exact H | right; right; right; left; reflexivity]. }
  reflexivity.
Qed.
End Reading.

(** X12. [extract_text_from_file] either returns a text or raises a
    [ValueError], whatever the readers raise.  A text is returned only
    for a file that exists and whose extension, in any case of the
    letters, is one of [.pdf], [.docx], [.doc] and [.txt], and it has
    no white space at either end.  A file that does not exist is
    reported as such before its extension is looked at; an extension
    that is not known is reported in lower case. *)
Theorem file_text_is_stripped_or_value_error
    (PYPDF_AVAILABLE DOCX_AVAILABLE : bool)
    (PdfReader : text -> result (list (result text)))
    (Document : text -> result (list text))
    (open_read : text -> file_extractor.encoding -> file_extractor.read_outcome)
    (path_exists : text -> bool) (path_suffix : text -> text)
    (file_path : text) :
  let read :=
    file_extractor.extract_text_from_file PYPDF_AVAILABLE DOCX_AVAILABLE
      PdfReader Document open_read path_exists path_suffix file_path in
  match read with
  | Ok text =>
      Py.strip text = text /\ path_exists file_path = true /\
      In (Py.lower (path_suffix file_path)) supported
  | Raise e => kind e = ValueError
  end /\
  (path_exists file_path = false ->
   read = Raise (Exn ValueError (txt "File not found: " ++ file_path))) /\
  (path_exists file_path = true ->
   ~ In (Py.lower (path_suffix file_path)) supported ->
   read = Raise (Exn ValueError
                   (txt "Unsupported file type: " ++
                    Py.lower (path_suffix file_path) ++
                    txt ". Supported types: .pdf, .docx, .txt"))).
Proof.
  intros read. split; [|split].
  - apply (read_file_spec PYPDF_AVAILABLE DOCX_AVAILABLE PdfReader Document
             open_read path_exists path_suffix file_path).
  - intros H. unfold read, file_extractor.extract_text_from_file.
    rewrite H. reflexivity.
  - intros H Hno. unfold read, file_extractor.extract_text_from_file.
    rewrite H. cbn [negb existsb].
    assert (Hd : forall x, In x supported ->
              bool_decide (Py.lower (path_suffix file_path) = x) = false).
    { intros x Hx. apply bool_decide_eq_false. intros E. apply Hno.
      rewrite E. exact Hx. }
    rewrite !Hd by (unfold supported; simpl; tauto). reflexivity.
Qed.

Lemma pages_text_spec (pages : list (result text)) : forall acc text,
  file_extractor.pages_text pages acc = Ok text ->
  exists texts,
    pages = map Ok texts /\
    text = acc ++ concat (map (fun t => t ++ file_extractor.nl) texts).
Proof.
  induction pages as [|page pages IH]; intros acc text; simpl.
  - intros [= <-]. exists []. rewrite app_nil_r. split; reflexivity.
  - destruct page as [t|e]; cbn [rbind]; [|discriminate].
    intros H. apply IH in H as (texts & -> & ->).
    exists (t :: texts). split; [reflexivity|].
    simpl. rewrite <- !app_assoc. reflexivity.
Qed.

Lemma pages_text_fails (pages : list (result text)) (e : exn) : forall acc,
  In (Raise e) pages -> exists e', file_extractor.pages_text pages acc = Raise e'.
Proof.
  induction pages as [|page pages IH]; intros acc Hin; [destruct Hin|].
  simpl. destruct page as [t|e0]; cbn [rbind]; [|eauto].
  destruct Hin as [Hin|Hin]; [discriminate|]. apply IH, Hin.
Qed.

(** X13. The text of a PDF is the texts of all its pages, each followed
    by a line feed, in the order of the pages, with the white space at
    both ends removed.  A single page that cannot be read makes the
    whole reading fail: no partial text is returned. *)
Theorem pdf_text_needs_every_page (PYPDF_AVAILABLE : bool)
    (PdfReader : text -> result (list (result text))) (file_path : text) :
  let read :=
    file_extractor.extract_text_from_pdf PYPDF_AVAILABLE PdfReader file_path in
  (forall text, read = Ok text ->
     exists texts,
       PdfReader file_path = Ok (map Ok texts) /\
       text = Py.strip (concat (map (fun t => t ++ file_extractor.nl) texts))) /\
  (forall pages e,
     PdfReader file_path = Ok pages -> In (Raise e) pages ->
     exists e', read = Raise e' /\ kind e' = ValueError).
Proof.
  intros read. unfold read, file_extractor.extract_text_from_pdf. split.
  - intros text. destruct PYPDF_AVAILABLE; cbn [negb]; [|discriminate].
    destruct (PdfReader file_path) as [pages|e]; cbn [rbind]; [|discriminate].
    destruct (file_extractor.pages_text pages []) as [t|e] eqn:Hp;
      [|discriminate].
    intros [= <-]. apply pages_text_spec in Hp as (texts & -> & ->).
    exists texts. split; reflexivity.
  - intros pages e Hr Hin.
    destruct PYPDF_AVAILABLE; cbn [negb]; [|eexists; split; reflexivity].
    rewrite Hr. cbn [rbind].
    destruct (pages_text_fails pages e [] Hin) as [e' ->].
    eexists; split; reflexivity.
Qed.

(** ** The analysis of two files *)

(** X14. [analyze_resume_from_files] leaves the state of its caller
    alone and raises nothing but [ValueError].  When it returns, both
    files have been read, and the result holds under ["email"] the
    address extracted from the text of the resume file. *)
Theorem analysis_from_files_raises_value_error
    (PYPDF_AVAILABLE DOCX_AVAILABLE : bool)
    (PdfReader : text -> result (list (result text)))
    (Document : text -> result (list text))
    (open_read : text -> file_extractor.encoding -> file_extractor.read_outcome)
    (path_exists : text -> bool) (path_suffix : text -> text)
    (environ : string -> option text) (GEMINI_AVAILABLE : bool)
    (new_model : model -> result unit) (invoke : model -> text -> result text)
    (json_loads : text -> result dict) (repr : value -> text)
    (format_prompt : text -> text -> text)
    (resume_file_path job_description_file_path : text) (S : Type) (s : S) :
  let read :=
    file_extractor.extract_text_from_file PYPDF_AVAILABLE DOCX_AVAILABLE
      PdfReader Document open_read path_exists path_suffix in
  let run :=
    resume_files.analyze_resume_from_files PYPDF_AVAILABLE DOCX_AVAILABLE
      PdfReader Document open_read path_exists path_suffix
      environ GEMINI_AVAILABLE new_model invoke json_loads repr format_prompt
      resume_file_path job_description_file_path s in
  final run = s /\
  match outcome run with
  | Ok d =>
      exists resume_text job_description_text email,
        read resume_file_path = Ok resume_text /\
        read job_description_file_path = Ok job_description_text /\
        extract_email_from_text resume_text = Ok email /\
        d !! "email"%string = Some (email_value email)
  | Raise e => kind e = ValueError
  end.
Proof.
  intros read run. unfold run, resume_files.analyze_resume_from_files.
  unfold resume_files.extract_text_from_file. fold read.
  pose proof (read_file_spec PYPDF_AVAILABLE DOCX_AVAILABLE PdfReader Document
                open_read path_exists path_suffix resume_file_path) as H1.
  pose proof (read_file_spec PYPDF_AVAILABLE DOCX_AVAILABLE PdfReader Document
                open_read path_exists path_suffix job_description_file_path)
    as H2.
  unfold read_file in H1, H2. fold read in H1, H2.
  destruct (read resume_file_path) as [resume_text|e1] eqn:E1;
    [|rewrite bind_lift_raise; split; [reflexivity | exact H1]].
  rewrite bind_lift_ok.
  destruct (read job_description_file_path) as [jd|e2] eqn:E2;
    [|rewrite bind_lift_raise; split; [reflexivity | exact H2]].
  rewrite bind_lift_ok.
  destruct (analyze_resume_run environ GEMINI_AVAILABLE new_model invoke
              json_loads repr format_prompt resume_text jd S s) as [Hf Ho].
  split; [exact Hf|].
  destruct (analysed _ _ _ _ _ _ _ _ _) as [d|e] eqn:Ha.
  - rewrite Ho. exists resume_text, jd, (Py.max_by_len (candidates resume_text)).
    split; [reflexivity|]. split; [reflexivity|].
    split; [apply extract_email_spec|].
    unfold analysed in Ha.
    destruct (resolved environ GEMINI_AVAILABLE new_model) as [m|]; [|discriminate].
    cbn [rbind] in Ha.
    destruct (invoke m _) as [response_text|]; [|discriminate].
    cbn [rbind] in Ha.
    destruct (outcome (parse_response json_loads response_text tt)) as [r|];
      [|discriminate].
    cbn [rbind] in Ha.
    rewrite (normalize_keeps repr _ d "email" Ha) by discriminate.
    apply lookup_insert_eq.
  - destruct Ho as [-> _]. reflexivity.
Qed.

(** ** The writing assistant *)

Section Writing.
Variable environ : string -> option text.
Variable GEMINI_AVAILABLE : bool.
Variable new_model : model -> result unit.
Variable invoke : model -> text -> result text.
Variable json_loads : text -> result dict.
Variable candidate_prompt : dict -> text -> text -> result text.
Variable generic_prompt : text -> text.

Lemma writer_get_llm_model_outcome (S : Type) (s : S) :
  outcome (email_writing_agent.get_llm_model environ GEMINI_AVAILABLE
             new_model s) =
    match resolved environ GEMINI_AVAILABLE new_model with
    | Ok m => Ok m
    | Raise _ => Raise email_writing_agent.no_provider
    end /\
  final (email_writing_agent.get_llm_model environ GEMINI_AVAILABLE
           new_model s) = s.
Proof using Type.
  unfold resolved, primary_usable, secondary_usable,
    email_writing_agent.get_llm_model, email_writing_agent.try_gemini,
    email_writing_agent.try_deepseek.
  destruct GEMINI_AVAILABLE, (Py.truthy (config.GEMINI_API_KEY environ)),
    (Py.truthy (config.DEEPSEEK_API_KEY environ)),
    (new_model Gemini) as [[]|e1], (new_model DeepSeek) as [[]|e2];
    split; reflexivity.
Qed.

(** The prompt that [generate_email_with_ai] sends. *)
Definition writer_prompt (user_prompt : text) (use_candidate_context : bool)
    (candidate_data : option dict) (job_description : option text)
    : result text :=
  if use_candidate_context && PyMore.dict_truthy candidate_data &&
     Py.truthy job_description
  then candidate_prompt (default ∅ candidate_data)
         (default [] job_description) user_prompt
  else Ok (generic_prompt user_prompt).

(** What the body of its [try] comes to. *)
Definition writing (user_prompt : text) (use_candidate_context : bool)
    (candidate_data : option dict) (job_description : option text)
    : result dict :=
  let? model :=
    match resolved environ GEMINI_AVAILABLE new_model with
    | Ok m => Ok m
    | Raise _ => Raise email_writing_agent.no_provider
    end in
  let? prompt :=
    writer_prompt user_prompt use_candidate_context candidate_data
      job_description in
  let? response_text := invoke model prompt in
  email_writing_agent.read_response json_loads response_text.

Lemma generate_email_with_ai_run (user_prompt : text)
    (use_candidate_context : bool) (candidate_data : option dict)
    (job_description : option text) (S : Type) (s : S) :
  let run :=
    email_writing_agent.generate_email_with_ai environ GEMINI_AVAILABLE
      new_model invoke json_loads candidate_prompt generic_prompt
      user_prompt use_candidate_context candidate_data job_description s in
  final run = s /\
  match writing user_prompt use_candidate_context candidate_data
          job_description with
  | Ok d => outcome run = Ok d
  | Raise e =>
      outcome run =
        Raise (Exn ValueError (txt "Failed to generate email: " ++ exn_str e)) /\
      last (trace run) =
        Some (Log ERROR (txt "Error generating email: " ++ exn_str e))
  end.
Proof using Type.
  intros run. unfold run, email_writing_agent.generate_email_with_ai.
  match goal with
  | |- context [try_except ?c ?h s] =>
      pose proof (try_except_wrap c h
        (fun e => Log ERROR (txt "Error generating email: " ++ exn_str e))
        (fun e => Exn ValueError
                    (txt "Failed to generate email: " ++ exn_str e))
        s (fun e s' => eq_refl)) as [Hf Ho];
      assert (Hbody : outcome (c s) =
                      writing user_prompt use_candidate_context candidate_data
                        job_description /\
                      final (c s) = s);
      [|destruct Hbody as [Hb1 Hb2]; rewrite Hb1 in Ho; rewrite Hb2 in Hf;
        split; [exact Hf | exact Ho]]
  end.
  unfold writing, writer_prompt.
  destruct (writer_get_llm_model_outcome S s) as [Hm1 Hm2].
  match goal with
  | |- context [bind ?c ?k s] => destruct (bind_outcome c k s) as [-> ->]
  end.
  rewrite Hm1, Hm2.
  destruct (resolved environ GEMINI_AVAILABLE new_model) as [m|e];
    cbn [rbind]; [|split; reflexivity].
  match goal with
  | |- context [bind ?c ?k s] => destruct (bind_outcome c k s) as [-> ->]
  end.
  assert (Hrest : forall prompt,
            let c := (do emit (LlmInvoke prompt) then
                      let* response_text := lift (invoke m prompt) in
                      lift (email_writing_agent.read_response json_loads
                              response_text)) in
            outcome (c s) =
              (let? response_text := invoke m prompt in
               email_writing_agent.read_response json_loads response_text) /\
            final (c s) = s).
  { intros prompt c. unfold c. rewrite bind_emit.
    destruct (invoke m prompt) as [response_text|e];
      [rewrite bind_lift_ok | rewrite bind_lift_raise]; split; reflexivity. }
  destruct (use_candidate_context && PyMore.dict_truthy candidate_data &&
            Py.truthy job_description).
  - destruct (candidate_prompt _ _ _) as [prompt|e]; cbn [rbind];
      [|split; reflexivity].
    change (outcome (lift (Ok prompt) s)) with (Ok (A:=text) prompt).
    change (final (lift (Ok prompt) s)) with s. cbv iota beta.
    apply (Hrest prompt).
  - change (outcome (ret (generic_prompt user_prompt) s))
      with (Ok (A:=text) (generic_prompt user_prompt)).
    change (final (ret (generic_prompt user_prompt) s)) with s.
    cbv iota beta. cbn [rbind].
    apply (Hrest (generic_prompt user_prompt)).
Qed.
End Writing.

(** X15. [generate_email_with_ai] leaves the state of its caller alone
    and either returns a dictionary with the two keys ["subject"] and
    ["body"] and no other, or raises a [ValueError] whose message is
    the prefix ["Failed to generate email: "] and the message of the
    cause, logged last as an error: a missing backend, a prompt that
    cannot be assembled, a failing call of the model and a decoder
    that raises anything but [JSONDecodeError] all come out this
    way.  When the JSON object of the reply decodes, a missing subject
    becomes ["No Subject"] and a missing body the empty string. *)
Theorem written_email_has_subject_and_body
    (environ : string -> option text) (GEMINI_AVAILABLE : bool)
    (new_model : model -> result unit) (invoke : model -> text -> result text)
    (json_loads : text -> result dict)
    (candidate_prompt : dict -> text -> text -> result text)
    (generic_prompt : text -> text)
    (user_prompt : text) (use_candidate_context : bool)
    (candidate_data : option dict) (job_description : option text)
    (S : Type) (s : S) :
  let run :=
    email_writing_agent.generate_email_with_ai environ GEMINI_AVAILABLE
      new_model invoke json_loads candidate_prompt generic_prompt
      user_prompt use_candidate_context candidate_data job_description s in
  final run = s /\
  match outcome run with
  | Ok d =>
      dom d = {[ "subject"%string; "body"%string ]} /\
      exists response_text,
        email_writing_agent.read_response json_loads response_text = Ok d
  | Raise e =>
      kind e = ValueError /\
      exists cause,
        exn_str e = txt "Failed to generate email: " ++ cause /\
        last (trace run) =
          Some (Log ERROR (txt "Error generating email: " ++ cause))
  end /\
  (forall response_text json_str result,
     Re.search0 json_block response_text = Some json_str ->
     json_loads json_str = Ok result ->
     exists d,
       email_writing_agent.read_response json_loads response_text = Ok d /\
       d !! "subject"%string =
         Some (default (VStr (txt "No Subject")) (result !! "subject"%string)) /\
       d !! "body"%string =
         Some (default (VStr []) (result !! "body"%string))).
Proof.
  intros run.
  destruct (generate_email_with_ai_run environ GEMINI_AVAILABLE new_model
              invoke json_loads candidate_prompt generic_prompt user_prompt
              use_candidate_context candidate_data job_description S s)
    as [Hf Ho].
  fold run in Hf, Ho. split; [exact Hf|]. split.
  - destruct (writing _ _ _ _ _ _ _ _ _ _ _) as [d|e] eqn:Hw.
    + rewrite Ho. unfold writing in Hw.
      destruct (match resolved environ GEMINI_AVAILABLE new_model with
                | Ok m => Ok m
                | Raise _ => Raise email_writing_agent.no_provider
                end) as [m|]; [|discriminate].
      cbn [rbind] in Hw.
      destruct (writer_prompt _ _ _ _ _ _) as [prompt|]; [|discriminate].
      cbn [rbind] in Hw.
      destruct (invoke m prompt) as [response_text|]; [|discriminate].
      cbn [rbind] in Hw.
      split; [|exists response_text; exact Hw].
      revert Hw.
      unfold email_writing_agent.read_response,
        email_writing_agent.extract_manually.
      destruct (Re.search0 json_block response_text) as [json_str|];
        [destruct (json_loads json_str) as [result|e]; [|destruct (kind e)]|];
        intros [= <-];
        rewrite !dom_insert_L, dom_empty_L; set_solver.
    + destruct Ho as [-> Hl]. split; [reflexivity|].
      exists (exn_str e). split; [reflexivity | exact Hl].
  - intros response_text json_str result Hs Hj.
    unfold email_writing_agent.read_response. rewrite Hs, Hj.
    eexists. split; [reflexivity|].
    rewrite lookup_insert_eq, lookup_insert_ne by discriminate.
    rewrite lookup_insert_eq. unfold PyMore.get_or.
    destruct (result !! "subject"%string), (result !! "body"%string);
      split; reflexivity.
Qed.

(** X16. The fallback of [generate_email_with_ai].  A reply with no
    subject line gives the subject ["No Subject"] and the reply itself,
    as it is, for a body.  A reply with a subject line gives for a
    subject what follows the word [subject] and its colons and white
    spaces up to the end of the line, and for a body what follows this
    line; both with the white space at their ends removed.  What
    stands before the subject line is dropped. *)
Theorem manual_email_is_split_at_the_subject_line (response_text : text) :
  let d := email_writing_agent.extract_manually response_text in
  exists subject body,
    d !! "subject"%string = Some (VStr subject) /\
    d !! "body"%string = Some (VStr body) /\
    Py.strip subject = subject /\
    Forall (fun c => c <> line_feed) subject /\
    match Re.search subject_pattern response_text with
    | None => subject = txt "No Subject" /\ body = response_text
    | Some line =>
        exists after,
          subject_line_of response_text line after /\
          subject = Py.strip line /\ body = Py.strip after
    end.
Proof.
  intros d. unfold d, email_writing_agent.extract_manually.
  unfold Re.search. rewrite search_end_search.
  unfold PyMore.search_end.
  destruct (PyMore.search_end_from subject_pattern None response_text)
    as [[g after]|] eqn:Hs; cbn [option_map fst].
  - apply subject_line in Hs as Hline.
    exists (Py.strip g), (Py.strip after).
    split; [apply lookup_insert_eq|].
    split; [rewrite lookup_insert_ne by discriminate; apply lookup_insert_eq|].
    split; [apply strip_idempotent|].
    split.
    + apply strip_keeps.
      destruct Hline as (_ & _ & _ & _ & _ & _ & _ & _ & Hl & _). exact Hl.
    + exists after. repeat split. exact Hline.
  - exists (txt "No Subject"), response_text.
    split; [apply lookup_insert_eq|].
    split; [rewrite lookup_insert_ne by discriminate; apply lookup_insert_eq|].
    split; [vm_compute; reflexivity|].
    split; [|split; reflexivity].
    apply List.Forall_forall. intros c Hc ->. vm_compute in Hc.
    intuition discriminate.
Qed.

(** ** The classification of an email *)

Lemma quoted_needs_review (t : text) :
  Py.contains (txt "'needs review'") t || Py.contains (txt "needs review") t =
  Py.contains (txt "needs review") t.
Proof.
  destruct (Py.contains (txt "'needs review'") t) eqn:E; [|reflexivity].
  apply contains_spec in E as (a & b & ->). symmetry. apply contains_spec.
  exists (a ++ txt "'"), (txt "'" ++ b). rewrite <- !app_assoc. reflexivity.
Qed.

Definition is_invoke (e : effect) : bool :=
  match e with
  | LlmInvoke _ => true
  | _ => false
  end.

(** The label for a cleaned reply. *)
Definition label_of (t : text) : text :=
  if Py.contains (txt "needs review") t then txt "needs_review"
  else if Py.contains (txt "urgent") t then txt "urgent"
  else if Py.contains (txt "spam") t then txt "spam"
  else txt "informational".

Section Filtering.
Variable environ : string -> option text.
Variable GEMINI_AVAILABLE : bool.
Variable new_model : model -> result unit.
Variable invoke_str : model -> text -> result text.
Variable clean_text : text -> text.
Variable format_prompt : value -> value -> text.

Lemma filter_try_gemini_run (S : Type) (s : S) :
  exists t,
    filtering_agent.try_gemini environ GEMINI_AVAILABLE new_model s =
      (t, s, Ok (if primary_usable environ GEMINI_AVAILABLE new_model
                 then Some Gemini else None)) /\
    List.filter is_invoke t = [].
Proof using Type.
  unfold filtering_agent.try_gemini, primary_usable.
  destruct GEMINI_AVAILABLE, (Py.truthy (config.GEMINI_API_KEY environ)),
    (new_model Gemini) as [[]|e]; eexists; split; reflexivity.
Qed.

Lemma filter_try_deepseek_run (chosen : option model) (S : Type) (s : S) :
  exists t,
    filtering_agent.try_deepseek environ new_model chosen s =
      (t, s, Ok match chosen with
                | Some m => Some m
                | None => if secondary_usable environ new_model
                          then Some DeepSeek else None
                end) /\
    List.filter is_invoke t = [].
Proof using Type.
  unfold filtering_agent.try_deepseek, secondary_usable.
  destruct chosen; [eexists; split; reflexivity|].
  destruct (Py.truthy (config.DEEPSEEK_API_KEY environ)),
    (new_model DeepSeek) as [[]|e]; eexists; split; reflexivity.
Qed.

Lemma classification_label (t : text) :
  filtering_agent.classification t = label_of t.
Proof using Type.
  unfold filtering_agent.classification, label_of.
  rewrite quoted_needs_review. reflexivity.
Qed.

Lemma filter_email_run (email : dict) (S : Type) (s : S) :
  let prompt :=
    format_prompt (PyMore.get_or email "subject" (VStr []))
      (PyMore.get_or email "body" (VStr [])) in
  exists t,
    filtering_agent.filter_email environ GEMINI_AVAILABLE new_model invoke_str
      clean_text format_prompt email s =
    (t, s,
     let? m := resolved environ GEMINI_AVAILABLE new_model in
     let? reply := invoke_str m prompt in
     Ok (label_of (clean_text reply))) /\
    List.filter is_invoke t =
      if is_ok (resolved environ GEMINI_AVAILABLE new_model)
      then [LlmInvoke prompt] else [].
Proof using Type.
  intros prompt. unfold filtering_agent.filter_email. fold prompt.
  assert (Hask : forall m,
            exists t,
              (do emit (LlmInvoke prompt) then
               let* classification_result := lift (invoke_str m prompt) in
               do log DEBUG (txt "Raw model output: " ++
                             clean_text classification_result) then
               ret (filtering_agent.classification
                      (clean_text classification_result))) s =
              (t, s, let? reply := invoke_str m prompt in
                     Ok (label_of (clean_text reply))) /\
              List.filter is_invoke t = [LlmInvoke prompt]).
  { intros m. rewrite bind_emit.
    destruct (invoke_str m prompt) as [reply|e];
      [rewrite bind_lift_ok | rewrite bind_lift_raise];
      [|eexists; split; reflexivity].
    unfold log. rewrite bind_emit, classification_label.
    eexists; split; reflexivity. }
  destruct (filter_try_gemini_run S s) as (t1 & E1 & F1).
  unfold bind at 1. rewrite E1.
  match goal with
  | |- context [filtering_agent.try_deepseek _ _ ?chosen] =>
      destruct (filter_try_deepseek_run chosen S s) as (t2 & E2 & F2)
  end.
  unfold bind at 1. rewrite E2. unfold resolved.
  destruct (primary_usable environ GEMINI_AVAILABLE new_model); cbv beta iota.
  - destruct (Hask Gemini) as (t3 & -> & F3). eexists. split; [reflexivity|].
    cbn [is_ok]. rewrite !List.filter_app, F1, F2, F3. reflexivity.
  - destruct (secondary_usable environ new_model); cbv beta iota.
    + destruct (Hask DeepSeek) as (t3 & -> & F3). eexists.
      split; [reflexivity|].
      cbn [is_ok]. rewrite !List.filter_app, F1, F2, F3. reflexivity.
    + eexists. split; [reflexivity|].
      cbn [is_ok]. rewrite !List.filter_app, F1, F2. reflexivity.
Qed.
End Filtering.

Lemma contains_occurs (sub s : text) :
  (Py.contains sub s = true <-> occurs sub s) /\
  (Py.contains sub s = false <-> ~ occurs sub s).
Proof.
  split; [apply contains_spec|].
  rewrite <- contains_spec. destruct (Py.contains sub s); split; congruence.
Qed.

(** X17. [filter_email] asks the backend that [get_llm_model] would
    select, once, and leaves the state of its caller alone; with no
    backend it raises the same [ValueError] and asks nothing; an
    exception of the call is raised as it is.  The label depends only
    on which of the three phrases occur in the cleaned reply, taken in
    the order needs review, urgent, spam: the test for the quoted
    phrase changes nothing, and a reply with none of the three is
    informational. *)
Theorem filter_email_label
    (environ : string -> option text) (GEMINI_AVAILABLE : bool)
    (new_model : model -> result unit)
    (invoke_str : model -> text -> result text) (clean_text : text -> text)
    (format_prompt : value -> value -> text) (email : dict)
    (S : Type) (s : S) :
  let run :=
    filtering_agent.filter_email environ GEMINI_AVAILABLE new_model invoke_str
      clean_text format_prompt email s in
  let prompt :=
    format_prompt (PyMore.get_or email "subject" (VStr []))
      (PyMore.get_or email "body" (VStr [])) in
  final run = s /\
  match resolved environ GEMINI_AVAILABLE new_model with
  | Raise e =>
      outcome run = Raise no_provider /\
      List.filter is_invoke (trace run) = []
  | Ok m =>
      List.filter is_invoke (trace run) = [LlmInvoke prompt] /\
      match invoke_str m prompt with
      | Raise e => outcome run = Raise e
      | Ok reply =>
          let t := clean_text reply in
          exists label,
            outcome run = Ok label /\
            (label = txt "needs_review" <-> occurs (txt "needs review") t) /\
            (label = txt "urgent" <->
             ~ occurs (txt "needs review") t /\ occurs (txt "urgent") t) /\
            (label = txt "spam" <->
             ~ occurs (txt "needs review") t /\ ~ occurs (txt "urgent") t /\
             occurs (txt "spam") t) /\
            (label = txt "informational" <->
             ~ occurs (txt "needs review") t /\ ~ occurs (txt "urgent") t /\
             ~ occurs (txt "spam") t)
      end
  end.
Proof.
  intros run prompt.
  destruct (filter_email_run environ GEMINI_AVAILABLE new_model invoke_str
              clean_text format_prompt email S s) as (t & Hrun & Hinv).
  fold prompt in Hrun, Hinv. fold run in Hrun. rewrite Hrun.
  unfold final, outcome, trace. cbn [fst snd]. split; [reflexivity|].
  assert (Hno : forall e, resolved environ GEMINI_AVAILABLE new_model = Raise e ->
                e = no_provider).
  { unfold resolved. intros e.
    destruct (primary_usable _ _ _); [discriminate|].
    destruct (secondary_usable _ _); [discriminate|]. congruence. }
  destruct (resolved environ GEMINI_AVAILABLE new_model) as [m|e] eqn:Hr;
    cbn [rbind is_ok] in *.
  2:{ rewrite (Hno e eq_refl). split; [reflexivity | exact Hinv]. }
  split; [exact Hinv|].
  destruct (invoke_str m prompt) as [reply|e]; cbn [rbind]; [|reflexivity].
  set (t0 := clean_text reply). exists (label_of t0). split; [reflexivity|].
  unfold label_of.
  destruct (contains_occurs (txt "needs review") t0) as [N1 N2].
  destruct (contains_occurs (txt "urgent") t0) as [U1 U2].
  destruct (contains_occurs (txt "spam") t0) as [P1 P2].
  destruct (Py.contains (txt "needs review") t0);
    [pose proof (proj1 N1 eq_refl) | pose proof (proj1 N2 eq_refl)];
    (destruct (Py.contains (txt "urgent") t0);
     [pose proof (proj1 U1 eq_refl) | pose proof (proj1 U2 eq_refl)]);
    (destruct (Py.contains (txt "spam") t0);
     [pose proof (proj1 P1 eq_refl) | pose proof (proj1 P2 eq_refl)]);
    repeat split; intros; try reflexivity; try tauto;
    try match goal with
        | E : txt _ = txt _ |- _ => vm_compute in E; discriminate
        end.
Qed.

(** ** The messages that are fetched *)

(** X18. With a positive limit the loop of [fetch_imap_emails] goes
    through the last identifiers of the mailbox, as many as the limit
    allows, the newest first.  With the limit 0 it goes through all of
    them, and with a negative limit it leaves out the oldest ones: the
    slice [email_ids[-max_emails:]] is the whole list for 0. *)
Theorem fetch_limit_keeps_the_newest {A : Type} (email_ids : list A)
    (max_emails : Z) :
  ((0 < max_emails)%Z ->
   email_imap.ids_to_fetch email_ids max_emails =
     take (Z.to_nat max_emails) (rev email_ids) /\
   (Z.of_nat (length (email_imap.ids_to_fetch email_ids max_emails))
    <= max_emails)%Z) /\
  (max_emails = 0%Z ->
   email_imap.ids_to_fetch email_ids max_emails = rev email_ids) /\
  ((max_emails < 0)%Z ->
   email_imap.ids_to_fetch email_ids max_emails =
     rev (drop (Z.to_nat (- max_emails)) email_ids)).
Proof.
  unfold email_imap.ids_to_fetch, PyMore.slice_from.
  split; [|split].
  - intros Hpos.
    assert (E : (if (max_emails <? Z.of_nat (length email_ids))%Z
                 then drop (Z.to_nat
                        (if (- max_emails <? 0)%Z
                         then Z.max (- max_emails + Z.of_nat (length email_ids)) 0
                         else Z.min (- max_emails) (Z.of_nat (length email_ids))))
                        email_ids
                 else email_ids) =
                drop (length email_ids - Z.to_nat max_emails) email_ids).
    { destruct (max_emails <? Z.of_nat (length email_ids))%Z eqn:Hlt.
      - apply Z.ltb_lt in Hlt.
        replace (- max_emails <? 0)%Z with true
          by (symmetry; apply Z.ltb_lt; lia).
        f_equal. lia.
      - apply Z.ltb_ge in Hlt.
        replace (length email_ids - Z.to_nat max_emails) with 0 by lia.
        reflexivity. }
    rewrite E. split.
    + symmetry. apply firstn_rev.
    + rewrite length_rev, length_drop. lia.
  - intros ->.
    destruct (0 <? Z.of_nat (length email_ids))%Z eqn:Hlt; [|reflexivity].
    apply Z.ltb_lt in Hlt. change (- 0 <? 0)%Z with false. cbv iota.
    rewrite Z.min_l by lia. reflexivity.
  - intros Hneg.
    replace (max_emails <? Z.of_nat (length email_ids))%Z with true
      by (symmetry; apply Z.ltb_lt; lia).
    replace (- max_emails <? 0)%Z with false
      by (symmetry; apply Z.ltb_ge; lia).
    destruct (Z.min_spec (- max_emails) (Z.of_nat (length email_ids)))
      as [[_ ->] | [Hle ->]]; [reflexivity|].
    rewrite Nat2Z.id, drop_all.
    rewrite drop_ge by lia. reflexivity.
Qed.

(** ** The login *)

(** X19. The login turns away nothing but an empty user name or an
    empty password: any other pair opens the session, under the name
    typed in.  The configured administrator pair decides only whether
    the session is an administrator's: it is one exactly when both
    configured values are set, not empty, and equal to what was typed.
    A session that is not an administrator's has its four account and
    password entries emptied and is marked as needing credentials; the
    other entries of the credentials are kept either way. *)
Theorem login_accepts_any_pair (environ : string -> option text)
    (username password : text) (state : app.Session) :
  let result := app.login environ username password state in
  let state' := snd result in
  (username = [] \/ password = [] ->
   state' = state /\
   fst result = [app.error "Please enter username and password"]) /\
  (username <> [] -> password <> [] ->
   app.authenticated state' = true /\
   app.hr_name state' = username /\
   (app.is_admin state' = true <->
    config.ADMIN_USERNAME environ = Some username /\
    config.ADMIN_PASSWORD environ = Some password) /\
   (app.is_admin state' = false ->
    app.require_email_credentials state' = true /\
    forall key,
      In key ["username"; "password"; "imap_username"; "imap_password"]%string ->
      app.email_credentials state' !! key = Some (Some []))) /\
  (forall key,
     ~ In key ["username"; "password"; "imap_username"; "imap_password"]%string ->
     app.email_credentials state' !! key = app.email_credentials state !! key).
Proof.
  intros result state'. unfold state', result, app.login.
  assert (Hkeep : forall key (a b c d : option text),
            ~ In key ["username"; "password"; "imap_username";
                      "imap_password"]%string ->
            (<["imap_password"%string := a]>
             (<["imap_username"%string := b]>
              (<["password"%string := c]>
               (<["username"%string := d]> (app.email_credentials state)))))
              !! key = app.email_credentials state !! key).
  { intros key a b c d Hkey.
    rewrite !lookup_insert_ne; [reflexivity | | | |];
      intros <-; apply Hkey; simpl; tauto. }
  destruct username as [|u us], password as [|p ps]; cbn [Py.truthy andb fst snd].
  - repeat split; try tauto; congruence.
  - repeat split; try tauto; congruence.
  - repeat split; try tauto; congruence.
  - split; [intros [H|H]; discriminate|].
    destruct (Py.truthy (config.ADMIN_USERNAME environ) &&
              Py.truthy (config.ADMIN_PASSWORD environ) &&
              bool_decide (Some (u :: us) = config.ADMIN_USERNAME environ) &&
              bool_decide (Some (p :: ps) = config.ADMIN_PASSWORD environ))
      eqn:Hadmin; cbn [snd app.authenticated app.hr_name app.is_admin
                       app.require_email_credentials app.email_credentials].
    + apply andb_true_iff in Hadmin as [Hadmin H4].
      apply andb_true_iff in Hadmin as [Hadmin H3].
      apply bool_decide_eq_true in H3, H4.
      split; [|intros key Hkey; apply Hkeep, Hkey].
      intros _ _. repeat split; try reflexivity; try congruence.
    + split; [|intros key Hkey; apply Hkeep, Hkey].
      intros _ _. split; [reflexivity|]. split; [reflexivity|]. split.
      * split; [discriminate|]. intros [H1 H2]. exfalso.
        rewrite H1, H2 in Hadmin. cbn [Py.truthy andb] in Hadmin.
        rewrite !bool_decide_eq_true_2 in Hadmin by reflexivity. discriminate.
      * intros _. split; [reflexivity|].
        intros key [<-|[<-|[<-|[<-|[]]]]];
          repeat first [ apply lookup_insert_eq
                       | rewrite lookup_insert_ne by discriminate ].
Qed.

(** ** The helper that sends with given credentials *)

(** X20. [send_email_with_credentials] never raises and leaves the
    state of its caller alone.  It returns [True] exactly when the five
    steps of the dialogue and the [QUIT] that closes the connection
    have all succeeded; otherwise it returns [False] and the last thing
    logged is the failure.  The password is presented only after
    STARTTLS has succeeded. *)
Theorem helper_reports_every_failure
    (smtp : smtp_step -> SmtpJob -> result unit)
    (smtp_quit : SmtpJob -> result unit)
    (recipient_email subject body sender_name hr_name
     smtp_username smtp_password smtp_server smtp_port : text)
    (S : Type) (s : S) :
  let job :=
    {| job_server := smtp_server; job_port := smtp_port;
       job_username := smtp_username; job_password := smtp_password;
       job_subject := subject; job_from := smtp_username;
       job_to := recipient_email; job_content := Py.strip body |} in
  let run :=
    email_helper.send_email_with_credentials smtp smtp_quit recipient_email
      subject body sender_name hr_name smtp_username smtp_password
      smtp_server smtp_port s in
  final run = s /\
  (exists sent,
     outcome run = Ok sent /\
     (sent = true <->
      (forall step, In step smtp_steps -> smtp step job = Ok tt) /\
      smtp_quit job = Ok tt) /\
     (sent = false ->
      exists cause,
        last (trace run) =
          Some (Log ERROR (txt "Failed to send email: " ++ cause)))) /\
  (In Login (dialogue (trace run)) ->
   smtp Connect job = Ok tt /\ smtp StartTLS job = Ok tt).
Proof.
  intros job run.
  assert (Hrun : run = email_helper.send_email_with_credentials smtp smtp_quit
                         recipient_email subject body sender_name hr_name
                         smtp_username smtp_password smtp_server smtp_port s)
    by reflexivity.
  clearbody run. revert Hrun.
  unfold email_helper.send_email_with_credentials. fold job.
  unfold try_except, email_helper.with_server, email_helper.smtp_do, bind,
    emit, log, lift, ret, smtp_steps.
  destruct (smtp Compose job) as [[]|e1] eqn:E1; simpl;
    [destruct (smtp Connect job) as [[]|e2] eqn:E2; simpl;
     [destruct (smtp StartTLS job) as [[]|e3] eqn:E3; simpl;
      [destruct (smtp Login job) as [[]|e4] eqn:E4; simpl;
       [destruct (smtp SendMessage job) as [[]|e5] eqn:E5; simpl|]|]|]|];
    try (destruct (smtp_quit job) as [[]|e6] eqn:E6; simpl);
    intros ->; unfold final, outcome, trace, dialogue; simpl;
    (split; [reflexivity|]); (split; [eexists; split; [reflexivity|]|]).
  all: try (intros Hin; first [ split; reflexivity
                              | exfalso; intuition discriminate ]).
  all: split; [split|].
  all: try (intros Hs; first [ discriminate Hs | eexists; reflexivity ]).
  all: try (intros [Hall Hq];
            pose proof (Hall Compose ltac:(simpl; tauto));
            pose proof (Hall Connect ltac:(simpl; tauto));
            pose proof (Hall StartTLS ltac:(simpl; tauto));
            pose proof (Hall Login ltac:(simpl; tauto));
            pose proof (Hall SendMessage ltac:(simpl; tauto));
            first [ reflexivity | congruence ]).
  intros _. split; [|reflexivity].
  intros step Hin.
  repeat (destruct Hin as [<-|Hin]; [assumption|]). destruct Hin.
Qed.

(** ** The reply to an email and its summary *)

(** The outcome of asking the selected backend. *)
Definition asked (environ : string -> option text) (GEMINI_AVAILABLE : bool)
    (new_model : model -> result unit) (invoke : model -> text -> result text)
    (prompt : text) : result text :=
  let? m := resolved environ GEMINI_AVAILABLE new_model in
  invoke m prompt.

(** The calls of a model in a trace, and the single call expected
    for a prompt when a backend can be selected. *)
Definition invocations (t : list effect) : list effect :=
  List.filter is_invoke t.

Definition asked_once (environ : string -> option text)
    (GEMINI_AVAILABLE : bool) (new_model : model -> result unit)
    (prompt : result text) : list effect :=
  match prompt with
  | Ok prompt =>
      if is_ok (resolved environ GEMINI_AVAILABLE new_model)
      then [LlmInvoke prompt] else []
  | Raise _ => []
  end.

Section Replying.
Variable environ : string -> option text.
Variable GEMINI_AVAILABLE : bool.
Variable new_model : model -> result unit.
Variable invoke : model -> text -> result text.

Lemma response_try_gemini_run (S : Type) (s : S) :
  exists t,
    response_agent.try_gemini environ GEMINI_AVAILABLE new_model s =
      (t, s, Ok (if primary_usable environ GEMINI_AVAILABLE new_model
                 then Some Gemini else None)) /\
    List.filter is_invoke t = [].
Proof using Type.
  unfold response_agent.try_gemini, primary_usable.
  destruct GEMINI_AVAILABLE, (Py.truthy (config.GEMINI_API_KEY environ)),
    (new_model Gemini) as [[]|e]; eexists; split; reflexivity.
Qed.

Lemma response_try_deepseek_run (chosen : option model) (S : Type) (s : S) :
  exists t,
    response_agent.try_deepseek environ new_model chosen s =
      (t, s, Ok match chosen with
                | Some m => Some m
                | None => if secondary_usable environ new_model
                          then Some DeepSeek else None
                end) /\
    List.filter is_invoke t = [].
Proof using Type.
  unfold response_agent.try_deepseek, secondary_usable.
  destruct chosen; [eexists; split; reflexivity|].
  destruct (Py.truthy (config.DEEPSEEK_API_KEY environ)),
    (new_model DeepSeek) as [[]|e]; eexists; split; reflexivity.
Qed.

Lemma summary_try_gemini_run (S : Type) (s : S) :
  exists t,
    summarization_agent.try_gemini environ GEMINI_AVAILABLE new_model s =
      (t, s, Ok (if primary_usable environ GEMINI_AVAILABLE new_model
                 then Some Gemini else None)) /\
    List.filter is_invoke t = [].
Proof using Type.
  unfold summarization_agent.try_gemini, primary_usable.
  destruct GEMINI_AVAILABLE, (Py.truthy (config.GEMINI_API_KEY environ)),
    (new_model Gemini) as [[]|e]; eexists; split; reflexivity.
Qed.

Lemma summary_try_deepseek_run (chosen : option model) (S : Type) (s : S) :
  exists t,
    summarization_agent.try_deepseek environ new_model chosen s =
      (t, s, Ok match chosen with
                | Some m => Some m
                | None => if secondary_usable environ new_model
                          then Some DeepSeek else None
                end) /\
    List.filter is_invoke t = [].
Proof using Type.
  unfold summarization_agent.try_deepseek, secondary_usable.
  destruct chosen; [eexists; split; reflexivity|].
  destruct (Py.truthy (config.DEEPSEEK_API_KEY environ)),
    (new_model DeepSeek) as [[]|e]; eexists; split; reflexivity.
Qed.

(** Asking a backend once and returning what [finish] makes of its
    reply. *)
Lemma ask_once_run (finish : text -> text) (m : model) (prompt : text)
    (S : Type) (s : S) :
  exists t,
    (do emit (LlmInvoke prompt) then
     let* reply := lift (invoke m prompt) in
     ret (finish reply)) s =
    (t, s, let? reply := invoke m prompt in Ok (finish reply)) /\
    List.filter is_invoke t = [LlmInvoke prompt].
Proof using Type.
  rewrite bind_emit.
  destruct (invoke m prompt) as [reply|e];
    [rewrite bind_lift_ok | rewrite bind_lift_raise];
    eexists; split; reflexivity.
Qed.

Lemma generate_response_run
    (format_prompt : text -> value -> value -> text -> text -> result text)
    (format_email : value -> text -> text -> text -> text)
    (email : dict) (summary recipient_name your_name : text)
    (S : Type) (s : S) :
  let subject := PyMore.get_or email "subject" (VStr []) in
  let prompt :=
    format_prompt recipient_name subject (PyMore.get_or email "body" (VStr []))
      summary your_name in
  exists t,
    response_agent.generate_response environ GEMINI_AVAILABLE new_model invoke
      format_prompt format_email email summary recipient_name your_name s =
    (t, s,
     let? prompt := prompt in
     let? response_text :=
       asked environ GEMINI_AVAILABLE new_model invoke prompt in
     Ok (Py.strip (format_email subject recipient_name response_text
                     your_name))) /\
    invocations t = asked_once environ GEMINI_AVAILABLE new_model prompt.
Proof using Type.
  intros subject prompt. unfold invocations, asked_once.
  unfold response_agent.generate_response.
  fold subject. fold prompt.
  destruct prompt as [p|e];
    [rewrite bind_lift_ok | rewrite bind_lift_raise; eexists; split; reflexivity].
  cbn [rbind]. unfold asked.
  destruct (response_try_gemini_run S s) as (t1 & E1 & F1).
  unfold bind at 1. rewrite E1.
  match goal with
  | |- context [response_agent.try_deepseek _ _ ?chosen] =>
      destruct (response_try_deepseek_run chosen S s) as (t2 & E2 & F2)
  end.
  unfold bind at 1. rewrite E2. unfold resolved.
  destruct (primary_usable environ GEMINI_AVAILABLE new_model); cbv beta iota.
  - destruct (ask_once_run
                (fun r => Py.strip (format_email subject recipient_name r
                                      your_name)) Gemini p S s)
      as (t3 & -> & F3).
    eexists. split; [reflexivity|].
    cbn [is_ok]. rewrite !List.filter_app, F1, F2, F3. reflexivity.
  - destruct (secondary_usable environ new_model); cbv beta iota.
    + destruct (ask_once_run
                  (fun r => Py.strip (format_email subject recipient_name r
                                        your_name)) DeepSeek p S s)
        as (t3 & -> & F3).
      eexists. split; [reflexivity|].
      cbn [is_ok]. rewrite !List.filter_app, F1, F2, F3. reflexivity.
    + eexists. split; [reflexivity|].
      cbn [is_ok]. rewrite !List.filter_app, F1, F2. reflexivity.
Qed.

Lemma summarize_email_run (format_prompt : value -> result text)
    (clean_text : text -> text) (email : dict) (S : Type) (s : S) :
  let prompt := format_prompt (PyMore.get_or email "body" (VStr [])) in
  exists t,
    summarization_agent.summarize_email environ GEMINI_AVAILABLE new_model
      invoke format_prompt clean_text email s =
    (t, s,
     let? prompt := prompt in
     let? summary_text :=
       asked environ GEMINI_AVAILABLE new_model invoke prompt in
     Ok (clean_text summary_text)) /\
    invocations t = asked_once environ GEMINI_AVAILABLE new_model prompt.
Proof using Type.
  intros prompt. unfold invocations, asked_once.
  unfold summarization_agent.summarize_email. fold prompt.
  destruct prompt as [p|e];
    [rewrite bind_lift_ok | rewrite bind_lift_raise; eexists; split; reflexivity].
  cbn [rbind]. unfold asked.
  destruct (summary_try_gemini_run S s) as (t1 & E1 & F1).
  unfold bind at 1. rewrite E1.
  match goal with
  | |- context [summarization_agent.try_deepseek _ _ ?chosen] =>
      destruct (summary_try_deepseek_run chosen S s) as (t2 & E2 & F2)
  end.
  unfold bind at 1. rewrite E2. unfold resolved.
  destruct (primary_usable environ GEMINI_AVAILABLE new_model); cbv beta iota.
  - destruct (ask_once_run clean_text Gemini p S s) as (t3 & -> & F3).
    eexists. split; [reflexivity|].
    cbn [is_ok]. rewrite !List.filter_app, F1, F2, F3. reflexivity.
  - destruct (secondary_usable environ new_model); cbv beta iota.
    + destruct (ask_once_run clean_text DeepSeek p S s) as (t3 & -> & F3).
      eexists. split; [reflexivity|].
      cbn [is_ok]. rewrite !List.filter_app, F1, F2, F3. reflexivity.
    + eexists. split; [reflexivity|].
      cbn [is_ok]. rewrite !List.filter_app, F1, F2. reflexivity.
Qed.
End Replying.

(** X21. [generate_response] and [summarize_email] leave the state of
    their caller alone.  Each builds its prompt first, and raises what
    this raises without selecting a backend; then it asks, once, the
    backend that [get_llm_model] would select, or raises the same
    [ValueError] when there is none; an exception of the call is
    raised as it is.  The reply of [generate_response] is the formatted
    answer with the white space at its ends removed, the summary is
    the cleaned answer. *)
Theorem reply_and_summary_ask_the_selected_backend
    (environ : string -> option text) (GEMINI_AVAILABLE : bool)
    (new_model : model -> result unit) (invoke : model -> text -> result text)
    (response_prompt : text -> value -> value -> text -> text -> result text)
    (format_email : value -> text -> text -> text -> text)
    (summary_prompt : value -> result text) (clean_text : text -> text)
    (email : dict) (summary recipient_name your_name : text)
    (S : Type) (s : S) :
  let subject := PyMore.get_or email "subject" (VStr []) in
  let content := PyMore.get_or email "body" (VStr []) in
  let respond :=
    response_agent.generate_response environ GEMINI_AVAILABLE new_model invoke
      response_prompt format_email email summary recipient_name your_name s in
  let summarize :=
    summarization_agent.summarize_email environ GEMINI_AVAILABLE new_model
      invoke summary_prompt clean_text email s in
  let ask := asked environ GEMINI_AVAILABLE new_model invoke in
  let once := asked_once environ GEMINI_AVAILABLE new_model in
  (final respond = s /\
   outcome respond =
     (let? prompt :=
        response_prompt recipient_name subject content summary your_name in
      let? response_text := ask prompt in
      Ok (Py.strip (format_email subject recipient_name response_text
                      your_name))) /\
   invocations (trace respond) =
     once (response_prompt recipient_name subject content summary your_name) /\
   forall reply, outcome respond = Ok reply -> Py.strip reply = reply) /\
  (final summarize = s /\
   outcome summarize =
     (let? prompt := summary_prompt content in
      let? summary_text := ask prompt in
      Ok (clean_text summary_text)) /\
   invocations (trace summarize) = once (summary_prompt content)) /\
  (forall prompt e,
     ask prompt = Raise e ->
     e = no_provider \/ exists m, invoke m prompt = Raise e).
Proof.
  intros subject content respond summarize ask once.
  destruct (generate_response_run environ GEMINI_AVAILABLE new_model invoke
              response_prompt format_email email summary recipient_name
              your_name S s) as (t1 & E1 & F1).
  destruct (summarize_email_run environ GEMINI_AVAILABLE new_model invoke
              summary_prompt clean_text email S s) as (t2 & E2 & F2).
  fold subject content in E1, F1. fold content in E2, F2.
  fold respond in E1. fold summarize in E2. fold ask in E1, E2.
  split; [|split].
  - rewrite E1. unfold final, outcome, trace, once. cbn [fst snd].
    split; [reflexivity|]. split; [reflexivity|]. split; [exact F1|].
    intros reply.
    destruct (response_prompt _ _ _ _ _) as [p|]; cbn [rbind]; [|discriminate].
    destruct (ask p); cbn [rbind]; [|discriminate].
    intros [= <-]. apply strip_idempotent.
  - rewrite E2. unfold final, outcome, trace, once. cbn [fst snd].
    split; [reflexivity|]. split; [reflexivity | exact F2].
  - intros prompt e. unfold ask, asked, resolved.
    destruct (primary_usable _ _ _); cbn [rbind]; [eauto|].
    destruct (secondary_usable _ _); cbn [rbind]; [eauto|].
    intros [= <-]. left. reflexivity.
Qed.

(** ** The JSON candidate of a reply *)

(** The text after the last [c] of [s]. *)
Fixpoint after_last (c : ascii) (s : text) : option text :=
  match s with
  | [] => None
  | x :: s' =>
      match after_last c s' with
      | Some r => Some r
      | None => if Ascii.eqb c x then Some s' else None
      end
  end.

Lemma after_last_spec (c : ascii) (s : text) :
  match after_last c s with
  | Some r => exists w, s = w ++ c :: r /\ ~ In c r
  | None => ~ In c s
  end.
Proof.
  induction s as [|x s IH]; cbn [after_last]; [simpl; tauto|].
  destruct (after_last c s) as [r|].
  - destruct IH as (w & -> & Hr). exists (x :: w). split; [reflexivity | exact Hr].
  - destruct (Ascii.eqb c x) eqn:E.
    + apply Ascii.eqb_eq in E. subst x. exists []. split; [reflexivity | exact IH].
    + intros [->|H]; [rewrite Ascii.eqb_refl in E; discriminate | exact (IH H)].
Qed.

(** A greedy [.*] before a closing brace gives back what it took
    until it stands before the last closing brace. *)
Lemma rep_any_last {A : Type} (f : text -> option A) :
  (forall r, is_Some (f r)) ->
  forall s n prev,
    Re.rep_greedy Re.any_char 0 n prev s
      (fun _ s' =>
         match s' with
         | c :: r => if Re.one "}" c then f r else None
         | [] => None
         end) =
    match after_last "}" s with
    | Some r => f r
    | None => None
    end.
Proof.
  intros Hf. induction s as [|x s IH]; intros n prev;
    cbn [Re.rep_greedy after_last Nat.leb]; [reflexivity|].
  unfold Re.any_char at 1. rewrite IH. destruct (after_last "}" s) as [r|].
  - destruct (Hf r) as [a ->]. reflexivity.
  - unfold Re.one. destruct (Ascii.eqb "}" x); reflexivity.
Qed.

Lemma json_block_here (prev : option ascii) (s : text) :
  Re.match_at (Re.Grp json_block) prev s =
  match s with
  | c :: t =>
      if Ascii.eqb "{" c then
        match after_last "}" t with
        | Some r => Some (r, take (length s - length r) s)
        | None => None
        end
      else None
  | [] => None
  end.
Proof.
  unfold Re.match_at, json_block. cbn [Re.m].
  destruct s as [|c t]; [reflexivity|].
  unfold Re.one at 1. destruct (Ascii.eqb "{" c); [|reflexivity].
  apply (rep_any_last
           (fun r => Some (r, take (length (c :: t) - length r) (c :: t)))).
  intros r. eexists; reflexivity.
Qed.

Lemma json_block_none (s : text) : forall prev,
  ~ In "}"%char s -> Re.search_from (Re.Grp json_block) prev s = None.
Proof.
  induction s as [|c s IH]; intros prev Hno; cbn [Re.search_from];
    rewrite json_block_here; [reflexivity|].
  assert (Hs : ~ In "}"%char s) by (intros H; apply Hno; right; exact H).
  pose proof (after_last_spec "}" s) as Hl.
  destruct (after_last "}" s) as [r|].
  { destruct Hl as (w & -> & _). exfalso. apply Hs, in_or_app. right. left.
    reflexivity. }
  destruct (Ascii.eqb "{" c); apply IH, Hs.
Qed.

Lemma json_block_search (s : text) : forall prev,
  match Re.search_from (Re.Grp json_block) prev s with
  | Some json_str =>
      exists pre mid post,
        s = pre ++ json_str ++ post /\
        json_str = "{"%char :: mid ++ ["}"%char] /\
        ~ In "{"%char pre /\ ~ In "}"%char post
  | None =>
      forall pre mid post, s <> pre ++ "{"%char :: mid ++ "}"%char :: post
  end.
Proof.
  induction s as [|c s IH]; intros prev; cbn [Re.search_from];
    rewrite json_block_here.
  - intros [|x pre] mid post; discriminate.
  - destruct (Ascii.eqb "{" c) eqn:Ec.
    + apply Ascii.eqb_eq in Ec. subst c.
      pose proof (after_last_spec "}" s) as Hl.
      destruct (after_last "}" s) as [r|].
      * destruct Hl as (w & -> & Hr). exists [], w, r.
        assert (Hlen : length ("{"%char :: w ++ "}"%char :: r) - length r =
                       length ("{"%char :: w ++ ["}"%char])).
        { simpl. rewrite !length_app. simpl. lia. }
        rewrite Hlen.
        replace ("{"%char :: w ++ "}"%char :: r)
          with (("{"%char :: w ++ ["}"%char]) ++ r)
          by (simpl; rewrite <- app_assoc; reflexivity).
        rewrite take_app_length.
        split; [reflexivity|]. split; [reflexivity|]. split; [tauto | exact Hr].
      * rewrite json_block_none by exact Hl.
        intros pre mid post E. apply Hl.
        destruct pre as [|x pre]; simpl in E.
        -- injection E as E. rewrite E. apply in_or_app. right. left.
           reflexivity.
        -- injection E as _ E. rewrite E. apply in_or_app. right. right.
           apply in_or_app. right. left. reflexivity.
    + specialize (IH (Some c)).
      destruct (Re.search_from (Re.Grp json_block) (Some c) s) as [j|].
      * destruct IH as (pre & mid & post & -> & -> & Hpre & Hpost).
        exists (c :: pre), mid, post.
        split; [reflexivity|]. split; [reflexivity|].
        split; [|exact Hpost].
        intros [E|H]; [|exact (Hpre H)].
        rewrite E, Ascii.eqb_refl in Ec. discriminate.
      * intros pre mid post E.
        destruct pre as [|x pre]; simpl in E.
        -- injection E as E1 _. subst c. rewrite Ascii.eqb_refl in Ec.
           discriminate.
        -- injection E as _ E2. exact (IH pre mid post E2).
Qed.

(** X22. The JSON candidate that [analyze_resume] and
    [generate_email_with_ai] hand to the decoder is the text from the
    first opening brace of the reply to its last closing brace: braces
    and all that stands between them, a second object or a later brace
    included.  There is no candidate exactly when no opening brace of
    the reply is followed by a closing one. *)
Theorem json_candidate_spans_first_to_last_brace (response_text : text) :
  match Re.search0 json_block response_text with
  | Some json_str =>
      exists pre mid post,
        response_text = pre ++ json_str ++ post /\
        json_str = "{"%char :: mid ++ ["}"%char] /\
        ~ In "{"%char pre /\ ~ In "}"%char post
  | None =>
      forall pre mid post,
        response_text <> pre ++ "{"%char :: mid ++ "}"%char :: post
  end.
Proof. apply json_block_search. Qed.

(** ** A label between a word and an address *)

Lemma occurs_needs (c : ascii) (old s : text) :
  In c old -> ~ In c s -> ~ occurs old s.
Proof.
  intros Hc Hs (a & b & ->). apply Hs, in_or_app. right.
  apply in_or_app. left. exact Hc.
Qed.

Lemma alnum_no_colon (c : ascii) : alnum c = true -> c <> ":"%char.
Proof. ascii_cases c; vm_compute; congruence. Qed.

Lemma not_delimiter_no_colon (c : ascii) : delimiter c = false -> c <> ":"%char.
Proof. ascii_cases c; vm_compute; congruence. Qed.

Lemma address_form_no_colon (e : text) : address_form e -> ~ In ":"%char e.
Proof.
  intros He Hin.
  destruct (address_form_sides e He) as (l & r & -> & _ & _ & Hl & Hr).
  apply in_app_or in Hin as [Hin | [Hin | Hin]].
  - rewrite List.Forall_forall in Hl.
    exact (not_delimiter_no_colon _ (local_not_delimiter _ (Hl _ Hin)) eq_refl).
  - discriminate.
  - rewrite List.Forall_forall in Hr. destruct (Hr _ Hin) as [Hd _].
    exact (not_delimiter_no_colon _ Hd eq_refl).
Qed.

(** A word in front of an address makes a longer address. *)
Lemma address_form_extends (w e : text) :
  Forall (fun c => alnum c = true) w -> address_form e -> w <> [] ->
  address_form (w ++ e).
Proof.
  intros Hw He Hne.
  destruct He as [c0 local c1 dom tld H0 Hl Hll H1 Hd Hdl Ht Htl].
  destruct w as [|w0 w']; [congruence|].
  inversion Hw as [|? ? Hw0 Hw']; subst.
  replace ((w0 :: w') ++ (c0 :: local) ++ "@"%char :: (c1 :: dom) ++ "."%char :: tld)
    with ((w0 :: (w' ++ c0 :: local)) ++ "@"%char :: (c1 :: dom) ++ "."%char :: tld)
    by (simpl; rewrite <- !app_assoc; reflexivity).
  constructor; try assumption.
  - apply Forall_app. split.
    + eapply Forall_impl; [exact Hw'|]. intros c Hc. apply alnum_local, Hc.
    + constructor; [apply alnum_local, H0 | exact Hl].
  - rewrite length_app. simpl. lia.
Qed.

(** X23. Removing a label joins what stood on its two sides: for a word
    of letters and digits followed by the label [Email:] and an
    address, the extraction returns the word and the address as one
    address. *)
Theorem label_removal_joins_word_and_address (w e : text) :
  w <> [] -> Forall (fun c => alnum c = true) w -> address_form e ->
  extract_email_from_text (w ++ txt "Email:" ++ e) = Ok (Some (w ++ e)).
Proof.
  intros Hne Hw He.
  assert (Hwc : ~ In ":"%char w).
  { intros Hin. rewrite List.Forall_forall in Hw.
    exact (alnum_no_colon _ (Hw _ Hin) eq_refl). }
  pose proof (address_form_no_colon e He) as Hec.
  assert (Hjoin : ~ In ":"%char (w ++ e)).
  { intros Hin. apply in_app_or in Hin as [Hin | Hin]; tauto. }
  assert (Hclean : clean (w ++ txt "Email:" ++ e) = [] ++ (w ++ e) ++ []).
  { unfold clean. rewrite replace_first.
    - rewrite (replace_absent (txt "Email:") [] e)
        by (apply (occurs_needs ":"); [vm_compute; tauto | exact Hec]).
      cbn [app]. rewrite app_nil_r.
      assert (Hno : forall label, In ":"%char label ->
                Py.replace label [] (w ++ e) = w ++ e).
      { intros label Hl. apply replace_absent, (occurs_needs ":"); assumption. }
      rewrite (Hno (txt "email:")) by (vm_compute; tauto).
      rewrite (Hno (txt "E-mail:")) by (vm_compute; tauto).
      rewrite (Hno (txt "Contact:")) by (vm_compute; tauto).
      rewrite (Hno (txt "contact:")) by (vm_compute; tauto).
      reflexivity.
    - discriminate.
    - unfold first_at. apply (occurs_needs ":"); [vm_compute; tauto|].
      intros Hin. apply in_app_or in Hin as [Hin | Hin]; [tauto|].
      vm_compute in Hin. intuition discriminate. }
  apply (sole_address_extracted _ [] (w ++ e) [] Hclean).
  - apply address_form_extends; assumption.
  - simpl. tauto.
  - simpl. tauto.
  - left. reflexivity.
  - left. reflexivity.
Qed.

Lemma label_removal_joins_word_and_address_witness :
  extract_email_from_text (txt "peEmail:diyakhetarpal@gmail.com") =
  Ok (Some (txt "pediyakhetarpal@gmail.com")).
Proof.
  apply (label_removal_joins_word_and_address (txt "pe")
           (txt "diyakhetarpal@gmail.com")).
  - discriminate.
  - repeat constructor.
  - apply (AddressForm "d" (txt "iyakhetarpal") "g" (txt "mail") (txt "com"));
      try reflexivity; try (vm_compute; lia); repeat constructor.
Defined.
